(** * authrootstl: the parser of Microsoft's authroot.stl (ctl.go)

    The Go package decodes a PKCS#7 SignedData envelope whose content is a
    Certificate Trust List, with the cursor type of
    golang.org/x/crypto/cryptobyte.  The development is laid out as follows:

    - [cryptobyte]: the cursor operations ctl.go calls, after the library's
      string.go and asn1.go;
    - [authrootstl]: ParseAuthrootstl, parsePKCS7, parseCTL and parseCTLogs,
      statement by statement;
    - [der]: a DER writer, used to say what a well-formed input is;
    - [notions] and [samples]: what the statements speak of besides, and
      concrete inputs;
    - the proofs: the cursor on written elements, INTEGER values, the loops,
      the two decoders, and the properties of the specification, each
      followed up on a sample input.

    A Go slice is a window of a backing array.  The parser never writes, so a
    cursor is kept as the start of its window in the input's backing array
    together with the bytes the window shows. *)

From Stdlib Require Import ZArith List Bool Lia.
From Stdlib Require Strings.String.
Import String.StringSyntax.
Delimit Scope string_scope with string.
From Stdlib Require Import Strings.Byte.
Import ListNotations.
Local Open Scope Z_scope.

(** ** Machine integers *)

Definition u8 (b : byte) : Z := Z.of_N (Byte.to_N b).

Definition byte_of_Z (z : Z) : byte :=
  match Byte.of_N (Z.to_N (z mod 256)) with
  | Some b => b
  | None => x00
  end.

(** uint32 and int64 results, reduced the way the machine does. *)
Definition wrap_u32 (z : Z) : Z := z mod 2 ^ 32.
Definition wrap_i64 (z : Z) : Z := (z + 2 ^ 63) mod 2 ^ 64 - 2 ^ 63.

(** [int(x)] for a uint32 [x]; Go's int has 64 bits on the platforms the
    command is built for. *)
Definition int_of_u32 (z : Z) : Z := wrap_i64 z.

(** ** golang.org/x/crypto/cryptobyte *)

(** The library as ctl.go imports it: DER only, definite lengths of at most
    four octets, tags below 31. *)

Module cryptobyte.

(** [type String []byte]: [base] is the index of the window's first byte in
    the backing array, [bytes] its content. *)
Record String : Type := mkString { base : nat; bytes : list byte }.

Definition Tag : Type := byte.

(** cryptobyte/asn1 tag constants. *)
Module asn1.
Definition BOOLEAN : Tag := x01.
Definition INTEGER : Tag := x02.
Definition OCTET_STRING : Tag := x04.
Definition OBJECT_IDENTIFIER : Tag := x06.
Definition UTCTime : Tag := x17.
Definition SEQUENCE : Tag := x30.
Definition SET : Tag := x31.
(** [Tag(0).Constructed().ContextSpecific()] = 0 | 0x20 | 0x80. *)
Definition ContextSpecificConstructed0 : Tag := xa0.
End asn1.

(** The zero value of a [String] variable (a nil slice). *)
Definition nil_String : String := mkString 0 [].

Definition len (s : String) : Z := Z.of_nat (length (bytes s)).

(** [s[i]] *)
Definition index (s : String) (i : nat) : byte := nth i (bytes s) x00.

(** [func (s String) Empty() bool] *)
Definition Empty (s : String) : bool := len s =? 0.

(** [func (s *String) read(n int) []byte]: the first [n] bytes and the
    advanced cursor, or nothing when fewer than [n] remain.  (ctl.go reaches
    it with [n >= 1] only, where a nil and an empty slice behave alike.) *)
Definition read (n : Z) (s : String) : option (String * String) :=
  if (len s <? n) || (n <? 0) then None
  else Some (mkString (base s) (firstn (Z.to_nat n) (bytes s)),
             mkString (base s + Z.to_nat n) (skipn (Z.to_nat n) (bytes s))).

(** [func (s *String) Skip(n int) bool] *)
Definition Skip (n : Z) (s : String) : option String :=
  match read n s with
  | Some (_, s') => Some s'
  | None => None
  end.

(** [func (s *String) ReadBytes(out *[]byte, n int) bool] *)
Definition ReadBytes (n : Z) (s : String) : option (String * String) :=
  read n s.

(** [func (s *String) readUnsigned(out *uint32, length int) bool] *)
Definition readUnsigned (length : Z) (s : String) : option (Z * String) :=
  match read length s with
  | None => None
  | Some (v, s') =>
      Some (fold_left
              (fun result b => Z.lor (wrap_u32 (Z.shiftl result 8)) (u8 b))
              (bytes v) 0,
            s')
  end.

(** The header of an element: [Some (length, headerLen)], [length] counting
    the header too, or [None] where readASN1 returns false. *)
Definition readASN1_header (s : String) : option (Z * Z) :=
  let lenByte := index s 1 in
  if Z.land (u8 lenByte) 0x80 =? 0 then
    (* short form *)
    Some (wrap_u32 (u8 lenByte + 2), 2)
  else
    (* long form *)
    let lenLen := Z.land (u8 lenByte) 0x7f in
    if (lenLen =? 0) || (4 <? lenLen) || (len s <? 2 + lenLen) then None
    else
      let lenBytes :=
        mkString (base s + 2)
                 (firstn (Z.to_nat lenLen) (skipn 2 (bytes s))) in
      match readUnsigned lenLen lenBytes with
      | None => None
      | Some (len32, _) =>
          if len32 <? 128 then None
          else if Z.shiftr len32 ((lenLen - 1) * 8) =? 0 then None
          else
            let headerLen := wrap_u32 (2 + lenLen) in
            if wrap_u32 (headerLen + len32) <? len32 then None
            else Some (wrap_u32 (headerLen + len32), headerLen)
      end.

(** [func (s *String) readASN1(out *String, outTag *asn1.Tag, skipHeader bool) bool].
    The result is [(out, tag, s)] with [s] advanced past the element.  The
    library panics when the header cannot be skipped from [out]; that branch
    is [None] here and [readASN1_header_fits] shows it is never taken. *)
Definition readASN1 (skipHeader : bool) (s : String)
  : option (String * Tag * String) :=
  if len s <? 2 then None
  else
    let tag := index s 0 in
    if Z.land (u8 tag) 0x1f =? 0x1f then None
    else
      match readASN1_header s with
      | None => None
      | Some (length, headerLen) =>
          if int_of_u32 length <? 0 then None
          else
            match ReadBytes (int_of_u32 length) s with
            | None => None
            | Some (out, s') =>
                if skipHeader then
                  match Skip (int_of_u32 headerLen) out with
                  | Some out' => Some (out', tag, s')
                  | None => None
                  end
                else Some (out, tag, s')
            end
      end.

(** [ReadAnyASN1] and [ReadAnyASN1Element] *)
Definition ReadAnyASN1 (s : String) : option (String * Tag * String) :=
  readASN1 true s.

Definition ReadAnyASN1Element (s : String) : option (String * Tag * String) :=
  readASN1 false s.

(** [func (s *String) ReadASN1(out *String, tag asn1.Tag) bool] *)
Definition ReadASN1 (tag : Tag) (s : String) : option (String * String) :=
  match ReadAnyASN1 s with
  | Some (out, t, s') => if Byte.eqb t tag then Some (out, s') else None
  | None => None
  end.

(** [func (s *String) ReadASN1Element(out *String, tag asn1.Tag) bool] *)
Definition ReadASN1Element (tag : Tag) (s : String)
  : option (String * String) :=
  match ReadAnyASN1Element s with
  | Some (out, t, s') => if Byte.eqb t tag then Some (out, s') else None
  | None => None
  end.

(** [func (s String) PeekASN1Tag(tag asn1.Tag) bool] *)
Definition PeekASN1Tag (tag : Tag) (s : String) : bool :=
  if len s =? 0 then false else Byte.eqb (index s 0) tag.

(** [func (s *String) SkipASN1(tag asn1.Tag) bool] *)
Definition SkipASN1 (tag : Tag) (s : String) : option String :=
  match ReadASN1 tag s with
  | Some (_, s') => Some s'
  | None => None
  end.

(** [func (s *String) ReadOptionalASN1(out *String, outPresent *bool, tag asn1.Tag) bool]:
    [(out, present, s)]; [out] keeps the caller's zero value when the tag is
    not there. *)
Definition ReadOptionalASN1 (tag : Tag) (s : String)
  : option (String * bool * String) :=
  if PeekASN1Tag tag s then
    match ReadASN1 tag s with
    | Some (out, s') => Some (out, true, s')
    | None => None
    end
  else Some (nil_String, false, s).

(** [func (s *String) SkipOptionalASN1(tag asn1.Tag) bool] *)
Definition SkipOptionalASN1 (tag : Tag) (s : String) : option String :=
  if negb (PeekASN1Tag tag s) then Some s
  else
    match ReadASN1 tag s with
    | Some (_, s') => Some s'
    | None => None
    end.

(** *** INTEGER *)

(** [func checkASN1Integer(bytes []byte) bool] *)
Definition checkASN1Integer (bs : list byte) : bool :=
  match bs with
  | [] => false
  | [_] => true
  | b0 :: b1 :: _ =>
      if ((u8 b0 =? 0) && (Z.land (u8 b1) 0x80 =? 0))
         || ((u8 b0 =? 0xff) && (Z.land (u8 b1) 0x80 =? 0x80))
      then false
      else true
  end.

(** [big.Int.SetBytes]: the big-endian unsigned value. *)
Definition SetBytes (bs : list byte) : Z :=
  fold_left (fun acc b => acc * 256 + u8 b) bs 0.

(** [^b] on a byte. *)
Definition complement (b : byte) : byte := byte_of_Z (Z.lxor (u8 b) 0xff).

(** [func (s *String) readASN1BigInt(out *big.Int) bool] *)
Definition readASN1BigInt (s : String) : option (Z * String) :=
  match ReadASN1 asn1.INTEGER s with
  | None => None
  | Some (bs, s') =>
      if negb (checkASN1Integer (bytes bs)) then None
      else if Z.land (u8 (index bs 0)) 0x80 =? 0x80 then
        (* negative: complement every byte, add one, negate *)
        Some (- (SetBytes (map complement (bytes bs)) + 1), s')
      else Some (SetBytes (bytes bs), s')
  end.

(** [func asn1Signed(out *int64, n []byte) bool], [*out] being 0 on entry. *)
Definition asn1Signed (n : list byte) : option Z :=
  let length := Z.of_nat (List.length n) in
  if 8 <? length then None
  else
    let out :=
      fold_left (fun out b => Z.lor (wrap_i64 (Z.shiftl out 8)) (u8 b)) n 0 in
    (* shift up and down to sign extend; the count is a uint8 *)
    let count := (64 - (length mod 256) * 8 mod 256) mod 256 in
    let out := wrap_i64 (Z.shiftl out count) in
    Some (Z.shiftr out count).

(** [func (s *String) readASN1Int64(out *int64) bool] *)
Definition readASN1Int64 (s : String) : option (Z * String) :=
  match ReadASN1 asn1.INTEGER s with
  | None => None
  | Some (bs, s') =>
      if negb (checkASN1Integer (bytes bs)) then None
      else
        match asn1Signed (bytes bs) with
        | Some i => Some (i, s')
        | None => None
        end
  end.

(** [reflect.Value.OverflowInt] at a 32-bit kind. *)
Definition OverflowInt32 (x : Z) : bool :=
  let trunc := Z.shiftr (wrap_i64 (Z.shiftl x 32)) 32 in
  negb (x =? trunc).

(** [ReadASN1Integer] at [*big.Int] and at [*int32]. *)
Definition ReadASN1Integer_big (s : String) : option (Z * String) :=
  readASN1BigInt s.

Definition ReadASN1Integer_int32 (s : String) : option (Z * String) :=
  match readASN1Int64 s with
  | None => None
  | Some (i, s') => if OverflowInt32 i then None else Some (i, s')
  end.

(** *** OBJECT IDENTIFIER *)

(** The loop of [func (s *String) readBase128Int(out *int) bool], entered
    with counter [i] and accumulator [ret]; it reads one byte per turn. *)
Fixpoint readBase128Int_loop (i ret : Z) (bs : list byte)
  : option (Z * list byte) :=
  match bs with
  | [] => None (* truncated *)
  | b :: bs' =>
      if i =? 5 then None
      else if 2 ^ (31 - 7) <=? ret then None
      else
        let ret := Z.shiftl ret 7 in
        if (i =? 0) && Byte.eqb b x80 then None
        else
          let ret := Z.lor ret (Z.land (u8 b) 0x7f) in
          if Z.land (u8 b) 0x80 =? 0 then Some (ret, bs')
          else readBase128Int_loop (i + 1) ret bs'
  end.

(** [func (s *String) readBase128Int(out *int) bool].  The cursor is the
    local [bytes] of ReadASN1ObjectIdentifier, which nothing keeps: it is
    followed by its content alone. *)
Definition readBase128Int (bs : list byte) : option (Z * list byte) :=
  readBase128Int_loop 0 0 bs.

(** [encoding/asn1.ObjectIdentifier] is [[]int]. *)
Definition ObjectIdentifier : Type := list Z.

(** [func (oi ObjectIdentifier) Equal(other ObjectIdentifier) bool] *)
Fixpoint Equal (oi other : ObjectIdentifier) : bool :=
  match oi, other with
  | [], [] => true
  | a :: oi', b :: other' => (a =? b) && Equal oi' other'
  | _, _ => false
  end.

(** The loop [for ; len(bytes) > 0; i++] of ReadASN1ObjectIdentifier.  Every
    turn consumes a byte, so [length bs] turns are enough
    ([oid_components_fuel]); [None] is a malformed component. *)
Fixpoint oid_components (fuel : nat) (bs : list byte) (components : list Z)
  : option (list Z) :=
  match fuel with
  | O => Some components
  | S fuel' =>
      if 0 <? Z.of_nat (length bs) then
        match readBase128Int bs with
        | None => None
        | Some (v, bs') => oid_components fuel' bs' (components ++ [v])
        end
      else Some components
  end.

(** ReadASN1ObjectIdentifier once the element is read: from the content
    octets to the arcs. *)
Definition oid_of_content (bs : list byte) : option ObjectIdentifier :=
  if Z.of_nat (length bs) =? 0 then None
  else
    match readBase128Int bs with
    | None => None
    | Some (v, bs') =>
        let first := if v <? 80 then [v / 40; v mod 40] else [2; v - 80] in
        oid_components (length bs') bs' first
    end.

(** [func (s *String) ReadASN1ObjectIdentifier(out *encoding_asn1.ObjectIdentifier) bool] *)
Definition ReadASN1ObjectIdentifier (s : String)
  : option (ObjectIdentifier * String) :=
  match ReadASN1 asn1.OBJECT_IDENTIFIER s with
  | None => None
  | Some (bs, s') =>
      match oid_of_content (bytes bs) with
      | Some components => Some (components, s')
      | None => None
      end
  end.

(** *** UTCTime *)

Section UTCTime.

(** Go's [time.Time], and what ReadASN1UTCTime makes of an element's content
    with the standard library's [time.Parse], [Format] and [AddDate] (parse
    with seconds, then without; re-serialise and compare; move 2050 and later
    back a century).  The time package is outside the repository and no
    operation of ctl.go looks into the value. *)
Variable Time : Type.
Variable parseUTCTime : list byte -> option Time.

(** [func (s *String) ReadASN1UTCTime(out *time.Time) bool] *)
Definition ReadASN1UTCTime (s : String) : option (Time * String) :=
  match ReadASN1 asn1.UTCTime s with
  | None => None
  | Some (bs, s') =>
      match parseUTCTime (bytes bs) with
      | Some t => Some (t, s')
      | None => None
      end
  end.

End UTCTime.

End cryptobyte.

(** ** Package authrootstl (ctl.go) *)

(** A Go [(value, error)] result; the error is its message. *)
Inductive result (A : Type) : Type :=
| Ok (a : A)
| Err (msg : String.string).
Arguments Ok {A} a.
Arguments Err {A} msg.

Declare Scope go_scope.
Delimit Scope go_scope with go.

(** [if !(call) { return nil, fmt.Errorf(msg) }] followed by the rest. *)
Notation "'check' p ':=' e 'orelse' msg 'in' k" :=
  (match e with
   | Some p => k
   | None => Err msg
   end)
  (at level 10, p pattern, e at level 100, msg at level 0, k at level 200,
   only parsing) : go_scope.

Module authrootstl.
Import cryptobyte.
Local Open Scope go_scope.
Local Open Scope string_scope.

(** [fmt.Errorf(prefix + ": %w", err)] *)
Definition wrap_error {A B : Type} (prefix : String.string) (r : result A)
  (k : A -> result B) : result B :=
  match r with
  | Ok a => k a
  | Err e => Err (String.append prefix e)
  end.

(** The extension that lists the CT logs, 1.3.6.1.4.1.311.10.3.52. *)
Definition oidCTLogs : ObjectIdentifier := [1; 3; 6; 1; 4; 1; 311; 10; 3; 52].

(** [func parsePKCS7(der cryptobyte.String) (asn1.ObjectIdentifier, []byte, error)].
    Where the source reads into the cursor it reads from
    ([sequence.ReadASN1(&sequence, ...)]) the cursor becomes the element's
    content and what followed the element is gone. *)
Definition parsePKCS7 (der : String) : result (ObjectIdentifier * String) :=
  check (sequence, der) := ReadASN1 asn1.SEQUENCE der
    orelse "malformed SEQUENCE" in
  check sequence := SkipASN1 asn1.OBJECT_IDENTIFIER sequence
    orelse "malformed OBJECT IDENTIFIER" in
  check (sequence, _) := ReadASN1 asn1.ContextSpecificConstructed0 sequence
    orelse "malformed SEQUENCE 2" in
  check (sequence, _) := ReadASN1 asn1.SEQUENCE sequence
    orelse "malformed SEQUENCE 3" in
  check sequence := SkipASN1 asn1.INTEGER sequence
    orelse "malformed INTEGER" in
  check sequence := SkipASN1 asn1.SET sequence
    orelse "malformed SET" in
  check (sequence, _) := ReadASN1 asn1.SEQUENCE sequence
    orelse "malformed SEQUENCE 4" in
  check (oid, sequence) := ReadASN1ObjectIdentifier sequence
    orelse "malformed content OBJECT IDENTIFIER" in
  check (sequence, _) := ReadASN1 asn1.ContextSpecificConstructed0 sequence
    orelse "malformed SEQUENCE 5" in
  check (content, contentTag, sequence) := ReadAnyASN1Element sequence
    orelse "malformed content element" in
  Ok (oid, content).

(** The loop over [versionSequence] in parseCTLogs; [length] of the cursor
    bounds its turns ([versions_loop_fuel]). *)
Fixpoint versions_loop (fuel : nat) (versionSequence : String)
  (version : list Z) : result (list Z) :=
  match fuel with
  | O => Ok version
  | S fuel' =>
      if negb (Empty versionSequence) then
        check (i, versionSequence) := ReadASN1Integer_int32 versionSequence
          orelse "version SEQUENCE contains malformed INTEGER" in
        versions_loop fuel' versionSequence (version ++ [i])
      else Ok version
  end.

(** The loop over the rest of [sequence] in parseCTLogs.  [[]byte(spki)] is a
    conversion: the appended slice is the cursor's window itself. *)
Fixpoint pubkeys_loop (fuel : nat) (sequence : String)
  (pubkeys : list String) : result (list String) :=
  match fuel with
  | O => Ok pubkeys
  | S fuel' =>
      if negb (Empty sequence) then
        check (spki, sequence) := ReadASN1Element asn1.SEQUENCE sequence
          orelse "malformed SPKI SEQUENCE" in
        pubkeys_loop fuel' sequence (pubkeys ++ [spki])
      else Ok pubkeys
  end.

(** [func parseCTLogs(der cryptobyte.String) ([]int32, [][]byte, error)] *)
Definition parseCTLogs (der : String) : result (list Z * list String) :=
  check (sequence, der) := ReadASN1 asn1.SEQUENCE der
    orelse "malformed SEQUENCE" in
  if negb (Empty der) then Err "trailing bytes after SEQUENCE"
  else
  check (versionSequence, sequence) := ReadASN1 asn1.SEQUENCE sequence
    orelse "malformed version SEQUENCE" in
  match versions_loop (length (bytes versionSequence)) versionSequence [] with
  | Err e => Err e
  | Ok version =>
      match pubkeys_loop (length (bytes sequence)) sequence [] with
      | Err e => Err e
      | Ok pubkeys => Ok (version, pubkeys)
      end
  end.

(** The loop over [extensions] in parseCTL; the state is the pair of fields
    [ctl.CTLogsVersion], [ctl.CTLogs] the matching case assigns. *)
Fixpoint extensions_loop (fuel : nat) (extensions : String)
  (logs : list Z * list String) : result (list Z * list String) :=
  match fuel with
  | O => Ok logs
  | S fuel' =>
      if negb (Empty extensions) then
        check (extension, extensions) := ReadASN1 asn1.SEQUENCE extensions
          orelse "malformed extension SEQUENCE" in
        check (id, extension) := ReadASN1ObjectIdentifier extension
          orelse "malformed extension OBJECT IDENTIFIER" in
        check extension := SkipOptionalASN1 asn1.BOOLEAN extension
          orelse "malformed extension BOOLEAN" in
        check (value, extension) := ReadASN1 asn1.OCTET_STRING extension
          orelse "malformed extension OCTET STRING" in
        if Equal id oidCTLogs then
          wrap_error "error parsing CT logs extension: " (parseCTLogs value)
            (fun logs' => extensions_loop fuel' extensions logs')
        else extensions_loop fuel' extensions logs
      else Ok logs
  end.

Section Decoder.

Variable Time : Type.
Variable parseUTCTime : list byte -> option Time.

(** [type CTL struct]; a [CTLogs] entry is a [[]byte], a window like any
    other slice. *)
Record CTL : Type := mkCTL {
  SequenceNumber : Z;
  EffectiveDate : Time;
  CTLogsVersion : list Z;
  CTLogs : list String
}.

(** [func parseCTL(der cryptobyte.String) ( *CTL, error)] *)
Definition parseCTL (der : String) : result CTL :=
  check (sequence, der) := ReadASN1 asn1.SEQUENCE der
    orelse "malformed SEQUENCE" in
  if negb (Empty der) then Err "trailing bytes after SEQUENCE"
  else
  check sequence := SkipASN1 asn1.SEQUENCE sequence
    orelse "malformed signers SEQUENCE" in
  check (sequenceNumber, sequence) := ReadASN1Integer_big sequence
    orelse "malformed sequence number INTEGER" in
  check (effectiveDate, sequence) := ReadASN1UTCTime Time parseUTCTime sequence
    orelse "malformed effective date UTCTIME" in
  check sequence := SkipASN1 asn1.SEQUENCE sequence
    orelse "malformed algorithm identifier SEQUENCE" in
  check sequence := SkipASN1 asn1.SEQUENCE sequence
    orelse "malformed entries SEQUENCE" in
  check (extensions, hasExtensions, sequence) :=
      ReadOptionalASN1 asn1.ContextSpecificConstructed0 sequence
    orelse "malformed extensions SEQUENCE" in
  if hasExtensions then
    check (extensions, _) := ReadASN1 asn1.SEQUENCE extensions
      orelse "malformed inner extensions SEQUENCE" in
    match extensions_loop (length (bytes extensions)) extensions ([], []) with
    | Err e => Err e
    | Ok (version, logs) =>
        Ok (mkCTL sequenceNumber effectiveDate version logs)
    end
  else Ok (mkCTL sequenceNumber effectiveDate [] []).

(** [func ParseAuthrootstl(der cryptobyte.String) ( *CTL, error)] *)
Definition ParseAuthrootstl (der : String) : result CTL :=
  wrap_error "error parsing PKCS#7: " (parsePKCS7 der) (fun '(_, content) =>
  wrap_error "error parsing CTL: " (parseCTL content) (fun ctl =>
  Ok ctl)).

End Decoder.

Arguments SequenceNumber {Time} c.
Arguments EffectiveDate {Time} c.
Arguments CTLogsVersion {Time} c.
Arguments CTLogs {Time} c.
Arguments mkCTL {Time} _ _ _ _.
Arguments parseCTL {Time} parseUTCTime der.
Arguments ParseAuthrootstl {Time} parseUTCTime der.

End authrootstl.

(** ** DER writer

    What a well-formed input is made of: an element is its tag, the
    definite length in the fewest octets, and the content. *)

Module der.

(** The [k] low base-256 digits of [n], most significant first. *)
Fixpoint be_digits (k : nat) (n : Z) : list byte :=
  match k with
  | O => []
  | S k' => be_digits k' (n / 256) ++ [byte_of_Z n]
  end.

(** Length octets: short form below 128, else the long form with the fewest
    digits. *)
Definition length_octets (n : Z) : list byte :=
  if n <? 128 then [byte_of_Z n]
  else if n <? 2 ^ 8 then x81 :: be_digits 1 n
  else if n <? 2 ^ 16 then x82 :: be_digits 2 n
  else if n <? 2 ^ 24 then x83 :: be_digits 3 n
  else x84 :: be_digits 4 n.

(** Octets of the header (tag and length) of an element with [n] content
    octets. *)
Definition header_len (n : Z) : nat := S (length (length_octets n)).

Definition tlv (tag : byte) (content : list byte) : list byte :=
  tag :: length_octets (Z.of_nat (length content)) ++ content.

(** Low-tag-number form: the only tags readASN1 supports. *)
Definition low_tag (tag : byte) : Prop := Z.land (u8 tag) 0x1f <> 0x1f.

(** An input of fewer than 2^32 octets; every length in it then fits the
    reader's uint32 arithmetic. *)
Definition small (bs : list byte) : Prop := Z.of_nat (length bs) < 2 ^ 32.

(** Octets read as base-256 digits, most significant first, on top of
    [acc]. *)
Definition unsigned_from (acc : Z) (bs : list byte) : Z :=
  fold_left (fun acc b => acc * 256 + u8 b) bs acc.

(** The value of an INTEGER's content octets: big-endian two's complement. *)
Definition int_value (bs : list byte) : Z :=
  match bs with
  | b :: _ =>
      if 128 <=? u8 b
      then unsigned_from 0 bs - 256 ^ Z.of_nat (length bs)
      else unsigned_from 0 bs
  | [] => 0
  end.

(** The range of Go's int32. *)
Definition fits_int32 (v : Z) : Prop := - 2 ^ 31 <= v < 2 ^ 31.

(** DER asks for the shortest two's complement form: at least one octet, and
    with more than one the first nine bits are not all alike. *)
Definition minimal_integer (bs : list byte) : Prop :=
  match bs with
  | [] => False
  | [_] => True
  | b0 :: b1 :: _ =>
      ~ (u8 b0 = 0 /\ u8 b1 < 128) /\ ~ (u8 b0 = 255 /\ 128 <= u8 b1)
  end.

(** *** The shapes ctl.go reads *)

Import cryptobyte.

(** Consecutive elements of one tag. *)
Definition elements (tag : byte) (contents : list (list byte)) : list byte :=
  concat (map (tlv tag) contents).

(** The value of the CT-logs extension: a SEQUENCE holding the SEQUENCE of
    version INTEGERs and then one SEQUENCE per log key. *)
Definition ctlogs_value (versions spkis : list (list byte)) : list byte :=
  tlv asn1.SEQUENCE
    (tlv asn1.SEQUENCE (elements asn1.INTEGER versions)
     ++ elements asn1.SEQUENCE spkis).

(** An extension by the content octets of its fields. *)
Record Extension : Type := mkExtension {
  extnID : list byte;
  critical : option (list byte);
  extnValue : list byte
}.

Definition extension_der (e : Extension) : list byte :=
  tlv asn1.SEQUENCE
    (tlv asn1.OBJECT_IDENTIFIER (extnID e)
     ++ match critical e with
        | Some c => tlv asn1.BOOLEAN c
        | None => []
        end
     ++ tlv asn1.OCTET_STRING (extnValue e)).

(** The optional [[0]] block around the SEQUENCE of extensions. *)
Definition extensions_block (exts : option (list Extension)) : list byte :=
  match exts with
  | Some es =>
      tlv asn1.ContextSpecificConstructed0
        (tlv asn1.SEQUENCE (concat (map extension_der es)))
  | None => []
  end.

(** The trust list by the content octets of its mandatory fields. *)
Record TrustList : Type := mkTrustList {
  signers : list byte;
  sequenceNumber : list byte;
  effectiveDate : list byte;
  subjectAlgorithm : list byte;
  entries : list byte
}.

(** The trust list with [block] after its entries. *)
Definition ctl_with (c : TrustList) (block : list byte) : list byte :=
  tlv asn1.SEQUENCE
    (tlv asn1.SEQUENCE (signers c)
     ++ tlv asn1.INTEGER (sequenceNumber c)
     ++ tlv asn1.UTCTime (effectiveDate c)
     ++ tlv asn1.SEQUENCE (subjectAlgorithm c)
     ++ tlv asn1.SEQUENCE (entries c)
     ++ block).

Definition ctl_der (c : TrustList) (exts : option (list Extension))
  : list byte :=
  ctl_with c (extensions_block exts).

(** The PKCS#7 envelope: [eContent] is the content element whole,
    [signerInfos] whatever SignedData holds after its contentInfo
    (certificates, CRLs, signer infos). *)
Record SignedData : Type := mkSignedData {
  contentType : list byte;
  version : list byte;
  digestAlgorithms : list byte;
  eContentType : list byte;
  eContent : list byte;
  signerInfos : list byte
}.

(** The envelope with [inner] after the content element inside its [[0]]
    wrapper and [outer] after the outermost SEQUENCE. *)
Definition envelope_with (e : SignedData) (inner outer : list byte)
  : list byte :=
  tlv asn1.SEQUENCE
    (tlv asn1.OBJECT_IDENTIFIER (contentType e)
     ++ tlv asn1.ContextSpecificConstructed0
          (tlv asn1.SEQUENCE
             (tlv asn1.INTEGER (version e)
              ++ tlv asn1.SET (digestAlgorithms e)
              ++ tlv asn1.SEQUENCE
                   (tlv asn1.OBJECT_IDENTIFIER (eContentType e)
                    ++ tlv asn1.ContextSpecificConstructed0
                         (eContent e ++ inner))
              ++ signerInfos e)))
  ++ outer.

Definition envelope_der (e : SignedData) : list byte := envelope_with e [] [].

(** An envelope the decoder can open: the inner content type is an OID and
    the content is one element. *)
Definition wf_envelope (e : SignedData) : Prop :=
  (exists id, oid_of_content (eContentType e) = Some id)
  /\ exists tag c, low_tag tag /\ eContent e = tlv tag c.

(** Version INTEGERs of the CT-logs extension: minimal, within int32. *)
Definition wf_versions (versions : list (list byte)) : Prop :=
  Forall (fun c => minimal_integer c /\ fits_int32 (int_value c)) versions.

(** What an extension contributes: nothing when its OID is another one, the
    version and key lists when it is the CT-logs extension. *)
Inductive wf_extension
  : Extension -> option (list (list byte) * list (list byte)) -> Prop :=
| wf_other (e : Extension) (id : ObjectIdentifier) :
    oid_of_content (extnID e) = Some id ->
    Equal id authrootstl.oidCTLogs = false ->
    wf_extension e None
| wf_ctlogs (e : Extension) (id : ObjectIdentifier)
    (versions spkis : list (list byte)) :
    oid_of_content (extnID e) = Some id ->
    Equal id authrootstl.oidCTLogs = true ->
    extnValue e = ctlogs_value versions spkis ->
    wf_versions versions ->
    wf_extension e (Some (versions, spkis)).

(** The lists the last CT-logs extension carries, as values and as element
    octets; both empty without one. *)
Fixpoint last_logs (kinds : list (option (list (list byte) * list (list byte))))
  (acc : list Z * list (list byte)) : list Z * list (list byte) :=
  match kinds with
  | [] => acc
  | Some (versions, spkis) :: kinds' =>
      last_logs kinds' (map int_value versions, map (tlv asn1.SEQUENCE) spkis)
  | None :: kinds' => last_logs kinds' acc
  end.

(** A well-formed trust list and the contributions of its extensions. *)
Definition wf_trustlist {Time : Type} (utc : list byte -> option Time)
  (c : TrustList) (exts : option (list Extension)) (t : Time)
  (kinds : list (option (list (list byte) * list (list byte)))) : Prop :=
  minimal_integer (sequenceNumber c)
  /\ utc (effectiveDate c) = Some t
  /\ match exts with
     | Some es => Forall2 wf_extension es kinds
     | None => kinds = []
     end.

End der.

(** ** Notions used in the statements *)

Module notions.
Import cryptobyte authrootstl.
Local Open Scope string_scope.

(** What readASN1BigInt stores for the content octets [bs]. *)
Definition bigint_of (bs : list byte) : Z :=
  if Z.land (u8 (nth 0 bs x00)) 0x80 =? 0x80
  then - (SetBytes (map complement bs) + 1)
  else SetBytes bs.

(** [s] shows a stretch of [mem] that starts at its base. *)
Definition inside (mem : list byte) (s : String) : Prop :=
  exists pre post, mem = pre ++ bytes s ++ post /\ length pre = base s.

(** What a slice shows in memory [mem]. *)
Definition load (mem : list byte) (s : String) : list byte :=
  firstn (length (bytes s)) (skipn (base s) mem).

(** [s] is a window of [mem] showing its bytes. *)
Definition window_of (mem : list byte) (s : String) : Prop :=
  (base s + length (bytes s) <= length mem)%nat /\ load mem s = bytes s.

(** Memory [mem] with the byte at [i] overwritten. *)
Definition store (mem : list byte) (i : nat) (v : byte) : list byte :=
  firstn i mem ++ match skipn i mem with
                  | [] => []
                  | _ :: tl => v :: tl
                  end.

(** Consecutive windows from [b] on showing [elems]. *)
Fixpoint windows (b : nat) (elems : list (list byte)) : list String :=
  match elems with
  | [] => []
  | e :: es => mkString b e :: windows (b + length e) es
  end.

(** The same window further along the backing array. *)
Definition shift (d : nat) (s : String) : String :=
  mkString (d + base s) (bytes s).

(** An outcome of parsePKCS7 without the place of the content. *)
Definition outcome (r : result (ObjectIdentifier * String))
  : result (ObjectIdentifier * list byte) :=
  match r with
  | Ok (oid, content) => Ok (oid, bytes content)
  | Err e => Err e
  end.

(** parsePKCS7 from the point where the outer content type is skipped. *)
Definition parsePKCS7_signedData (sequence : String)
  : result (ObjectIdentifier * String) :=
  (check (sequence, _) := ReadASN1 asn1.ContextSpecificConstructed0 sequence
    orelse "malformed SEQUENCE 2" in
  check (sequence, _) := ReadASN1 asn1.SEQUENCE sequence
    orelse "malformed SEQUENCE 3" in
  check sequence := SkipASN1 asn1.INTEGER sequence
    orelse "malformed INTEGER" in
  check sequence := SkipASN1 asn1.SET sequence
    orelse "malformed SET" in
  check (sequence, _) := ReadASN1 asn1.SEQUENCE sequence
    orelse "malformed SEQUENCE 4" in
  check (oid, sequence) := ReadASN1ObjectIdentifier sequence
    orelse "malformed content OBJECT IDENTIFIER" in
  check (sequence, _) := ReadASN1 asn1.ContextSpecificConstructed0 sequence
    orelse "malformed SEQUENCE 5" in
  check (content, contentTag, sequence) := ReadAnyASN1Element sequence
    orelse "malformed content element" in
  Ok (oid, content))%go.

(** parseCTL from the optional extensions block on, the two mandatory
    fields read. *)
Definition parseCTL_extensions {Time : Type} (sequenceNumber : Z)
  (effectiveDate : Time) (sequence : String) : result (CTL Time) :=
  (check (extensions, hasExtensions, sequence) :=
      ReadOptionalASN1 asn1.ContextSpecificConstructed0 sequence
    orelse "malformed extensions SEQUENCE" in
  if hasExtensions then
    check (extensions, _) := ReadASN1 asn1.SEQUENCE extensions
      orelse "malformed inner extensions SEQUENCE" in
    match extensions_loop (length (bytes extensions)) extensions ([], []) with
    | Err e => Err e
    | Ok (version, logs) =>
        Ok (mkCTL sequenceNumber effectiveDate version logs)
    end
  else Ok (mkCTL sequenceNumber effectiveDate [] []))%go.

(** The lists of parseCTL's loop state with the windows replaced by what
    they show. *)
Definition shown (logs : list Z * list String) : list Z * list (list byte) :=
  (fst logs, map bytes (snd logs)).

(** An input as the publisher writes it: one element, nothing around it,
    that decodes. *)
Definition valid_input {Time : Type} (utc : list byte -> option Time)
  (input : list byte) : Prop :=
  der.small input
  /\ (exists tag c, input = der.tlv tag c)
  /\ exists ctl, ParseAuthrootstl utc (mkString 0 input) = Ok ctl.

(** What owned copies would give: whichever byte [i] of the input buffer is
    overwritten after the decode, the blobs of the CTL show what they
    showed. *)
Definition holds_no_reference {Time : Type} (utc : list byte -> option Time)
  (input : list byte) : Prop :=
  forall (ctl : CTL Time) (i : nat) (v : byte),
    ParseAuthrootstl utc (mkString 0 input) = Ok ctl ->
    map (load (store input i v)) (CTLogs ctl) = map bytes (CTLogs ctl).

(** The UTCTime contents of the seconds form [YYMMDDhhmmssZ], the instance
    of the time parameter the concrete runs use.  Years 50 to 99 are
    1950 to 1999. *)
Record UTC : Type := mkUTC {
  year : Z; month : Z; day : Z; hour : Z; minute : Z; second : Z
}.

Definition digits2 (hi lo : byte) : option Z :=
  let h := u8 hi - 48 in
  let l := u8 lo - 48 in
  if (0 <=? h) && (h <=? 9) && (0 <=? l) && (l <=? 9)
  then Some (10 * h + l) else None.

Definition days_in (y m : Z) : Z :=
  if (m =? 2) then (if (y mod 4 =? 0) then 29 else 28)
  else if (m =? 4) || (m =? 6) || (m =? 9) || (m =? 11) then 30
  else 31.

Definition utc_seconds_form (bs : list byte) : option UTC :=
  match bs with
  | [y1; y2; m1; m2; d1; d2; h1; h2; n1; n2; s1; s2; z] =>
      match digits2 y1 y2, digits2 m1 m2, digits2 d1 d2,
            digits2 h1 h2, digits2 n1 n2, digits2 s1 s2 with
      | Some yy, Some mo, Some dd, Some hh, Some mi, Some ss =>
          let y := if yy <? 50 then 2000 + yy else 1900 + yy in
          if Byte.eqb z x5a
             && (1 <=? mo) && (mo <=? 12) && (1 <=? dd)
             && (dd <=? days_in y mo)
             && (hh <? 24) && (mi <? 60) && (ss <? 60)
          then Some (mkUTC y mo dd hh mi ss) else None
      | _, _, _, _, _, _ => None
      end
  | _ => None
  end.

End notions.

(** ** Sample inputs *)

Module samples.
Import cryptobyte der.

(** 1.2.840.113549.1.7.2 (signedData), 1.3.6.1.4.1.311.10.1 (the CTL
    content type), 1.3.6.1.4.1.311.10.3.52 and 2.5.29.15. *)
Definition oid_signedData : list byte :=
  [x2a; x86; x48; x86; xf7; x0d; x01; x07; x02].
Definition oid_CTL : list byte :=
  [x2b; x06; x01; x04; x01; x82; x37; x0a; x01].
Definition oid_CTLogs : list byte :=
  [x2b; x06; x01; x04; x01; x82; x37; x0a; x03; x34].
Definition oid_keyUsage : list byte := [x55; x1d; x0f].

(** [250101000000Z] *)
Definition utc_2025 : list byte :=
  [x32; x35; x30; x31; x30; x31; x30; x30; x30; x30; x30; x30; x5a].

Definition utc_2025_value : notions.UTC := notions.mkUTC 2025 1 1 0 0 0.

(** Key blobs of 10 and 20 octets, header included. *)
Definition spki10 : list byte := repeat xaa 8.
Definition spki20 : list byte := repeat xbb 18.

Definition envelope_of (content : list byte) : SignedData :=
  mkSignedData oid_signedData [x01] [] oid_CTL content [x31; x00].

(** Sequence number 1, version list [1], the two keys. *)
Definition scenario_body : TrustList := mkTrustList [] [x01] utc_2025 [] [].
Definition scenario_extension : Extension :=
  mkExtension oid_CTLogs None (ctlogs_value [[x01]] [spki10; spki20]).
Definition scenario : SignedData :=
  envelope_of (ctl_der scenario_body (Some [scenario_extension])).

(** Sequence number 2^72 + 1, no extensions block. *)
Definition wide_body : TrustList :=
  mkTrustList [] [x01; x00; x00; x00; x00; x00; x00; x00; x00; x01]
    utc_2025 [] [].
Definition wide : SignedData := envelope_of (ctl_der wide_body None).

(** A critical key-usage extension and nothing else. *)
Definition other_extension : Extension :=
  mkExtension oid_keyUsage (Some [xff]) [x03; x02; x01; x06].
Definition unrelated : SignedData :=
  envelope_of (ctl_der scenario_body (Some [other_extension])).

(** Two CT-logs extensions around another one. *)
Definition earlier_extension : Extension :=
  mkExtension oid_CTLogs None (ctlogs_value [[x02]] [repeat xcc 4]).
Definition twice : SignedData :=
  envelope_of
    (ctl_der scenario_body
       (Some [earlier_extension; other_extension; scenario_extension])).

(** A CT-logs extension whose second version is 2^31. *)
Definition overflowing_extension : Extension :=
  mkExtension oid_CTLogs None
    (tlv asn1.SEQUENCE
       (tlv asn1.SEQUENCE
          (elements asn1.INTEGER [[x01]]
           ++ tlv asn1.INTEGER [x00; x80; x00; x00; x00] ++ [])
        ++ elements asn1.SEQUENCE [spki10])).
Definition overflowing : SignedData :=
  envelope_of
    (ctl_with scenario_body
       (tlv asn1.ContextSpecificConstructed0
          (tlv asn1.SEQUENCE
             (concat (map extension_der [other_extension])
              ++ extension_der overflowing_extension ++ [])))).

End samples.

(** ** Writers of values *)

Module writers.
Import cryptobyte der.

(** The shortest two's complement octets of [v], with at most [fuel] octets
    before the last. *)
Fixpoint int_octets_upto (fuel : nat) (v : Z) : list byte :=
  match fuel with
  | O => [byte_of_Z v]
  | S fuel' =>
      if (- 128 <=? v) && (v <? 128) then [byte_of_Z v]
      else int_octets_upto fuel' (v / 256) ++ [byte_of_Z v]
  end.

(** The content octets of the DER INTEGER [v]; a number of [n] bits never
    takes more than [n] octets. *)
Definition int_octets (v : Z) : list byte :=
  int_octets_upto (Z.to_nat (Z.log2_up (Z.abs v + 1))) v.

(** A trust list as its publisher writes it: the sequence number, the date
    octets, the versions and the key contents; the fields the decoder skips
    are there and empty. *)
Definition written_ctl (n : Z) (date : list byte) (versions : list Z)
  (keys : list (list byte)) : list byte :=
  ctl_der (mkTrustList [] (int_octets n) date [] [])
    (Some [mkExtension samples.oid_CTLogs None
             (ctlogs_value (map int_octets versions) keys)]).

End writers.

(** * Proofs *)

Import cryptobyte authrootstl der notions.

(** ** Bytes *)

Lemma u8_range (b : byte) : 0 <= u8 b < 256.
Proof.
  unfold u8. pose proof (Byte.to_N_bounded b) as H. lia.
Qed.

Lemma u8_byte_of_Z (z : Z) : u8 (byte_of_Z z) = z mod 256.
Proof.
  unfold u8, byte_of_Z.
  assert (Hr : 0 <= z mod 256 < 256) by (apply Z.mod_pos_bound; lia).
  destruct (Byte.of_N (Z.to_N (z mod 256))) as [b|] eqn:E.
  - apply Byte.to_of_N in E. rewrite E. lia.
  - apply Byte.of_N_None_iff in E. lia.
Qed.

Lemma u8_byte_of_Z_small (z : Z) : 0 <= z < 256 -> u8 (byte_of_Z z) = z.
Proof. intros. rewrite u8_byte_of_Z. apply Z.mod_small. lia. Qed.

Lemma byte_of_Z_u8 (b : byte) : byte_of_Z (u8 b) = b.
Proof. destruct b; reflexivity. Qed.

Lemma u8_inj (a b : byte) : u8 a = u8 b -> a = b.
Proof. intros H. rewrite <- (byte_of_Z_u8 a), <- (byte_of_Z_u8 b), H. reflexivity. Qed.

Lemma high_bit_clear (b : byte) : (Z.land (u8 b) 0x80 =? 0) = (u8 b <? 128).
Proof. destruct b; reflexivity. Qed.

Lemma high_bit_set (b : byte) : (Z.land (u8 b) 0x80 =? 0x80) = (128 <=? u8 b).
Proof. destruct b; reflexivity. Qed.

Lemma low7 (b : byte) : Z.land (u8 b) 0x7f = u8 b mod 128.
Proof. destruct b; reflexivity. Qed.

Lemma complement_u8 (b : byte) : u8 (complement b) = 255 - u8 b.
Proof. destruct b; reflexivity. Qed.

(** [x | b] adds when the low eight bits of [x] are clear. *)
Lemma lor_low_byte (q b : Z) : 0 <= b < 256 -> Z.lor (256 * q) b = 256 * q + b.
Proof.
  intros Hb.
  rewrite <- Z.lxor_lor, <- Z.add_nocarry_lxor; try reflexivity.
  all: apply Z.bits_inj'; intros n Hn; rewrite Z.land_spec, Z.bits_0;
    destruct (Z.ltb_spec n 8).
  all: try (replace (256 * q) with (q * 2 ^ 8) by lia;
            rewrite Z.mul_pow2_bits_low by lia; reflexivity).
  all: rewrite (Z.bits_above_log2 b n), andb_false_r; try reflexivity; try lia.
  all: destruct (Z.eq_dec b 0) as [->|]; [simpl; lia|];
    apply Z.lt_le_trans with 8; [|lia];
    apply Z.log2_lt_pow2; lia.
Qed.

Lemma wrap_u32_small (z : Z) : 0 <= z < 2 ^ 32 -> wrap_u32 z = z.
Proof. intros. unfold wrap_u32. apply Z.mod_small. lia. Qed.

Lemma wrap_i64_small (z : Z) : - 2 ^ 63 <= z < 2 ^ 63 -> wrap_i64 z = z.
Proof. intros. unfold wrap_i64. rewrite Z.mod_small; lia. Qed.

Lemma wrap_i64_range (z : Z) : - 2 ^ 63 <= wrap_i64 z < 2 ^ 63.
Proof.
  unfold wrap_i64.
  pose proof (Z.mod_pos_bound (z + 2 ^ 63) (2 ^ 64)). lia.
Qed.

Lemma wrap_i64_eqm (z : Z) : exists k, wrap_i64 z = z + k * 2 ^ 64.
Proof.
  unfold wrap_i64. exists (- ((z + 2 ^ 63) / 2 ^ 64)).
  pose proof (Z.div_mod (z + 2 ^ 63) (2 ^ 64)). lia.
Qed.

(** ** Big-endian values *)

Lemma unsigned_from_app acc a b :
  unsigned_from acc (a ++ b) = unsigned_from (unsigned_from acc a) b.
Proof. apply fold_left_app. Qed.

Lemma unsigned_from_acc (bs : list byte) : forall acc,
  unsigned_from acc bs = acc * 256 ^ Z.of_nat (length bs) + unsigned_from 0 bs.
Proof.
  induction bs as [|b bs IH]; intros acc.
  - simpl. lia.
  - cbn [unsigned_from fold_left length] in *. fold (unsigned_from (acc * 256 + u8 b) bs).
    fold (unsigned_from (0 * 256 + u8 b) bs).
    rewrite IH, (IH (0 * 256 + u8 b)).
    rewrite Nat2Z.inj_succ, Z.pow_succ_r by lia. lia.
Qed.

Lemma unsigned_from_range (bs : list byte) :
  0 <= unsigned_from 0 bs < 256 ^ Z.of_nat (length bs).
Proof.
  induction bs as [|b bs IH] using rev_ind.
  - simpl. lia.
  - rewrite unsigned_from_app, length_app, Nat2Z.inj_add.
    cbn [length unsigned_from fold_left].
    rewrite Z.pow_add_r by lia. pose proof (u8_range b).
    change (256 ^ Z.of_nat 1) with 256. lia.
Qed.

Lemma SetBytes_unsigned bs : SetBytes bs = unsigned_from 0 bs.
Proof. reflexivity. Qed.

Lemma length_be_digits k n : length (be_digits k n) = k.
Proof.
  revert n. induction k as [|k IH]; intros n; simpl; [reflexivity|].
  rewrite length_app, IH. simpl. lia.
Qed.

Lemma unsigned_be_digits k : forall n,
  unsigned_from 0 (be_digits k n) = n mod 256 ^ Z.of_nat k.
Proof.
  induction k as [|k IH]; intros n.
  - simpl. rewrite Z.mod_1_r. reflexivity.
  - cbn [be_digits]. rewrite unsigned_from_app, IH.
    cbn [unsigned_from fold_left]. rewrite u8_byte_of_Z.
    rewrite Nat2Z.inj_succ, Z.pow_succ_r by lia.
    rewrite Z.rem_mul_r by lia. lia.
Qed.

(** ** The cursor on written elements *)

Lemma read_app (b : nat) (a r : list byte) :
  read (Z.of_nat (length a)) (mkString b (a ++ r))
  = Some (mkString b a, mkString (b + length a) r).
Proof.
  unfold read, len. cbn [bytes base].
  rewrite length_app, Nat2Z.id.
  replace (_ || _) with false
    by (symmetry; apply orb_false_iff; split; apply Z.ltb_ge; lia).
  rewrite firstn_app, skipn_app, firstn_all, skipn_all, Nat.sub_diag.
  simpl. rewrite app_nil_r. reflexivity.
Qed.

Lemma read_short (n : Z) (s : String) : len s < n -> read n s = None.
Proof.
  intros H. unfold read.
  apply Z.ltb_lt in H. rewrite H. reflexivity.
Qed.

(** The uint32 accumulation of readUnsigned is the plain big-endian value
    as long as that fits. *)
Lemma readUnsigned_fold (bs : list byte) : forall acc,
  0 <= acc -> unsigned_from acc bs < 2 ^ 32 ->
  fold_left (fun result b => Z.lor (wrap_u32 (Z.shiftl result 8)) (u8 b)) bs acc
  = unsigned_from acc bs.
Proof.
  induction bs as [|b bs IH]; intros acc Hacc Hlt; [reflexivity|].
  cbn [fold_left unsigned_from] in *.
  fold (unsigned_from (acc * 256 + u8 b) bs) in *.
  pose proof (u8_range b) as Hb.
  assert (Hsmall : acc * 256 + u8 b < 2 ^ 32).
  { rewrite unsigned_from_acc in Hlt.
    pose proof (unsigned_from_range bs).
    assert (1 <= 256 ^ Z.of_nat (length bs)) by (apply Z.pow_le_mono_r with (b := 0); lia).
    nia. }
  rewrite Z.shiftl_mul_pow2 by lia. change (2 ^ 8) with 256.
  rewrite wrap_u32_small by lia.
  rewrite (Z.mul_comm acc), lor_low_byte by lia.
  rewrite (Z.mul_comm 256). apply IH; [lia|assumption].
Qed.

Lemma header_short (b : nat) (tag : byte) (n : Z) (tail : list byte) :
  0 <= n < 128 ->
  readASN1_header (mkString b (tag :: byte_of_Z n :: tail)) = Some (n + 2, 2).
Proof.
  intros Hn. unfold readASN1_header, index. cbn [bytes nth].
  rewrite high_bit_clear, u8_byte_of_Z_small by lia.
  replace (n <? 128) with true by (symmetry; apply Z.ltb_lt; lia).
  rewrite wrap_u32_small by lia. reflexivity.
Qed.

Lemma header_long (k : nat) (b : nat) (tag : byte) (n : Z) (tail : list byte) :
  (1 <= k <= 4)%nat -> 128 <= n ->
  256 ^ (Z.of_nat k - 1) <= n < 256 ^ Z.of_nat k -> n < 2 ^ 32 - 6 ->
  readASN1_header
    (mkString b (tag :: byte_of_Z (128 + Z.of_nat k) :: be_digits k n ++ tail))
  = Some (2 + Z.of_nat k + n, 2 + Z.of_nat k).
Proof.
  intros Hk H128 Hn H32. unfold readASN1_header, index. cbn [bytes nth base].
  rewrite high_bit_clear, low7, u8_byte_of_Z_small by lia.
  replace (128 + Z.of_nat k <? 128) with false by (symmetry; apply Z.ltb_ge; lia).
  replace ((128 + Z.of_nat k) mod 128) with (Z.of_nat k)
    by (apply Z.mod_unique with 1; lia).
  unfold len. cbn [bytes length]. rewrite length_app, length_be_digits.
  replace (_ || _) with false.
  2:{ symmetry. rewrite !orb_false_iff. repeat split;
      [apply Z.eqb_neq | apply Z.ltb_ge | apply Z.ltb_ge]; lia. }
  rewrite Nat2Z.id. cbn [skipn].
  rewrite firstn_app, length_be_digits, Nat.sub_diag, firstn_all2
    by (rewrite length_be_digits; lia).
  cbn [firstn]. rewrite app_nil_r.
  unfold readUnsigned.
  pose proof (read_app (b + 2) (be_digits k n) []) as Hread.
  rewrite length_be_digits, app_nil_r in Hread. rewrite Hread. cbn [bytes].
  assert (Hval : unsigned_from 0 (be_digits k n) = n).
  { rewrite unsigned_be_digits. apply Z.mod_small. lia. }
  rewrite readUnsigned_fold by lia. rewrite Hval.
  replace (n <? 128) with false by (symmetry; apply Z.ltb_ge; lia).
  rewrite Z.shiftr_div_pow2 by lia.
  replace (2 ^ ((Z.of_nat k - 1) * 8)) with (256 ^ (Z.of_nat k - 1))
    by (rewrite Z.mul_comm, Z.pow_mul_r by lia; reflexivity).
  assert (0 < 256 ^ (Z.of_nat k - 1)) by (apply Z.pow_pos_nonneg; lia).
  assert (1 <= n / 256 ^ (Z.of_nat k - 1))
    by (apply Z.div_le_lower_bound; lia).
  replace (_ =? 0) with false by (symmetry; apply Z.eqb_neq; lia).
  rewrite (wrap_u32_small (2 + Z.of_nat k)) by lia.
  rewrite wrap_u32_small by lia.
  replace (_ <? n) with false by (symmetry; apply Z.ltb_ge; lia).
  reflexivity.
Qed.

Lemma header_len_range (n : Z) : (2 <= header_len n <= 6)%nat.
Proof.
  unfold header_len, length_octets.
  repeat (destruct (_ <? _)); cbn [length]; rewrite ?length_be_digits; lia.
Qed.

Lemma length_tlv (tag : byte) (c : list byte) :
  length (tlv tag c) = (header_len (Z.of_nat (length c)) + length c)%nat.
Proof.
  unfold tlv, header_len. cbn [length]. rewrite length_app. lia.
Qed.

(** The header readASN1 computes from what the writer wrote. *)
Lemma readASN1_header_octets (b : nat) (tag : byte) (n : Z) (tail : list byte) :
  0 <= n < 2 ^ 32 - 6 ->
  readASN1_header (mkString b (tag :: length_octets n ++ tail))
  = Some (Z.of_nat (header_len n) + n, Z.of_nat (header_len n)).
Proof.
  intros Hn. unfold header_len, length_octets.
  destruct (Z.ltb_spec n 128).
  { cbn [app length]. rewrite header_short by lia. f_equal. f_equal. lia. }
  destruct (Z.ltb_spec n (2 ^ 8)).
  { cbn [app length]. rewrite length_be_digits.
    change x81 with (byte_of_Z (128 + Z.of_nat 1)).
    rewrite header_long; [f_equal; f_equal; lia| lia | lia | simpl; lia | lia]. }
  destruct (Z.ltb_spec n (2 ^ 16)).
  { cbn [app length]. rewrite length_be_digits.
    change x82 with (byte_of_Z (128 + Z.of_nat 2)).
    rewrite header_long; [f_equal; f_equal; lia| lia | lia | simpl; lia | lia]. }
  destruct (Z.ltb_spec n (2 ^ 24)).
  { cbn [app length]. rewrite length_be_digits.
    change x83 with (byte_of_Z (128 + Z.of_nat 3)).
    rewrite header_long; [f_equal; f_equal; lia| lia | lia | simpl; lia | lia]. }
  cbn [app length]. rewrite length_be_digits.
  change x84 with (byte_of_Z (128 + Z.of_nat 4)).
  rewrite header_long; [f_equal; f_equal; lia| lia | lia | simpl; lia | lia].
Qed.

Lemma small_content (tag : byte) (c : list byte) :
  small (tlv tag c) -> 0 <= Z.of_nat (length c) < 2 ^ 32 - 6.
Proof.
  unfold small. rewrite length_tlv. intros H.
  pose proof (header_len_range (Z.of_nat (length c))) as Hh.
  split; [lia|].
  destruct (Z.ltb_spec (Z.of_nat (length c)) (2 ^ 24)) as [Hlt|Hge]; [lia|].
  assert (header_len (Z.of_nat (length c)) = 6%nat).
  { unfold header_len, length_octets.
    repeat match goal with
           | |- context [?a <? ?b] => destruct (Z.ltb_spec a b); [lia|]
           end.
    cbn [length]. rewrite length_be_digits. reflexivity. }
  lia.
Qed.

Lemma int_of_u32_small (z : Z) : 0 <= z < 2 ^ 32 -> int_of_u32 z = z.
Proof. intros. unfold int_of_u32. apply wrap_i64_small. lia. Qed.

(** Reading back a written element: the content (or the whole element) and
    the cursor past it. *)
Lemma readASN1_tlv (skipHeader : bool) (b : nat) (tag : byte)
  (c rest : list byte) :
  low_tag tag -> small (tlv tag c) ->
  readASN1 skipHeader (mkString b (tlv tag c ++ rest))
  = Some (if skipHeader
          then mkString (b + header_len (Z.of_nat (length c))) c
          else mkString b (tlv tag c),
          tag,
          mkString (b + length (tlv tag c)) rest).
Proof.
  intros Htag Hsmall. pose proof (small_content _ _ Hsmall) as Hc.
  pose proof (header_len_range (Z.of_nat (length c))) as Hh.
  set (n := Z.of_nat (length c)) in *.
  set (hdr := tag :: length_octets n).
  assert (Hlen : length hdr = header_len n) by reflexivity.
  assert (Heq : tlv tag c ++ rest = tag :: length_octets n ++ (c ++ rest))
    by (unfold tlv; cbn [app]; rewrite <- app_assoc; reflexivity).
  assert (Heq' : tlv tag c ++ rest = (hdr ++ c) ++ rest)
    by (unfold tlv, hdr; reflexivity).
  unfold readASN1.
  replace (len _ <? 2) with false.
  2:{ symmetry. apply Z.ltb_ge. unfold len. cbn [bytes].
      rewrite length_app, length_tlv. fold n. lia. }
  unfold index at 1. cbn [bytes]. rewrite Heq at 1. cbn [nth].
  replace (_ =? 31) with false by (symmetry; apply Z.eqb_neq; exact Htag).
  rewrite Heq at 1.
  rewrite readASN1_header_octets by lia.
  rewrite !int_of_u32_small by lia.
  replace (_ <? 0) with false by (symmetry; apply Z.ltb_ge; lia).
  unfold ReadBytes. rewrite Heq'.
  replace (Z.of_nat (header_len n) + n) with (Z.of_nat (length (hdr ++ c)))
    by (rewrite length_app, Hlen; unfold n; lia).
  rewrite read_app.
  replace (length (tlv tag c)) with (length (hdr ++ c)) by reflexivity.
  destruct skipHeader; [|reflexivity].
  unfold Skip. rewrite <- Hlen, read_app. reflexivity.
Qed.

(** ** INTEGER values *)

Lemma unsigned_from_shift (bs : list byte) (x d : Z) :
  unsigned_from (x + d) bs = unsigned_from x bs + d * 256 ^ Z.of_nat (length bs).
Proof.
  rewrite (unsigned_from_acc bs (x + d)), (unsigned_from_acc bs x). lia.
Qed.

Lemma unsigned_cons (b : byte) (bs : list byte) :
  unsigned_from 0 (b :: bs)
  = u8 b * 256 ^ Z.of_nat (length bs) + unsigned_from 0 bs.
Proof.
  cbn [unsigned_from fold_left]. fold (unsigned_from (0 * 256 + u8 b) bs).
  rewrite unsigned_from_acc. lia.
Qed.

Lemma int_value_cons (b : byte) (bs : list byte) :
  int_value (b :: bs)
  = if 128 <=? u8 b
    then unsigned_from 0 (b :: bs) - 256 ^ Z.of_nat (length (b :: bs))
    else unsigned_from 0 (b :: bs).
Proof. reflexivity. Qed.

(** Complementing every byte mirrors the value in its range. *)
Lemma complement_sum (bs : list byte) : forall a a',
  unsigned_from a' (map complement bs) + unsigned_from a bs
  = (a + a' + 1) * 256 ^ Z.of_nat (length bs) - 1.
Proof.
  induction bs as [|b bs IH]; intros a a'.
  - simpl. lia.
  - cbn [map unsigned_from fold_left length].
    fold (unsigned_from (a' * 256 + u8 (complement b)) (map complement bs)).
    fold (unsigned_from (a * 256 + u8 b) bs).
    rewrite IH, complement_u8, Nat2Z.inj_succ, Z.pow_succ_r by lia. lia.
Qed.

Lemma bigint_of_value (bs : list byte) : bs <> [] -> bigint_of bs = int_value bs.
Proof.
  destruct bs as [|b bs]; [congruence|]. intros _.
  unfold bigint_of. rewrite int_value_cons. cbn [nth].
  rewrite high_bit_set, !SetBytes_unsigned.
  destruct (128 <=? u8 b); [|reflexivity].
  pose proof (complement_sum (b :: bs) 0 0). lia.
Qed.

Lemma checkASN1Integer_nonempty (bs : list byte) :
  checkASN1Integer bs = true -> bs <> [].
Proof. destruct bs; [discriminate|congruence]. Qed.

(** The int64 accumulation of asn1Signed is the big-endian value reduced to
    64 bits. *)
Lemma asn1Signed_fold (bs : list byte) : forall acc,
  - 2 ^ 63 <= acc < 2 ^ 63 ->
  let out :=
    fold_left (fun out b => Z.lor (wrap_i64 (Z.shiftl out 8)) (u8 b)) bs acc in
  - 2 ^ 63 <= out < 2 ^ 63 /\ exists k, out = unsigned_from acc bs + k * 2 ^ 64.
Proof.
  induction bs as [|b bs IH]; intros acc Hacc; cbn zeta.
  - split; [assumption|]. exists 0. simpl. lia.
  - cbn [fold_left unsigned_from].
    fold (unsigned_from (acc * 256 + u8 b) bs).
    pose proof (u8_range b) as Hb.
    rewrite Z.shiftl_mul_pow2 by lia. change (2 ^ 8) with 256.
    destruct (wrap_i64_eqm (acc * 256)) as [k Hk].
    pose proof (wrap_i64_range (acc * 256)) as Hr.
    assert (Hstep : Z.lor (wrap_i64 (acc * 256)) (u8 b)
                    = acc * 256 + u8 b + k * 2 ^ 64).
    { rewrite Hk.
      replace (acc * 256 + k * 2 ^ 64) with (256 * (acc + k * 2 ^ 56)) by lia.
      rewrite lor_low_byte by lia. lia. }
    rewrite Hstep.
    destruct (IH (acc * 256 + u8 b + k * 2 ^ 64)) as [Hrange [k' Hk']]; [lia|].
    split; [exact Hrange|].
    exists (k' + k * 256 ^ Z.of_nat (length bs)).
    rewrite Hk', unsigned_from_shift. lia.
Qed.

Lemma asn1Signed_long (bs : list byte) :
  (8 < length bs)%nat -> asn1Signed bs = None.
Proof.
  intros H. unfold asn1Signed.
  replace (8 <? _) with true by (symmetry; apply Z.ltb_lt; lia). reflexivity.
Qed.

Lemma wrap_i64_congr (x j : Z) : wrap_i64 (x + j * 2 ^ 64) = wrap_i64 x.
Proof.
  unfold wrap_i64.
  replace (x + j * 2 ^ 64 + 2 ^ 63) with (x + 2 ^ 63 + j * 2 ^ 64) by lia.
  rewrite Z.mod_add by lia. reflexivity.
Qed.

Lemma wrap_i64_high (z : Z) : 2 ^ 63 <= z < 2 ^ 64 -> wrap_i64 z = z - 2 ^ 64.
Proof.
  intros H. unfold wrap_i64.
  rewrite <- (Z.mod_unique (z + 2 ^ 63) (2 ^ 64) 1 (z - 2 ^ 63)); lia.
Qed.

(** Shifting an [m]-octet value to the top of the word and back extends its
    sign. *)
Lemma sign_extend (V k m : Z) :
  1 <= m <= 8 -> 0 <= V < 256 ^ m ->
  Z.shiftr (wrap_i64 (Z.shiftl (V + k * 2 ^ 64) (64 - 8 * m))) (64 - 8 * m)
  = if 2 * V <? 256 ^ m then V else V - 256 ^ m.
Proof.
  intros Hm HV.
  rewrite Z.shiftr_div_pow2, Z.shiftl_mul_pow2 by lia.
  set (P := 2 ^ (64 - 8 * m)).
  assert (HP : 0 < P) by (apply Z.pow_pos_nonneg; lia).
  assert (Hfull : P * 256 ^ m = 2 ^ 64).
  { unfold P. change 256 with (2 ^ 8).
    rewrite <- Z.pow_mul_r, <- Z.pow_add_r by lia. f_equal. lia. }
  replace ((V + k * 2 ^ 64) * P) with (V * P + (k * P) * 2 ^ 64) by lia.
  rewrite wrap_i64_congr.
  destruct (Z.ltb_spec (2 * V) (256 ^ m)).
  - rewrite wrap_i64_small by nia. apply Z.div_mul. lia.
  - rewrite wrap_i64_high by nia.
    replace (V * P - 2 ^ 64) with ((V - 256 ^ m) * P) by lia.
    apply Z.div_mul. lia.
Qed.

Lemma asn1Signed_value (bs : list byte) :
  (1 <= length bs <= 8)%nat -> asn1Signed bs = Some (int_value bs).
Proof.
  intros Hlen. unfold asn1Signed.
  replace (8 <? _) with false by (symmetry; apply Z.ltb_ge; lia).
  f_equal.
  destruct (asn1Signed_fold bs 0) as [_ [k Hk]]; [lia|].
  cbn zeta in Hk. rewrite Hk.
  replace ((64 - (Z.of_nat (length bs) mod 256 * 8) mod 256) mod 256)
    with (64 - 8 * Z.of_nat (length bs)).
  2:{ rewrite (Z.mod_small (Z.of_nat (length bs))) by lia.
      rewrite (Z.mod_small (_ * 8)) by lia.
      rewrite Z.mod_small by lia. lia. }
  pose proof (unsigned_from_range bs) as HU.
  rewrite sign_extend by lia.
  destruct bs as [|b bs]; [simpl in Hlen; lia|].
  rewrite int_value_cons, unsigned_cons.
  pose proof (unsigned_from_range bs) as HU'. pose proof (u8_range b) as Hb.
  cbn [length]. rewrite Nat2Z.inj_succ, Z.pow_succ_r by lia.
  assert (0 < 256 ^ Z.of_nat (length bs)) by (apply Z.pow_pos_nonneg; lia).
  set (top := 256 ^ Z.of_nat (length bs)) in *.
  destruct (Z.leb_spec 128 (u8 b)),
    (Z.ltb_spec (2 * (u8 b * top + unsigned_from 0 bs)) (256 * top));
    try reflexivity; nia.
Qed.

Lemma OverflowInt32_spec (x : Z) :
  OverflowInt32 x = negb ((- 2 ^ 31 <=? x) && (x <? 2 ^ 31)).
Proof.
  unfold OverflowInt32.
  rewrite Z.shiftr_div_pow2, Z.shiftl_mul_pow2 by lia.
  f_equal.
  destruct (Z.leb_spec (- 2 ^ 31) x), (Z.ltb_spec x (2 ^ 31)); cbn [andb].
  1:{ rewrite wrap_i64_small by lia. rewrite Z.div_mul by lia.
      apply Z.eqb_refl. }
  all: apply Z.eqb_neq; intros Heq;
    pose proof (wrap_i64_range (x * 2 ^ 32)) as Hr;
    set (w := wrap_i64 (x * 2 ^ 32)) in *; clearbody w;
    assert (- 2 ^ 31 <= w / 2 ^ 32 < 2 ^ 31)
      by (split; [apply Z.div_le_lower_bound | apply Z.div_lt_upper_bound]; lia);
    lia.
Qed.

Lemma int_value_range (bs : list byte) :
  - 256 ^ Z.of_nat (length bs) <= 2 * int_value bs < 256 ^ Z.of_nat (length bs).
Proof.
  destruct bs as [|b bs]; [simpl; lia|].
  rewrite int_value_cons, unsigned_cons.
  pose proof (unsigned_from_range bs). pose proof (u8_range b).
  cbn [length]. rewrite Nat2Z.inj_succ, Z.pow_succ_r by lia.
  destruct (Z.leb_spec 128 (u8 b)); nia.
Qed.

(** A minimal encoding is no longer than its value needs: beyond one octet
    the value is outside the range of the next shorter length. *)
Lemma minimal_magnitude (b0 b1 : byte) (bs : list byte) :
  checkASN1Integer (b0 :: b1 :: bs) = true ->
  let v := int_value (b0 :: b1 :: bs) in
  128 * 256 ^ Z.of_nat (length bs) <= v \/ v < - 128 * 256 ^ Z.of_nat (length bs).
Proof.
  intros Hmin. cbn zeta. rewrite int_value_cons, !unsigned_cons.
  pose proof (unsigned_from_range bs). pose proof (u8_range b0).
  pose proof (u8_range b1).
  cbn [length]. rewrite !Nat2Z.inj_succ, !Z.pow_succ_r by lia.
  cbn [checkASN1Integer] in Hmin. rewrite high_bit_clear, high_bit_set in Hmin.
  assert (0 < 256 ^ Z.of_nat (length bs)) by (apply Z.pow_pos_nonneg; lia).
  destruct (Z.eqb_spec (u8 b0) 0), (Z.eqb_spec (u8 b0) 255),
    (Z.ltb_spec (u8 b1) 128), (Z.leb_spec 128 (u8 b1)),
    (Z.leb_spec 128 (u8 b0)); cbn in Hmin; try discriminate; try lia; nia.
Qed.

Lemma minimal_int32_length (bs : list byte) :
  checkASN1Integer bs = true -> fits_int32 (int_value bs) ->
  (1 <= length bs <= 4)%nat.
Proof.
  intros Hmin [Hlo Hhi].
  destruct bs as [|b0 [|b1 bs]]; [discriminate|simpl; lia|].
  pose proof (minimal_magnitude _ _ _ Hmin) as Hmag. cbn zeta in Hmag.
  cbn [length].
  destruct (Nat.le_gt_cases (length bs) 2) as [|Hbig]; [lia|].
  assert (256 ^ 3 <= 256 ^ Z.of_nat (length bs))
    by (apply Z.pow_le_mono_r; lia).
  lia.
Qed.

(** ReadASN1Integer into an int32 keeps exactly the minimal encodings of
    values in range. *)
Lemma int32_of_content (bs : list byte) :
  checkASN1Integer bs = true ->
  match asn1Signed bs with
  | Some i => if OverflowInt32 i then None else Some i
  | None => None
  end
  = if (- 2 ^ 31 <=? int_value bs) && (int_value bs <? 2 ^ 31)
    then Some (int_value bs) else None.
Proof.
  intros Hmin.
  destruct (Nat.le_gt_cases (length bs) 8) as [Hle|Hgt].
  - rewrite asn1Signed_value.
    2:{ apply checkASN1Integer_nonempty in Hmin. destruct bs; [congruence|].
        simpl in *. lia. }
    rewrite OverflowInt32_spec.
    destruct (_ && _); reflexivity.
  - rewrite asn1Signed_long by lia.
    destruct (Z.leb_spec (- 2 ^ 31) (int_value bs)),
      (Z.ltb_spec (int_value bs) (2 ^ 31)); cbn [andb]; try reflexivity.
    assert (fits_int32 (int_value bs)) by (unfold fits_int32; lia).
    pose proof (minimal_int32_length bs Hmin ltac:(assumption)). lia.
Qed.

(** ** What a successful read looks like *)

Lemma read_inv (n : Z) (s v s' : String) :
  read n s = Some (v, s') ->
  0 <= n <= len s
  /\ v = mkString (base s) (firstn (Z.to_nat n) (bytes s))
  /\ s' = mkString (base s + Z.to_nat n) (skipn (Z.to_nat n) (bytes s)).
Proof.
  unfold read. destruct (Z.ltb_spec (len s) n), (Z.ltb_spec n 0);
    cbn [orb]; intros Heq; inversion Heq; subst. repeat split; lia.
Qed.

Lemma read_ok (n : nat) (s : String) :
  (n <= length (bytes s))%nat ->
  read (Z.of_nat n) s
  = Some (mkString (base s) (firstn n (bytes s)),
          mkString (base s + n) (skipn n (bytes s))).
Proof.
  intros H. unfold read, len.
  replace (_ || _) with false
    by (symmetry; apply orb_false_iff; split; apply Z.ltb_ge; lia).
  rewrite Nat2Z.id. reflexivity.
Qed.

Lemma readUnsigned_fold_range (bs : list byte) : forall acc,
  0 <= acc < 2 ^ 32 ->
  0 <= fold_left (fun result b => Z.lor (wrap_u32 (Z.shiftl result 8)) (u8 b))
         bs acc < 2 ^ 32.
Proof.
  induction bs as [|b bs IH]; intros acc Hacc; [exact Hacc|].
  cbn [fold_left]. apply IH.
  rewrite Z.shiftl_mul_pow2 by lia. unfold wrap_u32.
  replace ((acc * 2 ^ 8) mod 2 ^ 32) with (256 * (acc mod 2 ^ 24)).
  2:{ change (2 ^ 32) with (2 ^ 24 * 2 ^ 8).
      rewrite Z.mul_mod_distr_r by lia. change (2 ^ 8) with 256. lia. }
  pose proof (Z.mod_pos_bound acc (2 ^ 24) ltac:(lia)). pose proof (u8_range b).
  rewrite lor_low_byte by lia. lia.
Qed.

(** A header that parses: at least two octets, at most six, and a total
    length that covers it and fits a uint32. *)
Lemma readASN1_header_inv (s : String) (L h : Z) :
  readASN1_header s = Some (L, h) ->
  2 <= h <= 6 /\ h <= L < 2 ^ 32 /\ (2 < h -> h <= len s).
Proof.
  unfold readASN1_header.
  pose proof (u8_range (index s 1)) as Hb.
  rewrite high_bit_clear, low7.
  destruct (Z.ltb_spec (u8 (index s 1)) 128).
  - intros Heq.
    assert (HLh : L = wrap_u32 (u8 (index s 1) + 2) /\ h = 2)
      by (split; congruence).
    destruct HLh as [-> ->]. rewrite wrap_u32_small by lia. lia.
  - assert (0 <= u8 (index s 1) mod 128 < 128) by (apply Z.mod_pos_bound; lia).
    set (lenLen := u8 (index s 1) mod 128) in *. clearbody lenLen.
    destruct (Z.eqb_spec lenLen 0), (Z.ltb_spec 4 lenLen),
      (Z.ltb_spec (len s) (2 + lenLen)); cbn [orb]; try discriminate.
    unfold readUnsigned.
    destruct (read lenLen _) as [[v s']|]; [|discriminate].
    pose proof (readUnsigned_fold_range (bytes v) 0 ltac:(lia)) as Hr.
    set (len32 := fold_left _ _ _) in *. clearbody len32.
    destruct (Z.ltb_spec len32 128); [discriminate|].
    destruct (_ =? 0); [discriminate|].
    rewrite (wrap_u32_small (2 + lenLen)) by lia.
    destruct (Z.ltb_spec (wrap_u32 (2 + lenLen + len32)) len32); [discriminate|].
    intros Heq.
    assert (HLh : L = wrap_u32 (2 + lenLen + len32) /\ h = 2 + lenLen)
      by (split; congruence).
    destruct HLh as [-> ->]. clear Heq.
    unfold wrap_u32 in *.
    destruct (Z.ltb_spec (2 + lenLen + len32) (2 ^ 32)).
    + rewrite Z.mod_small by lia. lia.
    + exfalso.
      assert ((2 + lenLen + len32) mod 2 ^ 32 = 2 + lenLen + len32 - 2 ^ 32)
        by (symmetry; apply Z.mod_unique with 1; lia).
      lia.
Qed.

(** The branch where the library panics is never taken: the header can
    always be skipped from the element just read. *)
Lemma readASN1_header_fits (s out s' : String) (L h : Z) :
  readASN1_header s = Some (L, h) ->
  ReadBytes (int_of_u32 L) s = Some (out, s') ->
  Skip (int_of_u32 h) out <> None.
Proof.
  intros Hh Hread.
  destruct (readASN1_header_inv _ _ _ Hh) as (Hh1 & Hh2 & _).
  rewrite !int_of_u32_small in * by lia.
  unfold ReadBytes in Hread. apply read_inv in Hread.
  destruct Hread as (HL & -> & _).
  unfold Skip, read, len. cbn [bytes base]. rewrite length_firstn.
  unfold len in HL.
  replace (_ || _) with false; [discriminate|].
  symmetry. apply orb_false_iff. split; apply Z.ltb_ge; lia.
Qed.

Lemma readASN1_inv (skipHeader : bool) (s out s' : String) (t : Tag) :
  readASN1 skipHeader s = Some (out, t, s') ->
  exists L h : nat,
    readASN1_header s = Some (Z.of_nat L, Z.of_nat h)
    /\ (2 <= h <= L)%nat /\ (L <= length (bytes s))%nat
    /\ t = index s 0
    /\ Z.land (u8 t) 0x1f <> 0x1f
    /\ s' = mkString (base s + L) (skipn L (bytes s))
    /\ out = if skipHeader
             then mkString (base s + h) (skipn h (firstn L (bytes s)))
             else mkString (base s) (firstn L (bytes s)).
Proof.
  intros Hread. unfold readASN1 in Hread.
  destruct (Z.ltb_spec (len s) 2); [discriminate|].
  destruct (Z.eqb_spec (Z.land (u8 (index s 0)) 31) 31); [discriminate|].
  destruct (readASN1_header s) as [[L h]|] eqn:Hh; [|discriminate].
  destruct (readASN1_header_inv _ _ _ Hh) as (Hh1 & Hh2 & _).
  rewrite !int_of_u32_small in Hread by lia.
  assert (HL : L = Z.of_nat (Z.to_nat L)) by lia.
  assert (Hh' : h = Z.of_nat (Z.to_nat h)) by lia.
  set (Ln := Z.to_nat L) in *. set (hn := Z.to_nat h) in *.
  clearbody Ln hn. subst L h.
  destruct (Z.ltb_spec (Z.of_nat Ln) 0); [lia|].
  unfold ReadBytes in Hread.
  destruct (read (Z.of_nat Ln) s) as [[o r]|] eqn:Hr; [|discriminate].
  apply read_inv in Hr. destruct Hr as (HL & -> & ->).
  unfold len in HL. rewrite Nat2Z.id in Hread.
  exists Ln, hn.
  destruct skipHeader.
  - unfold Skip in Hread.
    rewrite read_ok in Hread by (cbn [bytes]; rewrite length_firstn; lia).
    cbn [base bytes] in Hread. inversion Hread; subst.
    repeat split; try reflexivity; try lia; assumption.
  - inversion Hread; subst.
    repeat split; try reflexivity; try lia; assumption.
Qed.

Lemma readASN1_intro (skipHeader : bool) (s : String) (L h : nat) :
  readASN1_header s = Some (Z.of_nat L, Z.of_nat h) ->
  (2 <= length (bytes s))%nat -> (L <= length (bytes s))%nat ->
  Z.land (u8 (index s 0)) 0x1f <> 0x1f ->
  readASN1 skipHeader s
  = Some (if skipHeader
          then mkString (base s + h) (skipn h (firstn L (bytes s)))
          else mkString (base s) (firstn L (bytes s)),
          index s 0,
          mkString (base s + L) (skipn L (bytes s))).
Proof.
  intros Hh H2 HL Htag. unfold readASN1.
  destruct (readASN1_header_inv _ _ _ Hh) as (Hh1 & Hh2 & _).
  replace (len s <? 2) with false by (symmetry; apply Z.ltb_ge; unfold len; lia).
  replace (_ =? 31) with false by (symmetry; apply Z.eqb_neq; exact Htag).
  rewrite Hh, !int_of_u32_small by lia.
  replace (_ <? 0) with false by (symmetry; apply Z.ltb_ge; lia).
  unfold ReadBytes. rewrite read_ok by lia.
  destruct skipHeader; [|reflexivity].
  unfold Skip. rewrite read_ok by (cbn [bytes]; rewrite length_firstn; lia).
  reflexivity.
Qed.

(** The header depends on the octets it covers only. *)
Lemma readASN1_header_base (b b' : nat) (l : list byte) :
  readASN1_header (mkString b l) = readASN1_header (mkString b' l).
Proof.
  unfold readASN1_header, readUnsigned, read, index, len. cbn [bytes base].
  destruct (_ =? 0); [reflexivity|].
  destruct (_ || _); [reflexivity|].
  destruct (_ || _); reflexivity.
Qed.

Lemma readASN1_header_app (b b' : nat) (l x : list byte) (L h : Z) :
  (2 <= length l)%nat ->
  readASN1_header (mkString b l) = Some (L, h) ->
  readASN1_header (mkString b' (l ++ x)) = Some (L, h).
Proof.
  intros H2 Hh. rewrite (readASN1_header_base b' b).
  pose proof (readASN1_header_inv _ _ _ Hh) as (Hh1 & Hh2 & Hh3).
  revert Hh Hh3. unfold readASN1_header, index, len. cbn [bytes base].
  rewrite app_nth1 by lia.
  rewrite high_bit_clear, low7.
  destruct (Z.ltb_spec (u8 (nth 1 l x00)) 128); [tauto|].
  pose proof (u8_range (nth 1 l x00)).
  assert (0 <= u8 (nth 1 l x00) mod 128 < 128) by (apply Z.mod_pos_bound; lia).
  set (lenLen := u8 (nth 1 l x00) mod 128) in *. clearbody lenLen.
  rewrite length_app.
  destruct (Z.eqb_spec lenLen 0), (Z.ltb_spec 4 lenLen),
    (Z.ltb_spec (Z.of_nat (length l)) (2 + lenLen)); cbn [orb]; try discriminate.
  replace (Z.of_nat (length l + length x) <? 2 + lenLen) with false
    by (symmetry; apply Z.ltb_ge; lia).
  rewrite skipn_app, firstn_app.
  replace (Z.to_nat lenLen - length (skipn 2 l))%nat with 0%nat
    by (rewrite length_skipn; lia).
  cbn [firstn]. rewrite app_nil_r.
  intros Hh _. exact Hh.
Qed.

(** More input after an element does not change how it is read. *)
Lemma readASN1_app (skipHeader : bool) (b : nat) (l x : list byte)
  (out s' : String) (t : Tag) :
  readASN1 skipHeader (mkString b l) = Some (out, t, s') ->
  readASN1 skipHeader (mkString b (l ++ x))
  = Some (out, t, mkString (base s') (bytes s' ++ x)).
Proof.
  intros H. apply readASN1_inv in H.
  destruct H as (L & h & Hh & Hb1 & Hb2 & -> & Htag & -> & ->).
  cbn [bytes base] in *.
  rewrite (readASN1_intro skipHeader _ L h); cbn [bytes base].
  - unfold index. cbn [bytes]. rewrite app_nth1 by lia.
    rewrite firstn_app, (skipn_app L).
    replace (L - length l)%nat with 0%nat by lia.
    cbn [firstn skipn]. rewrite app_nil_r. reflexivity.
  - apply readASN1_header_app with (b := b); [lia|assumption].
  - rewrite length_app. lia.
  - rewrite length_app. lia.
  - unfold index in *. cbn [bytes] in *. rewrite app_nth1 by lia. assumption.
Qed.

(** Every successful read moves the cursor forward. *)
Lemma readASN1_progress (skipHeader : bool) (s out s' : String) (t : Tag) :
  readASN1 skipHeader s = Some (out, t, s') ->
  (length (bytes s') < length (bytes s))%nat.
Proof.
  intros H. apply readASN1_inv in H.
  destruct H as (L & h & _ & Hb1 & Hb2 & _ & _ & -> & _).
  cbn [bytes]. rewrite length_skipn. lia.
Qed.

(** ** The typed reads on written elements *)

Lemma byte_eqb_refl (t : byte) : Byte.eqb t t = true.
Proof. apply Byte.byte_dec_lb. reflexivity. Qed.

Lemma byte_eqb_neq (t t' : byte) : t <> t' -> Byte.eqb t t' = false.
Proof.
  intros H. destruct (Byte.eqb t t') eqn:E; [|reflexivity].
  apply Byte.byte_dec_bl in E. contradiction.
Qed.

Section WrittenElement.

Variables (b : nat) (tag : byte) (c rest : list byte).
Hypothesis Htag : low_tag tag.
Hypothesis Hsmall : small (tlv tag c).

Lemma ReadASN1_tlv :
  ReadASN1 tag (mkString b (tlv tag c ++ rest))
  = Some (mkString (b + header_len (Z.of_nat (length c))) c,
          mkString (b + length (tlv tag c)) rest).
Proof.
  unfold ReadASN1, ReadAnyASN1. rewrite readASN1_tlv by assumption.
  rewrite byte_eqb_refl. reflexivity.
Qed.

Lemma ReadASN1_other (tag' : byte) :
  tag <> tag' -> ReadASN1 tag' (mkString b (tlv tag c ++ rest)) = None.
Proof.
  intros Hne. unfold ReadASN1, ReadAnyASN1. rewrite readASN1_tlv by assumption.
  rewrite byte_eqb_neq by assumption. reflexivity.
Qed.

Lemma ReadASN1Element_tlv :
  ReadASN1Element tag (mkString b (tlv tag c ++ rest))
  = Some (mkString b (tlv tag c), mkString (b + length (tlv tag c)) rest).
Proof.
  unfold ReadASN1Element, ReadAnyASN1Element.
  rewrite readASN1_tlv by assumption.
  rewrite byte_eqb_refl. reflexivity.
Qed.

Lemma ReadAnyASN1Element_tlv :
  ReadAnyASN1Element (mkString b (tlv tag c ++ rest))
  = Some (mkString b (tlv tag c), tag, mkString (b + length (tlv tag c)) rest).
Proof. unfold ReadAnyASN1Element. apply readASN1_tlv; assumption. Qed.

Lemma SkipASN1_tlv :
  SkipASN1 tag (mkString b (tlv tag c ++ rest))
  = Some (mkString (b + length (tlv tag c)) rest).
Proof. unfold SkipASN1. rewrite ReadASN1_tlv. reflexivity. Qed.

Lemma PeekASN1Tag_tlv (tag' : byte) :
  PeekASN1Tag tag' (mkString b (tlv tag c ++ rest)) = Byte.eqb tag tag'.
Proof. reflexivity. Qed.

Lemma ReadOptionalASN1_present :
  ReadOptionalASN1 tag (mkString b (tlv tag c ++ rest))
  = Some (mkString (b + header_len (Z.of_nat (length c))) c, true,
          mkString (b + length (tlv tag c)) rest).
Proof.
  unfold ReadOptionalASN1. rewrite PeekASN1Tag_tlv, byte_eqb_refl, ReadASN1_tlv.
  reflexivity.
Qed.

Lemma SkipOptionalASN1_present :
  SkipOptionalASN1 tag (mkString b (tlv tag c ++ rest))
  = Some (mkString (b + length (tlv tag c)) rest).
Proof.
  unfold SkipOptionalASN1. rewrite PeekASN1Tag_tlv, byte_eqb_refl, ReadASN1_tlv.
  reflexivity.
Qed.

Lemma SkipOptionalASN1_absent (tag' : byte) :
  tag <> tag' ->
  SkipOptionalASN1 tag' (mkString b (tlv tag c ++ rest))
  = Some (mkString b (tlv tag c ++ rest)).
Proof.
  intros Hne. unfold SkipOptionalASN1.
  rewrite PeekASN1Tag_tlv, byte_eqb_neq by assumption. reflexivity.
Qed.

End WrittenElement.

Lemma ReadASN1_tlv_only (b : nat) (tag : byte) (c : list byte) :
  low_tag tag -> small (tlv tag c) ->
  ReadASN1 tag (mkString b (tlv tag c))
  = Some (mkString (b + header_len (Z.of_nat (length c))) c,
          mkString (b + length (tlv tag c)) []).
Proof.
  intros Ht Hs. pose proof (ReadASN1_tlv b tag c [] Ht Hs) as H.
  rewrite app_nil_r in H. exact H.
Qed.

Lemma ReadOptionalASN1_end (b : nat) (tag : byte) :
  ReadOptionalASN1 tag (mkString b []) = Some (nil_String, false, mkString b []).
Proof. reflexivity. Qed.

Lemma low_tag_universal :
  low_tag asn1.BOOLEAN /\ low_tag asn1.INTEGER /\ low_tag asn1.OCTET_STRING
  /\ low_tag asn1.OBJECT_IDENTIFIER /\ low_tag asn1.UTCTime
  /\ low_tag asn1.SEQUENCE /\ low_tag asn1.SET
  /\ low_tag asn1.ContextSpecificConstructed0.
Proof. unfold low_tag. repeat split; vm_compute; discriminate. Qed.

Lemma low_BOOLEAN : low_tag asn1.BOOLEAN. Proof. apply low_tag_universal. Qed.
Lemma low_INTEGER : low_tag asn1.INTEGER. Proof. apply low_tag_universal. Qed.
Lemma low_OCTET_STRING : low_tag asn1.OCTET_STRING. Proof. apply low_tag_universal. Qed.
Lemma low_OBJECT_IDENTIFIER : low_tag asn1.OBJECT_IDENTIFIER. Proof. apply low_tag_universal. Qed.
Lemma low_UTCTime : low_tag asn1.UTCTime. Proof. apply low_tag_universal. Qed.
Lemma low_SEQUENCE : low_tag asn1.SEQUENCE. Proof. apply low_tag_universal. Qed.
Lemma low_SET : low_tag asn1.SET. Proof. apply low_tag_universal. Qed.
Lemma low_Context0 : low_tag asn1.ContextSpecificConstructed0. Proof. apply low_tag_universal. Qed.

Create HintDb der discriminated.
#[export] Hint Resolve low_BOOLEAN low_INTEGER low_OCTET_STRING
  low_OBJECT_IDENTIFIER low_UTCTime low_SEQUENCE low_SET low_Context0 : der.

Section WrittenValues.

Variables (b : nat) (c rest : list byte).

Lemma readASN1BigInt_tlv :
  small (tlv asn1.INTEGER c) ->
  readASN1BigInt (mkString b (tlv asn1.INTEGER c ++ rest))
  = if checkASN1Integer c
    then Some (int_value c, mkString (b + length (tlv asn1.INTEGER c)) rest)
    else None.
Proof.
  intros Hs. unfold readASN1BigInt. rewrite ReadASN1_tlv by auto with der.
  cbn [bytes]. destruct (checkASN1Integer c) eqn:Hmin; [|reflexivity].
  cbn [negb]. pose proof (bigint_of_value c (checkASN1Integer_nonempty _ Hmin)) as Hv.
  unfold bigint_of in Hv. unfold index. cbn [bytes].
  destruct (_ =? 128); rewrite Hv; reflexivity.
Qed.

Lemma ReadASN1Integer_int32_tlv :
  small (tlv asn1.INTEGER c) ->
  ReadASN1Integer_int32 (mkString b (tlv asn1.INTEGER c ++ rest))
  = if checkASN1Integer c
       && ((- 2 ^ 31 <=? int_value c) && (int_value c <? 2 ^ 31))
    then Some (int_value c, mkString (b + length (tlv asn1.INTEGER c)) rest)
    else None.
Proof.
  intros Hs. unfold ReadASN1Integer_int32, readASN1Int64.
  rewrite ReadASN1_tlv by auto with der. cbn [bytes].
  destruct (checkASN1Integer c) eqn:Hmin; [|reflexivity]. cbn [negb andb].
  pose proof (int32_of_content c Hmin) as Hv.
  destruct (asn1Signed c) as [i|]; [destruct (OverflowInt32 i)|];
    destruct (_ && _); congruence.
Qed.

Lemma ReadASN1ObjectIdentifier_tlv :
  small (tlv asn1.OBJECT_IDENTIFIER c) ->
  ReadASN1ObjectIdentifier (mkString b (tlv asn1.OBJECT_IDENTIFIER c ++ rest))
  = match oid_of_content c with
    | Some id =>
        Some (id, mkString (b + length (tlv asn1.OBJECT_IDENTIFIER c)) rest)
    | None => None
    end.
Proof.
  intros Hs. unfold ReadASN1ObjectIdentifier.
  rewrite ReadASN1_tlv by auto with der. reflexivity.
Qed.

Lemma ReadASN1UTCTime_tlv (Time : Type) (utc : list byte -> option Time) :
  small (tlv asn1.UTCTime c) ->
  ReadASN1UTCTime Time utc (mkString b (tlv asn1.UTCTime c ++ rest))
  = match utc c with
    | Some t => Some (t, mkString (b + length (tlv asn1.UTCTime c)) rest)
    | None => None
    end.
Proof.
  intros Hs. unfold ReadASN1UTCTime.
  rewrite ReadASN1_tlv by auto with der. reflexivity.
Qed.

End WrittenValues.

(** ** What the reader refuses *)

(** A long-form length below 128, a long-form length with a leading zero
    octet, the indefinite form, a length of five octets, a tag number of 31
    and a length beyond the buffer. *)
Example refused_headers :
  map (fun bs => readASN1 true (mkString 0 bs))
    [ [x30; x81; x05; x00; x00; x00; x00; x00];
      [x30; x82; x00; x80] ++ repeat x00 128;
      [x30; x80; x00; x00];
      [x30; x85; x00; x00; x00; x00; x01; x00];
      [x1f; x01; x00];
      [x30; x03; x00; x00] ]
  = [None; None; None; None; None; None].
Proof. vm_compute. reflexivity. Qed.

(** The long form where it is due: 200 content octets. *)
Example accepted_long_form :
  readASN1 true (mkString 0 ([x04; x81; xc8] ++ repeat x00 200 ++ [xff]))
  = Some (mkString 3 (repeat x00 200), x04, mkString 203 [xff]).
Proof. vm_compute. reflexivity. Qed.

(** INTEGERs: empty, padded with a zero octet, padded with an 0xff octet;
    then -129 in two octets, read as a big integer and as an int32. *)
Example integers_read :
  map (fun c => readASN1BigInt (mkString 0 (tlv asn1.INTEGER c)))
    [ []; [x00; x7f]; [xff; x80] ]
  = [None; None; None]
  /\ readASN1BigInt (mkString 0 (tlv asn1.INTEGER [xff; x7f]))
     = Some (-129, mkString 4 [])
  /\ ReadASN1Integer_int32 (mkString 0 (tlv asn1.INTEGER [xff; x7f]))
     = Some (-129, mkString 4 [])
  /\ ReadASN1Integer_int32
       (mkString 0 (tlv asn1.INTEGER [x00; x80; x00; x00; x00]))
     = None
  /\ ReadASN1Integer_int32
       (mkString 0 (tlv asn1.INTEGER [x80; x00; x00; x00]))
     = Some (- 2 ^ 31, mkString 6 []).
Proof. vm_compute. repeat split; reflexivity. Qed.

(** ** Truncation *)

Lemma length_octets_long (n : Z) :
  128 <= n ->
  exists k : nat, (1 <= k <= 4)%nat
    /\ length_octets n = byte_of_Z (128 + Z.of_nat k) :: be_digits k n.
Proof.
  intros Hn. unfold length_octets.
  destruct (Z.ltb_spec n 128); [lia|].
  destruct (n <? 2 ^ 8); [exists 1%nat; split; [lia|reflexivity]|].
  destruct (n <? 2 ^ 16); [exists 2%nat; split; [lia|reflexivity]|].
  destruct (n <? 2 ^ 24); [exists 3%nat; split; [lia|reflexivity]|].
  exists 4%nat; split; [lia|reflexivity].
Qed.

(** Cut anywhere before its end, a written element is not read. *)
Lemma readASN1_truncated (skipHeader : bool) (b : nat) (tag : byte)
  (c : list byte) (k : nat) :
  small (tlv tag c) -> (k < length (tlv tag c))%nat ->
  readASN1 skipHeader (mkString b (firstn k (tlv tag c))) = None.
Proof.
  intros Hsmall Hk. pose proof (small_content _ _ Hsmall) as Hc.
  set (n := Z.of_nat (length c)) in *.
  unfold readASN1.
  destruct (Z.ltb_spec (len (mkString b (firstn k (tlv tag c)))) 2) as [|H2];
    [reflexivity|].
  unfold len in H2. cbn [bytes] in H2. rewrite length_firstn in H2.
  destruct (_ =? 31); [reflexivity|].
  rewrite length_tlv in Hk. fold n in Hk.
  destruct (Nat.le_gt_cases (header_len n) k) as [Hhdr|Hhdr].
  - (* the header is whole: the declared length exceeds what is left *)
    assert (Heq : firstn k (tlv tag c)
                  = tag :: length_octets n ++ firstn (k - header_len n) c).
    { unfold tlv. fold n. destruct k as [|k]; [lia|].
      cbn [firstn]. f_equal.
      rewrite firstn_app, firstn_all2 by (unfold header_len in Hhdr; lia).
      reflexivity. }
    rewrite Heq, readASN1_header_octets by lia.
    rewrite !int_of_u32_small by (pose proof (header_len_range n); lia).
    replace (_ <? 0) with false by (symmetry; apply Z.ltb_ge; lia).
    unfold ReadBytes. rewrite read_short; [reflexivity|].
    unfold len. cbn [bytes length]. rewrite length_app, length_firstn.
    unfold header_len in *. lia.
  - (* the cut falls inside a long-form header *)
    pose proof (header_len_range n) as Hrange.
    destruct (Z.ltb_spec n 128) as [Hshort|Hlong].
    { unfold header_len, length_octets in Hhdr.
      replace (n <? 128) with true in Hhdr by (symmetry; apply Z.ltb_lt; lia).
      cbn [length] in Hhdr. lia. }
    destruct (length_octets_long n Hlong) as (j & Hj & Hoct).
    assert (Hlenj : header_len n = (2 + j)%nat).
    { unfold header_len. rewrite Hoct. cbn [length]. rewrite length_be_digits. lia. }
    assert (Hsk : exists tl, firstn k (tlv tag c) = tag :: byte_of_Z (128 + Z.of_nat j) :: tl
                             /\ length tl = (k - 2)%nat).
    { unfold tlv. fold n. rewrite Hoct.
      destruct k as [|[|k]]; [lia|lia|]. cbn [firstn app].
      eexists; split; [reflexivity|].
      rewrite length_firstn, length_app, length_be_digits. lia. }
    destruct Hsk as (tl & Htl & Hlentl).
    replace (readASN1_header _) with (@None (Z * Z)); [reflexivity|].
    symmetry. unfold readASN1_header, index, len. rewrite Htl. cbn [bytes nth length].
    rewrite high_bit_clear, low7, u8_byte_of_Z_small by lia.
    replace (128 + Z.of_nat j <? 128) with false by (symmetry; apply Z.ltb_ge; lia).
    replace ((128 + Z.of_nat j) mod 128) with (Z.of_nat j)
      by (apply Z.mod_unique with 1; lia).
    replace (Z.of_nat (S (S (length tl))) <? 2 + Z.of_nat j) with true
      by (symmetry; apply Z.ltb_lt; lia).
    rewrite orb_true_r. reflexivity.
Qed.

(** ** Sizes *)

Lemma length_tlv_ge (tag : byte) (c : list byte) :
  (length c + 2 <= length (tlv tag c))%nat.
Proof.
  rewrite length_tlv. pose proof (header_len_range (Z.of_nat (length c))). lia.
Qed.

Ltac note H :=
  let T := type of H in
  lazymatch goal with
  | _ : T |- _ => fail
  | _ => pose proof H
  end.

(** Side conditions of the form [small _] or on lengths: every written
    element is at least as long as its content. *)
Ltac sizes :=
  unfold small, elements in *; cbn [map concat] in *;
  repeat match goal with
         | |- context [tlv ?t ?c] => note (length_tlv_ge t c)
         | H : context [tlv ?t ?c] |- _ => note (length_tlv_ge t c)
         end;
  repeat rewrite length_app in *;
  cbn [length] in *; lia.

(** ** Minimal INTEGERs *)

Lemma checkASN1Integer_minimal (bs : list byte) :
  minimal_integer bs -> checkASN1Integer bs = true.
Proof.
  destruct bs as [|b0 [|b1 bs]]; cbn [minimal_integer checkASN1Integer];
    [tauto|reflexivity|].
  rewrite high_bit_clear, high_bit_set. intros [H0 H255].
  destruct (Z.eqb_spec (u8 b0) 0), (Z.eqb_spec (u8 b0) 255),
    (Z.ltb_spec (u8 b1) 128), (Z.leb_spec 128 (u8 b1)); cbn; try reflexivity;
    exfalso; lia.
Qed.

Lemma minimal_checkASN1Integer (bs : list byte) :
  checkASN1Integer bs = true -> minimal_integer bs.
Proof.
  destruct bs as [|b0 [|b1 bs]]; cbn [minimal_integer checkASN1Integer];
    [discriminate|tauto|].
  rewrite high_bit_clear, high_bit_set.
  destruct (Z.eqb_spec (u8 b0) 0), (Z.eqb_spec (u8 b0) 255),
    (Z.ltb_spec (u8 b1) 128), (Z.leb_spec 128 (u8 b1)); cbn; try discriminate;
    intros _; lia.
Qed.

(** ** The loops never stop for want of turns *)

Lemma ReadASN1_progress (tag : Tag) (s out s' : String) :
  ReadASN1 tag s = Some (out, s') ->
  (length (bytes s') < length (bytes s))%nat.
Proof.
  unfold ReadASN1, ReadAnyASN1.
  destruct (readASN1 true s) as [[[o t] r]|] eqn:E; [|discriminate].
  destruct (Byte.eqb t tag); [|discriminate].
  intros Heq; inversion Heq; subst. eapply readASN1_progress; eassumption.
Qed.

Lemma ReadASN1Element_progress (tag : Tag) (s out s' : String) :
  ReadASN1Element tag s = Some (out, s') ->
  (length (bytes s') < length (bytes s))%nat.
Proof.
  unfold ReadASN1Element, ReadAnyASN1Element.
  destruct (readASN1 false s) as [[[o t] r]|] eqn:E; [|discriminate].
  destruct (Byte.eqb t tag); [|discriminate].
  intros Heq; inversion Heq; subst. eapply readASN1_progress; eassumption.
Qed.

Lemma ReadASN1Integer_int32_progress (s s' : String) (i : Z) :
  ReadASN1Integer_int32 s = Some (i, s') ->
  (length (bytes s') < length (bytes s))%nat.
Proof.
  unfold ReadASN1Integer_int32, readASN1Int64.
  destruct (ReadASN1 asn1.INTEGER s) as [[o r]|] eqn:E; [|discriminate].
  destruct (negb _); [discriminate|].
  destruct (asn1Signed _); [|discriminate].
  destruct (OverflowInt32 _); [discriminate|].
  intros Heq; inversion Heq; subst. eapply ReadASN1_progress; eassumption.
Qed.

Lemma Empty_nil (s : String) : Empty s = true <-> bytes s = [].
Proof.
  unfold Empty, len. rewrite Z.eqb_eq.
  destruct (bytes s); cbn [length]; split; intros; try reflexivity;
    try discriminate; lia.
Qed.

Lemma Empty_short (s : String) : (length (bytes s) <= 0)%nat -> Empty s = true.
Proof. intros H. apply Empty_nil. destruct (bytes s); [reflexivity|simpl in H; lia]. Qed.

Lemma versions_loop_fuel (n : nat) : forall (m : nat) (s : String) (acc : list Z),
  (length (bytes s) <= n)%nat -> (length (bytes s) <= m)%nat ->
  versions_loop n s acc = versions_loop m s acc.
Proof.
  induction n as [|n IH]; intros [|m] s acc Hn Hm; cbn [versions_loop];
    try reflexivity;
    try (rewrite Empty_short by assumption; reflexivity).
  destruct (Empty s); [reflexivity|]. cbn [negb].
  destruct (ReadASN1Integer_int32 s) as [[i s']|] eqn:E; [|reflexivity].
  apply ReadASN1Integer_int32_progress in E. apply IH; lia.
Qed.

Lemma pubkeys_loop_fuel (n : nat) :
  forall (m : nat) (s : String) (acc : list String),
  (length (bytes s) <= n)%nat -> (length (bytes s) <= m)%nat ->
  pubkeys_loop n s acc = pubkeys_loop m s acc.
Proof.
  induction n as [|n IH]; intros [|m] s acc Hn Hm; cbn [pubkeys_loop];
    try reflexivity;
    try (rewrite Empty_short by assumption; reflexivity).
  destruct (Empty s); [reflexivity|]. cbn [negb].
  destruct (ReadASN1Element asn1.SEQUENCE s) as [[k s']|] eqn:E; [|reflexivity].
  apply ReadASN1Element_progress in E. apply IH; lia.
Qed.

Lemma extensions_loop_fuel (n : nat) :
  forall (m : nat) (s : String) (logs : list Z * list String),
  (length (bytes s) <= n)%nat -> (length (bytes s) <= m)%nat ->
  extensions_loop n s logs = extensions_loop m s logs.
Proof.
  induction n as [|n IH]; intros [|m] s logs Hn Hm; cbn [extensions_loop];
    try reflexivity;
    try (rewrite Empty_short by assumption; reflexivity).
  destruct (Empty s); [reflexivity|]. cbn [negb].
  destruct (ReadASN1 asn1.SEQUENCE s) as [[e s']|] eqn:E; [|reflexivity].
  apply ReadASN1_progress in E.
  destruct (ReadASN1ObjectIdentifier e) as [[id e1]|]; [|reflexivity].
  destruct (SkipOptionalASN1 asn1.BOOLEAN e1) as [e2|]; [|reflexivity].
  destruct (ReadASN1 asn1.OCTET_STRING e2) as [[v e3]|]; [|reflexivity].
  destruct (Equal id oidCTLogs).
  - unfold wrap_error. destruct (parseCTLogs v); [|reflexivity]. apply IH; lia.
  - apply IH; lia.
Qed.

Lemma readBase128Int_loop_progress (bs : list byte) :
  forall (i ret v : Z) (rest : list byte),
  readBase128Int_loop i ret bs = Some (v, rest) ->
  (length rest < length bs)%nat.
Proof.
  induction bs as [|b bs IH]; intros i ret v rest; cbn [readBase128Int_loop];
    [discriminate|].
  destruct (i =? 5); [discriminate|].
  destruct (_ <=? ret); [discriminate|].
  destruct (_ && _); [discriminate|].
  destruct (_ =? 0).
  - intros Heq; inversion Heq; subst. cbn [length]. lia.
  - intros Heq. apply IH in Heq. cbn [length]. lia.
Qed.

Lemma oid_components_fuel (n : nat) :
  forall (m : nat) (bs : list byte) (acc : list Z),
  (length bs <= n)%nat -> (length bs <= m)%nat ->
  oid_components n bs acc = oid_components m bs acc.
Proof.
  induction n as [|n IH]; intros [|m] bs acc Hn Hm; cbn [oid_components];
    try reflexivity;
    try (destruct bs; [reflexivity|cbn [length] in *; lia]).
  destruct (0 <? Z.of_nat (length bs)); [|reflexivity].
  unfold readBase128Int.
  destruct (readBase128Int_loop 0 0 bs) as [[v rest]|] eqn:E; [|reflexivity].
  apply readBase128Int_loop_progress in E. apply IH; lia.
Qed.

(** ** The CT-logs extension value *)

Lemma bytes_windows (elems : list (list byte)) : forall b,
  map bytes (windows b elems) = elems.
Proof.
  induction elems as [|e es IH]; intros b; cbn [windows map bytes];
    [reflexivity|]. rewrite IH. reflexivity.
Qed.

Lemma Empty_tlv_app (b : nat) (tag : byte) (c rest : list byte) :
  Empty (mkString b (tlv tag c ++ rest)) = false.
Proof. reflexivity. Qed.

Lemma versions_loop_written (versions : list (list byte)) :
  forall (fuel b : nat) (acc : list Z),
  wf_versions versions ->
  small (elements asn1.INTEGER versions) ->
  (length (elements asn1.INTEGER versions) <= fuel)%nat ->
  versions_loop fuel (mkString b (elements asn1.INTEGER versions)) acc
  = Ok (acc ++ map int_value versions).
Proof.
  induction versions as [|v vs IH]; intros fuel b acc Hwf Hsmall Hfuel.
  - rewrite app_nil_r. destruct fuel; reflexivity.
  - inversion Hwf as [|? ? [Hmin Hfit] Hwf']; subst.
    change (elements asn1.INTEGER (v :: vs))
      with (tlv asn1.INTEGER v ++ elements asn1.INTEGER vs) in *.
    destruct fuel as [|fuel]; [exfalso; sizes|].
    cbn [versions_loop]. rewrite Empty_tlv_app. cbn [negb].
    rewrite ReadASN1Integer_int32_tlv by sizes.
    rewrite (checkASN1Integer_minimal _ Hmin).
    destruct Hfit as [Hlo Hhi].
    replace (_ && _) with true
      by (symmetry; cbn [andb]; apply andb_true_iff; split;
          [apply Z.leb_le | apply Z.ltb_lt]; assumption).
    rewrite IH by (assumption || sizes).
    rewrite <- app_assoc. reflexivity.
Qed.

Lemma pubkeys_loop_written (spkis : list (list byte)) :
  forall (fuel b : nat) (acc : list String),
  small (elements asn1.SEQUENCE spkis) ->
  (length (elements asn1.SEQUENCE spkis) <= fuel)%nat ->
  pubkeys_loop fuel (mkString b (elements asn1.SEQUENCE spkis)) acc
  = Ok (acc ++ windows b (map (tlv asn1.SEQUENCE) spkis)).
Proof.
  induction spkis as [|k ks IH]; intros fuel b acc Hsmall Hfuel.
  - cbn [map windows]. rewrite app_nil_r. destruct fuel; reflexivity.
  - change (elements asn1.SEQUENCE (k :: ks))
      with (tlv asn1.SEQUENCE k ++ elements asn1.SEQUENCE ks) in *.
    destruct fuel as [|fuel]; [exfalso; sizes|].
    cbn [pubkeys_loop]. rewrite Empty_tlv_app. cbn [negb].
    rewrite ReadASN1Element_tlv by (auto with der || sizes).
    rewrite IH by sizes.
    cbn [map windows]. rewrite <- app_assoc. reflexivity.
Qed.

(** parseCTLogs on a written value: the versions by value, the keys as the
    windows of their elements. *)
Lemma parseCTLogs_written (b : nat) (versions spkis : list (list byte)) :
  wf_versions versions ->
  small (ctlogs_value versions spkis) ->
  exists b',
    parseCTLogs (mkString b (ctlogs_value versions spkis))
    = Ok (map int_value versions,
          windows b' (map (tlv asn1.SEQUENCE) spkis)).
Proof.
  intros Hwf Hsmall. unfold ctlogs_value in *. unfold parseCTLogs.
  rewrite ReadASN1_tlv_only by (auto with der || sizes).
  cbn [Empty len bytes length Z.of_nat Z.eqb negb].
  rewrite ReadASN1_tlv by (auto with der || sizes).
  cbn [bytes].
  rewrite versions_loop_written by (assumption || sizes || lia).
  rewrite pubkeys_loop_written by (sizes || lia).
  eexists. reflexivity.
Qed.

(** A version INTEGER outside int32 stops parseCTLogs, whatever INTEGER
    elements stand before it and whatever follows. *)
Lemma versions_loop_overflow (before : list (list byte)) :
  forall (fuel b : nat) (acc : list Z) (c after : list byte),
  ~ fits_int32 (int_value c) ->
  small (elements asn1.INTEGER before ++ tlv asn1.INTEGER c ++ after) ->
  (length (elements asn1.INTEGER before ++ tlv asn1.INTEGER c ++ after) <= fuel)%nat ->
  versions_loop fuel
    (mkString b (elements asn1.INTEGER before ++ tlv asn1.INTEGER c ++ after))
    acc
  = Err "version SEQUENCE contains malformed INTEGER"%string.
Proof.
  induction before as [|v vs IH]; intros fuel b acc c after Hbig Hsmall Hfuel.
  - cbn [elements map concat app] in *.
    destruct fuel as [|fuel]; [exfalso; sizes|].
    cbn [versions_loop]. rewrite Empty_tlv_app. cbn [negb].
    rewrite ReadASN1Integer_int32_tlv by sizes.
    replace (_ && _) with false; [reflexivity|].
    symmetry. apply andb_false_iff. right.
    unfold fits_int32 in Hbig.
    destruct (Z.leb_spec (- 2 ^ 31) (int_value c)),
      (Z.ltb_spec (int_value c) (2 ^ 31)); cbn [andb]; try reflexivity; lia.
  - change (elements asn1.INTEGER (v :: vs))
      with (tlv asn1.INTEGER v ++ elements asn1.INTEGER vs) in *.
    rewrite <- app_assoc in *.
    destruct fuel as [|fuel]; [exfalso; sizes|].
    cbn [versions_loop]. rewrite Empty_tlv_app. cbn [negb].
    rewrite ReadASN1Integer_int32_tlv by sizes.
    destruct (_ && _); [|reflexivity].
    apply IH; [assumption|sizes|sizes].
Qed.

(** ** The extensions *)

(** One turn of the loop on a written extension whose OID decodes. *)
Lemma extensions_loop_step (fuel b : nat) (e : Extension) (tail : list byte)
  (logs : list Z * list String) (id : ObjectIdentifier) :
  oid_of_content (extnID e) = Some id ->
  small (extension_der e ++ tail) ->
  exists bv,
    extensions_loop (S fuel) (mkString b (extension_der e ++ tail)) logs
    = if Equal id oidCTLogs
      then wrap_error "error parsing CT logs extension: "%string
             (parseCTLogs (mkString bv (extnValue e)))
             (fun logs' =>
                extensions_loop fuel
                  (mkString (b + length (extension_der e)) tail) logs')
      else extensions_loop fuel
             (mkString (b + length (extension_der e)) tail) logs.
Proof.
  intros Hoid Hsmall. unfold extension_der in *.
  cbn [extensions_loop]. rewrite Empty_tlv_app. cbn [negb].
  rewrite ReadASN1_tlv by (auto with der || sizes).
  rewrite ReadASN1ObjectIdentifier_tlv by sizes. rewrite Hoid.
  destruct (critical e) as [c|].
  - rewrite SkipOptionalASN1_present by (auto with der || sizes).
    rewrite ReadASN1_tlv_only by (auto with der || sizes).
    eexists. reflexivity.
  - cbn [app].
    rewrite <- (app_nil_r (tlv asn1.OCTET_STRING (extnValue e))).
    rewrite SkipOptionalASN1_absent by discriminate.
    rewrite ReadASN1_tlv by (auto with der || sizes).
    eexists. reflexivity.
Qed.

Lemma length_extension_der (e : Extension) : (2 <= length (extension_der e))%nat.
Proof. unfold extension_der. sizes. Qed.

(** The loop over written extensions: it reaches what follows them with the
    lists of the last CT-logs extension. *)
Lemma extensions_loop_written (exts : list Extension) :
  forall kinds (fuel b : nat) (tail : list byte) (logs : list Z * list String),
  Forall2 wf_extension exts kinds ->
  small (concat (map extension_der exts) ++ tail) ->
  (length (concat (map extension_der exts) ++ tail) <= fuel)%nat ->
  exists fuel' b' logs',
    (length tail <= fuel')%nat
    /\ extensions_loop fuel
         (mkString b (concat (map extension_der exts) ++ tail)) logs
       = extensions_loop fuel' (mkString b' tail) logs'
    /\ shown logs' = last_logs kinds (shown logs).
Proof.
  induction exts as [|e es IH]; intros kinds fuel b tail logs Hwf Hsmall Hfuel.
  - inversion Hwf; subst. exists fuel, b, logs. repeat split. exact Hfuel.
  - inversion Hwf as [|? kind ? kinds' Hwfe Hwf']; subst.
    cbn [map concat] in *. rewrite <- app_assoc in *.
    pose proof (length_extension_der e) as Hlen.
    destruct fuel as [|fuel]; [exfalso; rewrite length_app in Hfuel; lia|].
    assert (Hs' : small (concat (map extension_der es) ++ tail))
      by (unfold small in *; rewrite !length_app in *; lia).
    assert (Hf' : (length (concat (map extension_der es) ++ tail) <= fuel)%nat)
      by (rewrite !length_app in *; lia).
    inversion Hwfe as [? id Hoid Hneq | ? id versions spkis Hoid Heq Hval Hver];
      subst.
    + destruct (extensions_loop_step fuel b e
                  (concat (map extension_der es) ++ tail) logs id Hoid)
        as [bv Hstep]; [assumption|].
      rewrite Hstep, Hneq.
      destruct (IH kinds' fuel (b + length (extension_der e))%nat tail logs
                  Hwf' Hs' Hf') as (fuel' & b' & logs' & H1 & H2 & H3).
      exists fuel', b', logs'. repeat split; assumption.
    + destruct (extensions_loop_step fuel b e
                  (concat (map extension_der es) ++ tail) logs id Hoid)
        as [bv Hstep]; [assumption|].
      rewrite Hstep, Heq, Hval.
      destruct (parseCTLogs_written bv versions spkis Hver) as [bk Hlogs].
      { rewrite <- Hval. unfold extension_der in Hsmall. sizes. }
      rewrite Hlogs. cbn [wrap_error].
      destruct (IH kinds' fuel (b + length (extension_der e))%nat tail
                  (map int_value versions,
                   windows bk (map (tlv asn1.SEQUENCE) spkis))
                  Hwf' Hs' Hf') as (fuel' & b' & logs' & H1 & H2 & H3).
      exists fuel', b', logs'. repeat split; try assumption.
      rewrite H3. unfold shown. cbn [fst snd last_logs].
      rewrite bytes_windows. reflexivity.
Qed.

Lemma extensions_loop_end (fuel b : nat) (logs : list Z * list String) :
  extensions_loop fuel (mkString b []) logs = Ok logs.
Proof. destruct fuel; reflexivity. Qed.

(** ** The trust list *)

Section TrustListDecoding.

Context {Time : Type} (utc : list byte -> option Time).

(** The mandatory fields of a written trust list. *)
Lemma parseCTL_fields (b : nat) (c : TrustList) (block : list byte) :
  small (ctl_with c block) ->
  exists b',
    parseCTL utc (mkString b (ctl_with c block))
    = if checkASN1Integer (sequenceNumber c)
      then match utc (effectiveDate c) with
           | Some t =>
               parseCTL_extensions (int_value (sequenceNumber c)) t
                 (mkString b' block)
           | None => Err "malformed effective date UTCTIME"%string
           end
      else Err "malformed sequence number INTEGER"%string.
Proof.
  intros Hsmall. unfold ctl_with in *. unfold parseCTL.
  rewrite ReadASN1_tlv_only by (auto with der || sizes).
  cbn [Empty len bytes length Z.of_nat Z.eqb negb].
  rewrite SkipASN1_tlv by (auto with der || sizes).
  unfold ReadASN1Integer_big. rewrite readASN1BigInt_tlv by sizes.
  destruct (checkASN1Integer (sequenceNumber c)); [|exists 0%nat; reflexivity].
  cbv beta iota.
  rewrite ReadASN1UTCTime_tlv by sizes.
  destruct (utc (effectiveDate c)) as [t|]; [|exists 0%nat; reflexivity].
  cbv beta iota.
  rewrite SkipASN1_tlv by (auto with der || sizes).
  rewrite SkipASN1_tlv by (auto with der || sizes).
  eexists. reflexivity.
Qed.

Lemma parseCTL_extensions_fields (n : Z) (t : Time) (s : String) (ctl : CTL Time) :
  parseCTL_extensions n t s = Ok ctl ->
  SequenceNumber ctl = n /\ EffectiveDate ctl = t.
Proof.
  unfold parseCTL_extensions.
  destruct (ReadOptionalASN1 _ s) as [[[ext [|]] s']|]; [| |discriminate].
  - destruct (ReadASN1 _ ext) as [[ext' r]|]; [|discriminate].
    destruct (extensions_loop _ _ _) as [[v l]|]; [|discriminate].
    intros Heq; inversion Heq; subst. split; reflexivity.
  - intros Heq; inversion Heq; subst. split; reflexivity.
Qed.

(** The extensions block of a written trust list. *)
Lemma parseCTL_extensions_written (b : nat) (n : Z) (t : Time)
  (exts : option (list Extension)) kinds :
  match exts with
  | Some es => Forall2 wf_extension es kinds
  | None => kinds = []
  end ->
  small (extensions_block exts) ->
  exists ctl,
    parseCTL_extensions n t (mkString b (extensions_block exts)) = Ok ctl
    /\ SequenceNumber ctl = n /\ EffectiveDate ctl = t
    /\ (CTLogsVersion ctl, map bytes (CTLogs ctl)) = last_logs kinds ([], []).
Proof.
  intros Hwf Hsmall. destruct exts as [es|]; cbn [extensions_block] in *.
  - unfold parseCTL_extensions.
    pose proof (ReadOptionalASN1_present b asn1.ContextSpecificConstructed0
                  (tlv asn1.SEQUENCE (concat (map extension_der es))) [])
      as Hopt.
    rewrite app_nil_r in Hopt. rewrite Hopt by (auto with der || sizes).
    rewrite ReadASN1_tlv_only by (auto with der || sizes). cbn [bytes].
    destruct (extensions_loop_written es kinds
                (length (concat (map extension_der es)))
                (b + header_len
                       (Z.of_nat (length (tlv asn1.SEQUENCE
                                            (concat (map extension_der es)))))
                 + header_len (Z.of_nat (length (concat (map extension_der es)))))%nat
                [] ([], []) Hwf)
      as (fuel' & b' & logs' & _ & Hloop & Hshown).
    { rewrite app_nil_r. sizes. }
    { rewrite app_nil_r. lia. }
    rewrite app_nil_r in Hloop. rewrite Hloop, extensions_loop_end.
    destruct logs' as [v l]. eexists. split; [reflexivity|].
    cbn [SequenceNumber EffectiveDate CTLogsVersion CTLogs].
    repeat split. exact Hshown.
  - subst kinds. unfold parseCTL_extensions. rewrite ReadOptionalASN1_end.
    eexists. split; [reflexivity|]. repeat split.
Qed.

(** A written, well-formed trust list decodes to its fields and to the
    lists of its last CT-logs extension. *)
Lemma parseCTL_written (b : nat) (c : TrustList)
  (exts : option (list Extension)) (t : Time) kinds :
  wf_trustlist utc c exts t kinds ->
  small (ctl_der c exts) ->
  exists ctl,
    parseCTL utc (mkString b (ctl_der c exts)) = Ok ctl
    /\ SequenceNumber ctl = int_value (sequenceNumber c)
    /\ EffectiveDate ctl = t
    /\ (CTLogsVersion ctl, map bytes (CTLogs ctl)) = last_logs kinds ([], []).
Proof.
  intros (Hmin & Hutc & Hexts) Hsmall. unfold ctl_der in *.
  destruct (parseCTL_fields b c (extensions_block exts) Hsmall) as [b' Hf].
  rewrite Hf, (checkASN1Integer_minimal _ Hmin), Hutc.
  apply parseCTL_extensions_written; [assumption|].
  unfold ctl_with in Hsmall. sizes.
Qed.

(** Whatever stands after the entries, a returned sequence number is the
    value of the written INTEGER. *)
Lemma parseCTL_sequence_number (b : nat) (c : TrustList) (block : list byte)
  (ctl : CTL Time) :
  small (ctl_with c block) ->
  parseCTL utc (mkString b (ctl_with c block)) = Ok ctl ->
  SequenceNumber ctl = int_value (sequenceNumber c).
Proof.
  intros Hsmall. destruct (parseCTL_fields b c block Hsmall) as [b' Hf].
  rewrite Hf. destruct (checkASN1Integer _); [|discriminate].
  destruct (utc _); [|discriminate].
  intros H. apply parseCTL_extensions_fields in H. tauto.
Qed.

End TrustListDecoding.

(** ** The envelope *)

Lemma parsePKCS7_written (b : nat) (e : SignedData) (inner outer : list byte)
  (id : ObjectIdentifier) :
  oid_of_content (eContentType e) = Some id ->
  (exists tag c, low_tag tag /\ eContent e = tlv tag c) ->
  small (envelope_with e inner outer) ->
  exists b',
    parsePKCS7 (mkString b (envelope_with e inner outer))
    = Ok (id, mkString b' (eContent e)).
Proof.
  intros Hoid (tag & c & Htag & Hc) Hsmall.
  unfold envelope_with in *. rewrite Hc in *. unfold parsePKCS7.
  rewrite ReadASN1_tlv by (auto with der || sizes).
  rewrite SkipASN1_tlv by (auto with der || sizes).
  rewrite ReadASN1_tlv_only by (auto with der || sizes).
  rewrite ReadASN1_tlv_only by (auto with der || sizes).
  rewrite SkipASN1_tlv by (auto with der || sizes).
  rewrite SkipASN1_tlv by (auto with der || sizes).
  rewrite ReadASN1_tlv by (auto with der || sizes).
  rewrite ReadASN1ObjectIdentifier_tlv by sizes. rewrite Hoid.
  rewrite ReadASN1_tlv_only by (auto with der || sizes).
  rewrite ReadAnyASN1Element_tlv by (assumption || sizes).
  eexists. reflexivity.
Qed.

(** ParseAuthrootstl on a written envelope is parseCTL on its content;
    neither [inner] nor [outer] is looked at. *)
Lemma ParseAuthrootstl_written {Time : Type} (utc : list byte -> option Time)
  (b : nat) (e : SignedData) (inner outer : list byte) :
  wf_envelope e ->
  small (envelope_with e inner outer) ->
  exists b',
    ParseAuthrootstl utc (mkString b (envelope_with e inner outer))
    = wrap_error "error parsing CTL: "%string
        (parseCTL utc (mkString b' (eContent e))) Ok.
Proof.
  intros [[id Hoid] Hc] Hsmall.
  destruct (parsePKCS7_written b e inner outer id Hoid Hc Hsmall) as [b' Hp].
  exists b'. unfold ParseAuthrootstl. rewrite Hp. reflexivity.
Qed.

Lemma small_eContent (e : SignedData) (inner outer : list byte) :
  small (envelope_with e inner outer) -> small (eContent e).
Proof. unfold envelope_with. intros H. sizes. Qed.

(** ** Where the cursor stands does not matter *)

Lemma read_shift (d : nat) (n : Z) (s : String) :
  read n (shift d s)
  = match read n s with
    | Some (v, s') => Some (shift d v, shift d s')
    | None => None
    end.
Proof.
  unfold read, len. cbn [shift bytes base].
  destruct (_ || _); [reflexivity|].
  unfold shift. cbn [bytes base]. rewrite Nat.add_assoc. reflexivity.
Qed.

Lemma readASN1_shift (skipHeader : bool) (d : nat) (s : String) :
  readASN1 skipHeader (shift d s)
  = match readASN1 skipHeader s with
    | Some (out, t, s') => Some (shift d out, t, shift d s')
    | None => None
    end.
Proof.
  unfold readASN1.
  replace (len (shift d s)) with (len s) by reflexivity.
  replace (index (shift d s) 0) with (index s 0) by reflexivity.
  replace (readASN1_header (shift d s)) with (readASN1_header s)
    by (destruct s; apply readASN1_header_base).
  destruct (len s <? 2); [reflexivity|].
  destruct (_ =? 31); [reflexivity|].
  destruct (readASN1_header s) as [[L h]|]; [|reflexivity].
  destruct (_ <? 0); [reflexivity|].
  unfold ReadBytes, Skip. rewrite read_shift.
  destruct (read (int_of_u32 L) s) as [[out s']|]; [|reflexivity].
  destruct skipHeader; [|reflexivity].
  rewrite read_shift.
  destruct (read (int_of_u32 h) out) as [[junk1 out']|]; reflexivity.
Qed.

Lemma ReadASN1_shift (tag : Tag) (d : nat) (s : String) :
  ReadASN1 tag (shift d s)
  = match ReadASN1 tag s with
    | Some (out, s') => Some (shift d out, shift d s')
    | None => None
    end.
Proof.
  unfold ReadASN1, ReadAnyASN1. rewrite readASN1_shift.
  destruct (readASN1 true s) as [[[out t] s']|]; [|reflexivity].
  destruct (Byte.eqb t tag); reflexivity.
Qed.

Lemma SkipASN1_shift (tag : Tag) (d : nat) (s : String) :
  SkipASN1 tag (shift d s)
  = match SkipASN1 tag s with
    | Some s' => Some (shift d s')
    | None => None
    end.
Proof.
  unfold SkipASN1. rewrite ReadASN1_shift.
  destruct (ReadASN1 tag s) as [[out s']|]; reflexivity.
Qed.

Lemma ReadASN1ObjectIdentifier_shift (d : nat) (s : String) :
  ReadASN1ObjectIdentifier (shift d s)
  = match ReadASN1ObjectIdentifier s with
    | Some (id, s') => Some (id, shift d s')
    | None => None
    end.
Proof.
  unfold ReadASN1ObjectIdentifier. rewrite ReadASN1_shift.
  destruct (ReadASN1 _ s) as [[out s']|]; [|reflexivity].
  cbn [shift bytes]. destruct (oid_of_content (bytes out)); reflexivity.
Qed.

Lemma parsePKCS7_signedData_shift (d : nat) (s : String) :
  outcome (parsePKCS7_signedData (shift d s))
  = outcome (parsePKCS7_signedData s).
Proof.
  unfold parsePKCS7_signedData.
  rewrite ReadASN1_shift.
  destruct (ReadASN1 _ s) as [[s1 junk2]|]; [|reflexivity].
  rewrite ReadASN1_shift.
  destruct (ReadASN1 _ s1) as [[s2 junk3]|]; [|reflexivity].
  rewrite SkipASN1_shift.
  destruct (SkipASN1 _ s2) as [s3|]; [|reflexivity].
  rewrite SkipASN1_shift.
  destruct (SkipASN1 _ s3) as [s4|]; [|reflexivity].
  rewrite ReadASN1_shift.
  destruct (ReadASN1 _ s4) as [[s5 junk4]|]; [|reflexivity].
  rewrite ReadASN1ObjectIdentifier_shift.
  destruct (ReadASN1ObjectIdentifier s5) as [[id s6]|]; [|reflexivity].
  rewrite ReadASN1_shift.
  destruct (ReadASN1 _ s6) as [[s7 junk5]|]; [|reflexivity].
  unfold ReadAnyASN1Element. rewrite readASN1_shift.
  destruct (readASN1 false s7) as [[[content t] ?]|]; reflexivity.
Qed.

Lemma parsePKCS7_outer (der : String) :
  parsePKCS7 der
  = match ReadASN1 asn1.SEQUENCE der with
    | Some (sequence, _) =>
        match SkipASN1 asn1.OBJECT_IDENTIFIER sequence with
        | Some sequence => parsePKCS7_signedData sequence
        | None => Err "malformed OBJECT IDENTIFIER"%string
        end
    | None => Err "malformed SEQUENCE"%string
    end.
Proof.
  unfold parsePKCS7, parsePKCS7_signedData.
  destruct (ReadASN1 asn1.SEQUENCE der) as [[sequence junk6]|]; reflexivity.
Qed.

(** ** Windows of the input *)

Lemma inside_window (mem : list byte) (s : String) :
  inside mem s -> window_of mem s.
Proof.
  intros (pre & post & -> & Hpre). unfold window_of, load. split.
  - rewrite !length_app. lia.
  - rewrite <- Hpre, skipn_app, skipn_all, Nat.sub_diag. cbn [app skipn].
    rewrite firstn_app, firstn_all, Nat.sub_diag. cbn [firstn].
    apply app_nil_r.
Qed.

Lemma inside_whole (mem : list byte) : inside mem (mkString 0 mem).
Proof. exists [], []. cbn [bytes base app length]. rewrite app_nil_r. tauto. Qed.

Lemma inside_nil (mem : list byte) : inside mem nil_String.
Proof. exists [], mem. cbn. tauto. Qed.

Lemma inside_firstn (mem : list byte) (s : String) (n : nat) :
  inside mem s -> inside mem (mkString (base s) (firstn n (bytes s))).
Proof.
  intros (pre & post & -> & Hpre).
  exists pre, (skipn n (bytes s) ++ post). cbn [bytes base]. split; [|exact Hpre].
  rewrite (app_assoc (firstn _ _)), firstn_skipn. reflexivity.
Qed.

Lemma inside_skipn (mem : list byte) (s : String) (n : nat) :
  (n <= length (bytes s))%nat ->
  inside mem s -> inside mem (mkString (base s + n) (skipn n (bytes s))).
Proof.
  intros Hn (pre & post & -> & Hpre).
  exists (pre ++ firstn n (bytes s)), post. cbn [bytes base]. split.
  - rewrite <- app_assoc, (app_assoc (firstn _ _)), firstn_skipn. reflexivity.
  - rewrite length_app, length_firstn. lia.
Qed.

Lemma readASN1_inside (mem : list byte) (skipHeader : bool)
  (s out s' : String) (t : Tag) :
  readASN1 skipHeader s = Some (out, t, s') ->
  inside mem s -> inside mem out /\ inside mem s'.
Proof.
  intros H Hin. apply readASN1_inv in H.
  destruct H as (L & h & _ & Hb1 & Hb2 & _ & _ & -> & ->). split.
  - destruct skipHeader.
    + apply (inside_skipn mem (mkString (base s) (firstn L (bytes s))) h).
      * cbn [bytes]. rewrite length_firstn. lia.
      * apply inside_firstn. assumption.
    + apply inside_firstn. assumption.
  - apply inside_skipn; assumption.
Qed.

Lemma ReadASN1_inside (mem : list byte) (tag : Tag) (s out s' : String) :
  ReadASN1 tag s = Some (out, s') ->
  inside mem s -> inside mem out /\ inside mem s'.
Proof.
  unfold ReadASN1, ReadAnyASN1.
  destruct (readASN1 true s) as [[[o t] r]|] eqn:E; [|discriminate].
  destruct (Byte.eqb t tag); [|discriminate].
  intros Heq; inversion Heq; subst. eapply readASN1_inside; eassumption.
Qed.

Lemma ReadASN1Element_inside (mem : list byte) (tag : Tag) (s out s' : String) :
  ReadASN1Element tag s = Some (out, s') ->
  inside mem s -> inside mem out /\ inside mem s'.
Proof.
  unfold ReadASN1Element, ReadAnyASN1Element.
  destruct (readASN1 false s) as [[[o t] r]|] eqn:E; [|discriminate].
  destruct (Byte.eqb t tag); [|discriminate].
  intros Heq; inversion Heq; subst. eapply readASN1_inside; eassumption.
Qed.

Lemma SkipASN1_inside (mem : list byte) (tag : Tag) (s s' : String) :
  SkipASN1 tag s = Some s' -> inside mem s -> inside mem s'.
Proof.
  unfold SkipASN1. destruct (ReadASN1 tag s) as [[o r]|] eqn:E; [|discriminate].
  intros Heq; inversion Heq; subst. intros Hin.
  destruct (ReadASN1_inside mem _ _ _ _ E Hin) as [_ Hr]. exact Hr.
Qed.

Lemma SkipOptionalASN1_inside (mem : list byte) (tag : Tag) (s s' : String) :
  SkipOptionalASN1 tag s = Some s' -> inside mem s -> inside mem s'.
Proof.
  unfold SkipOptionalASN1. destruct (negb _).
  - intros Heq; inversion Heq; subst. tauto.
  - destruct (ReadASN1 tag s) as [[o r]|] eqn:E; [|discriminate].
    intros Heq; inversion Heq; subst. intros Hin.
    destruct (ReadASN1_inside mem _ _ _ _ E Hin) as [_ Hr]. exact Hr.
Qed.

Lemma ReadOptionalASN1_inside (mem : list byte) (tag : Tag)
  (s out s' : String) (present : bool) :
  ReadOptionalASN1 tag s = Some (out, present, s') ->
  inside mem s -> inside mem out /\ inside mem s'.
Proof.
  unfold ReadOptionalASN1. destruct (PeekASN1Tag tag s).
  - destruct (ReadASN1 tag s) as [[o r]|] eqn:E; [|discriminate].
    intros Heq; inversion Heq; subst. intros Hin.
    eapply ReadASN1_inside; eassumption.
  - intros Heq; inversion Heq; subst. intros Hin. split; [apply inside_nil|assumption].
Qed.

Lemma ReadASN1ObjectIdentifier_inside (mem : list byte) (s s' : String)
  (id : ObjectIdentifier) :
  ReadASN1ObjectIdentifier s = Some (id, s') -> inside mem s -> inside mem s'.
Proof.
  unfold ReadASN1ObjectIdentifier.
  destruct (ReadASN1 _ s) as [[o r]|] eqn:E; [|discriminate].
  destruct (oid_of_content _); [|discriminate].
  intros Heq; inversion Heq; subst. intros Hin.
  destruct (ReadASN1_inside mem _ _ _ _ E Hin) as [_ Hr]. exact Hr.
Qed.

Lemma pubkeys_loop_inside (mem : list byte) (fuel : nat) :
  forall (s : String) (acc pubkeys : list String),
  pubkeys_loop fuel s acc = Ok pubkeys ->
  inside mem s -> Forall (inside mem) acc -> Forall (inside mem) pubkeys.
Proof.
  induction fuel as [|fuel IH]; intros s acc pubkeys; cbn [pubkeys_loop].
  - intros Heq; inversion Heq; subst. tauto.
  - destruct (negb (Empty s)).
    + destruct (ReadASN1Element _ s) as [[spki s']|] eqn:E; [|discriminate].
      intros Hloop Hin Hacc.
      destruct (ReadASN1Element_inside mem _ _ _ _ E Hin) as [Hk Hs'].
      eapply IH; [eassumption|assumption|].
      apply Forall_app. split; [assumption|]. constructor; [assumption|constructor].
    + intros Heq; inversion Heq; subst. tauto.
Qed.

Lemma parseCTLogs_inside (mem : list byte) (s : String)
  (version : list Z) (pubkeys : list String) :
  parseCTLogs s = Ok (version, pubkeys) ->
  inside mem s -> Forall (inside mem) pubkeys.
Proof.
  unfold parseCTLogs.
  destruct (ReadASN1 _ s) as [[sequence der]|] eqn:E1; [|discriminate].
  destruct (negb (Empty der)); [discriminate|].
  destruct (ReadASN1 _ sequence) as [[vs sequence']|] eqn:E2; [|discriminate].
  destruct (versions_loop _ _ _); [|discriminate].
  destruct (pubkeys_loop _ _ _) as [l|] eqn:E3; [|discriminate].
  intros Heq; inversion Heq; subst. intros Hin.
  eapply ReadASN1_inside in E1; [|eassumption].
  eapply ReadASN1_inside in E2; [|apply E1].
  eapply pubkeys_loop_inside; [eassumption|apply E2|constructor].
Qed.

Lemma extensions_loop_inside (mem : list byte) (fuel : nat) :
  forall (s : String) (logs logs' : list Z * list String),
  extensions_loop fuel s logs = Ok logs' ->
  inside mem s -> Forall (inside mem) (snd logs) ->
  Forall (inside mem) (snd logs').
Proof.
  induction fuel as [|fuel IH]; intros s logs logs'; cbn [extensions_loop].
  - intros Heq; inversion Heq; subst. tauto.
  - destruct (negb (Empty s)).
    + destruct (ReadASN1 _ s) as [[e s']|] eqn:E1; [|discriminate].
      destruct (ReadASN1ObjectIdentifier e) as [[id e1]|] eqn:E2; [|discriminate].
      destruct (SkipOptionalASN1 _ e1) as [e2|] eqn:E3; [|discriminate].
      destruct (ReadASN1 _ e2) as [[v e3]|] eqn:E4; [|discriminate].
      intros Hloop Hin Hacc.
      eapply ReadASN1_inside in E1; [|eassumption]. destruct E1 as [He Hs'].
      eapply ReadASN1ObjectIdentifier_inside in E2; [|eassumption].
      eapply SkipOptionalASN1_inside in E3; [|eassumption].
      eapply ReadASN1_inside in E4; [|eassumption]. destruct E4 as [Hv _].
      destruct (Equal id oidCTLogs).
      * unfold wrap_error in Hloop.
        destruct (parseCTLogs v) as [[ver keys]|] eqn:E5; [|discriminate].
        eapply IH; [eassumption|assumption|]. cbn [snd].
        eapply parseCTLogs_inside; eassumption.
      * eapply IH; eassumption.
    + intros Heq; inversion Heq; subst. tauto.
Qed.

Lemma parsePKCS7_inside (mem : list byte) (s content : String)
  (id : ObjectIdentifier) :
  parsePKCS7 s = Ok (id, content) -> inside mem s -> inside mem content.
Proof.
  unfold parsePKCS7. intros H Hin.
  destruct (ReadASN1 _ s) as [[s1 junk7]|] eqn:E1; [|discriminate].
  eapply ReadASN1_inside in E1; [|eassumption]. destruct E1 as [H1 _].
  destruct (SkipASN1 _ s1) as [s2|] eqn:E2; [|discriminate].
  eapply SkipASN1_inside in E2; [|eassumption].
  destruct (ReadASN1 _ s2) as [[s3 junk8]|] eqn:E3; [|discriminate].
  eapply ReadASN1_inside in E3; [|eassumption]. destruct E3 as [H3 _].
  destruct (ReadASN1 _ s3) as [[s4 junk9]|] eqn:E4; [|discriminate].
  eapply ReadASN1_inside in E4; [|eassumption]. destruct E4 as [H4 _].
  destruct (SkipASN1 _ s4) as [s5|] eqn:E5; [|discriminate].
  eapply SkipASN1_inside in E5; [|eassumption].
  destruct (SkipASN1 _ s5) as [s6|] eqn:E6; [|discriminate].
  eapply SkipASN1_inside in E6; [|eassumption].
  destruct (ReadASN1 _ s6) as [[s7 junk10]|] eqn:E7; [|discriminate].
  eapply ReadASN1_inside in E7; [|eassumption]. destruct E7 as [H7 _].
  destruct (ReadASN1ObjectIdentifier s7) as [[oid s8]|] eqn:E8; [|discriminate].
  eapply ReadASN1ObjectIdentifier_inside in E8; [|eassumption].
  destruct (ReadASN1 _ s8) as [[s9 junk11]|] eqn:E9; [|discriminate].
  eapply ReadASN1_inside in E9; [|eassumption]. destruct E9 as [H9 _].
  unfold ReadAnyASN1Element in H.
  destruct (readASN1 false s9) as [[[c t] ?]|] eqn:E10; [|discriminate].
  eapply readASN1_inside in E10; [|eassumption]. destruct E10 as [H10 _].
  inversion H; subst. assumption.
Qed.

Lemma parseCTL_inside {Time : Type} (utc : list byte -> option Time)
  (mem : list byte) (s : String) (ctl : CTL Time) :
  parseCTL utc s = Ok ctl -> inside mem s -> Forall (inside mem) (CTLogs ctl).
Proof.
  unfold parseCTL. intros H Hin.
  destruct (ReadASN1 _ s) as [[s1 der]|] eqn:E1; [|discriminate].
  eapply ReadASN1_inside in E1; [|eassumption]. destruct E1 as [H1 _].
  destruct (negb (Empty der)); [discriminate|].
  destruct (SkipASN1 _ s1) as [s2|] eqn:E2; [|discriminate].
  eapply SkipASN1_inside in E2; [|eassumption].
  unfold ReadASN1Integer_big, readASN1BigInt in H.
  destruct (ReadASN1 asn1.INTEGER s2) as [[i s3]|] eqn:E3; [|discriminate].
  eapply ReadASN1_inside in E3; [|eassumption]. destruct E3 as [_ H3].
  assert (exists n, (if negb (checkASN1Integer (bytes i)) then None
            else if Z.land (u8 (index i 0)) 128 =? 128
                 then Some (- (SetBytes (map complement (bytes i)) + 1), s3)
                 else Some (SetBytes (bytes i), s3)) = Some (n, s3)
          \/ (if negb (checkASN1Integer (bytes i)) then None
            else if Z.land (u8 (index i 0)) 128 =? 128
                 then Some (- (SetBytes (map complement (bytes i)) + 1), s3)
                 else Some (SetBytes (bytes i), s3)) = None) as [n [Hn|Hn]]
    by (destruct (negb _); [exists 0; right; reflexivity|];
        destruct (_ =? 128); eexists; left; reflexivity).
  2:{ rewrite Hn in H. discriminate. }
  rewrite Hn in H. clear Hn.
  unfold ReadASN1UTCTime in H.
  destruct (ReadASN1 asn1.UTCTime s3) as [[tb s4]|] eqn:E4; [|discriminate].
  eapply ReadASN1_inside in E4; [|eassumption]. destruct E4 as [_ H4].
  destruct (utc (bytes tb)) as [t|]; [|discriminate].
  destruct (SkipASN1 _ s4) as [s5|] eqn:E5; [|discriminate].
  eapply SkipASN1_inside in E5; [|eassumption].
  destruct (SkipASN1 _ s5) as [s6|] eqn:E6; [|discriminate].
  eapply SkipASN1_inside in E6; [|eassumption].
  destruct (ReadOptionalASN1 _ s6) as [[[ext present] s7]|] eqn:E7; [|discriminate].
  eapply ReadOptionalASN1_inside in E7; [|eassumption]. destruct E7 as [H7 _].
  destruct present.
  - destruct (ReadASN1 _ ext) as [[ext' junk12]|] eqn:E8; [|discriminate].
    eapply ReadASN1_inside in E8; [|eassumption]. destruct E8 as [H8 _].
    destruct (extensions_loop _ _ _) as [[ver keys]|] eqn:E9; [|discriminate].
    inversion H; subst. cbn [CTLogs].
    eapply extensions_loop_inside in E9; [exact E9|assumption|constructor].
  - inversion H; subst. constructor.
Qed.

(** The key blobs a decode returns are windows of the buffer it was given. *)
Lemma ParseAuthrootstl_inside {Time : Type} (utc : list byte -> option Time)
  (der : list byte) (ctl : CTL Time) :
  ParseAuthrootstl utc (mkString 0 der) = Ok ctl ->
  Forall (inside der) (CTLogs ctl).
Proof.
  unfold ParseAuthrootstl, wrap_error. intros H.
  destruct (parsePKCS7 _) as [[id content]|] eqn:E1; [|discriminate].
  destruct (parseCTL utc content) as [c|] eqn:E2; [|discriminate].
  inversion H; subst.
  eapply parseCTL_inside; [eassumption|].
  eapply parsePKCS7_inside; [eassumption|apply inside_whole].
Qed.

(** ** A written input decodes to what was written *)

Lemma last_logs_none kinds (acc : list Z * list (list byte)) :
  Forall (fun k => k = None) kinds -> last_logs kinds acc = acc.
Proof.
  induction 1 as [|k ks Hk _ IH]; cbn [last_logs]; [reflexivity|].
  subst k. exact IH.
Qed.

Lemma last_logs_app kinds1 kinds2 (acc : list Z * list (list byte)) :
  last_logs (kinds1 ++ kinds2) acc = last_logs kinds2 (last_logs kinds1 acc).
Proof.
  revert acc. induction kinds1 as [|[[v k]|] ks IH]; intros acc;
    cbn [app last_logs]; auto.
Qed.

Lemma last_logs_last kinds1 kinds2 versions spkis
  (acc : list Z * list (list byte)) :
  Forall (fun k => k = None) kinds2 ->
  last_logs (kinds1 ++ Some (versions, spkis) :: kinds2) acc
  = (map int_value versions, map (tlv asn1.SEQUENCE) spkis).
Proof.
  intros Hnone. rewrite last_logs_app. cbn [last_logs].
  apply last_logs_none. exact Hnone.
Qed.

(** The whole pipeline on a written envelope around a written, well-formed
    trust list, with anything after the content element or after the
    envelope. *)
Lemma decode_written {Time : Type} (utc : list byte -> option Time)
  (b : nat) (e : SignedData) (inner outer : list byte) (c : TrustList)
  (exts : option (list Extension)) (t : Time) kinds :
  wf_envelope e ->
  eContent e = ctl_der c exts ->
  wf_trustlist utc c exts t kinds ->
  small (envelope_with e inner outer) ->
  exists ctl,
    ParseAuthrootstl utc (mkString b (envelope_with e inner outer)) = Ok ctl
    /\ SequenceNumber ctl = int_value (sequenceNumber c)
    /\ EffectiveDate ctl = t
    /\ (CTLogsVersion ctl, map bytes (CTLogs ctl)) = last_logs kinds ([], []).
Proof.
  intros Henv Hcontent Hwf Hsmall.
  destruct (ParseAuthrootstl_written utc b e inner outer Henv Hsmall)
    as [b' Hparse].
  pose proof (small_eContent _ _ _ Hsmall) as Hsc.
  rewrite Hcontent in *.
  destruct (parseCTL_written utc b' c exts t kinds Hwf Hsc)
    as (ctl & Hctl & Hfields).
  exists ctl. rewrite Hparse, Hctl. split; [reflexivity|exact Hfields].
Qed.

(** ** Overwriting the input *)

Lemma length_store (mem : list byte) (i : nat) (v : byte) :
  length (store mem i v) = length mem.
Proof.
  unfold store. rewrite length_app, length_firstn.
  pose proof (length_skipn i mem) as Hs.
  destruct (skipn i mem) as [|x tl]; cbn [length] in *; lia.
Qed.

Lemma nth_store (mem : list byte) (i : nat) (v d : byte) :
  (i < length mem)%nat -> nth i (store mem i v) d = v.
Proof.
  intros Hi. unfold store.
  rewrite app_nth2 by (rewrite length_firstn; lia).
  rewrite length_firstn, Nat.min_l, Nat.sub_diag by lia.
  pose proof (length_skipn i mem) as Hs.
  destruct (skipn i mem) as [|x tl]; cbn [length] in Hs; [lia|reflexivity].
Qed.

Lemma nth_load (mem : list byte) (s : String) (j : nat) (d : byte) :
  (j < length (bytes s))%nat ->
  nth j (load mem s) d = nth (base s + j) mem d.
Proof.
  intros Hj. unfold load. rewrite nth_firstn.
  replace (j <? length (bytes s))%nat with true
    by (symmetry; apply Nat.ltb_lt; exact Hj).
  apply nth_skipn.
Qed.

(** Overwriting a byte under a window changes what the window shows. *)
Lemma window_sees_store (mem : list byte) (s : String) (i : nat) (v : byte) :
  window_of mem s ->
  (base s <= i < base s + length (bytes s))%nat ->
  nth i mem x00 <> v ->
  load (store mem i v) s <> bytes s.
Proof.
  intros [Hfit Hshow] Hi Hv Heq.
  apply Hv.
  assert (Hnth : nth (i - base s) (load (store mem i v) s) x00
                 = nth (i - base s) (load mem s) x00)
    by (rewrite Heq, Hshow; reflexivity).
  rewrite !nth_load in Hnth by lia.
  replace (base s + (i - base s))%nat with i in Hnth by lia.
  rewrite nth_store in Hnth by lia. symmetry. exact Hnth.
Qed.

(** ** A version outside int32 *)

Lemma parseCTLogs_overflow (b : nat) (before : list (list byte))
  (v after keys : list byte) :
  ~ fits_int32 (int_value v) ->
  small (tlv asn1.SEQUENCE
           (tlv asn1.SEQUENCE
              (elements asn1.INTEGER before ++ tlv asn1.INTEGER v ++ after)
            ++ keys)) ->
  parseCTLogs
    (mkString b
       (tlv asn1.SEQUENCE
          (tlv asn1.SEQUENCE
             (elements asn1.INTEGER before ++ tlv asn1.INTEGER v ++ after)
           ++ keys)))
  = Err "version SEQUENCE contains malformed INTEGER"%string.
Proof.
  intros Hbig Hsmall. unfold parseCTLogs.
  rewrite ReadASN1_tlv_only by (auto with der || sizes).
  cbn [Empty len bytes length Z.of_nat Z.eqb negb].
  rewrite ReadASN1_tlv by (auto with der || sizes). cbn [bytes].
  rewrite versions_loop_overflow; [reflexivity|assumption| |lia].
  unfold small in *. 
  pose proof (length_tlv_ge asn1.SEQUENCE
                (tlv asn1.SEQUENCE
                   (elements asn1.INTEGER before ++ tlv asn1.INTEGER v ++ after)
                 ++ keys)).
  pose proof (length_tlv_ge asn1.SEQUENCE
                (elements asn1.INTEGER before ++ tlv asn1.INTEGER v ++ after)).
  rewrite length_app in *. lia.
Qed.

(** ** Bytes around the envelope *)

Lemma header_len_mono (n m : Z) :
  n <= m -> (header_len n <= header_len m)%nat.
Proof.
  intros Hnm. unfold header_len, length_octets.
  destruct (Z.ltb_spec n 128), (Z.ltb_spec m 128),
    (Z.ltb_spec n (2 ^ 8)), (Z.ltb_spec m (2 ^ 8)),
    (Z.ltb_spec n (2 ^ 16)), (Z.ltb_spec m (2 ^ 16)),
    (Z.ltb_spec n (2 ^ 24)), (Z.ltb_spec m (2 ^ 24));
    cbn [length]; rewrite ?length_be_digits; lia.
Qed.

Lemma length_tlv_mono (tag tag' : byte) (c c' : list byte) :
  (length c <= length c')%nat ->
  (length (tlv tag c) <= length (tlv tag' c'))%nat.
Proof.
  intros H. rewrite !length_tlv.
  pose proof (header_len_mono (Z.of_nat (length c)) (Z.of_nat (length c'))).
  lia.
Qed.

Lemma small_envelope_der (e : SignedData) (inner outer : list byte) :
  small (envelope_with e inner outer) -> small (envelope_der e).
Proof.
  unfold small, envelope_der, envelope_with. intros H.
  eapply Z.le_lt_trans; [|exact H]. apply Nat2Z.inj_le.
  rewrite !length_app. apply Nat.add_le_mono; [|cbn [length]; lia].
  repeat first
    [ apply length_tlv_mono
    | rewrite !length_app
    | apply Nat.add_le_mono_l
    | apply Nat.add_le_mono_r ].
  cbn [length]. lia.
Qed.

(** ** The properties of the specification *)

(** C1. Cut at any offset short of its length, a valid input is refused:
    the outer SEQUENCE no longer fits the buffer, parsePKCS7 reports it and no
    CTL is returned. *)
Theorem C1_truncated_input_is_refused {Time : Type}
  (utc : list byte -> option Time) (input : list byte) (k : nat) :
  valid_input utc input ->
  (k < length input)%nat ->
  ParseAuthrootstl utc (mkString 0 (firstn k input))
  = Err "error parsing PKCS#7: malformed SEQUENCE"%string.
Proof.
  intros (Hsmall & (tag & c & ->) & _) Hk.
  unfold ParseAuthrootstl, parsePKCS7, ReadASN1, ReadAnyASN1.
  rewrite readASN1_truncated by assumption. reflexivity.
Qed.

(** C2. The sequence number of the returned CTL is the value of the
    sequence-number INTEGER of the trust list as an unbounded integer, however
    many octets it has: whenever a CTL is returned, and a CTL is returned for
    every well-formed input. *)
Theorem C2_sequence_number_is_exact {Time : Type}
  (utc : list byte -> option Time) (b : nat) (e : SignedData)
  (inner outer : list byte) (c : TrustList) (block : list byte) :
  wf_envelope e ->
  eContent e = ctl_with c block ->
  small (envelope_with e inner outer) ->
  (forall ctl,
     ParseAuthrootstl utc (mkString b (envelope_with e inner outer)) = Ok ctl ->
     SequenceNumber ctl = int_value (sequenceNumber c))
  /\ (forall exts t kinds,
        block = extensions_block exts ->
        wf_trustlist utc c exts t kinds ->
        exists ctl,
          ParseAuthrootstl utc (mkString b (envelope_with e inner outer))
          = Ok ctl
          /\ SequenceNumber ctl = int_value (sequenceNumber c)).
Proof.
  intros Henv Hcontent Hsmall. split.
  - intros ctl Hrun.
    destruct (ParseAuthrootstl_written utc b e inner outer Henv Hsmall)
      as [b' Hparse].
    rewrite Hparse, Hcontent in Hrun. unfold wrap_error in Hrun.
    destruct (parseCTL utc _) as [ctl'|] eqn:Hctl; [|discriminate].
    inversion Hrun; subst ctl'.
    apply (parseCTL_sequence_number utc b' c block ctl); [|exact Hctl].
    rewrite <- Hcontent. eapply small_eContent. exact Hsmall.
  - intros exts t kinds -> Hwf.
    destruct (decode_written utc b e inner outer c exts t kinds
                Henv Hcontent Hwf Hsmall)
      as (ctl & Hrun & Hseq & _).
    exists ctl. split; assumption.
Qed.

(** C3. Without an extensions block, or with extensions that all carry other
    OIDs, the decode succeeds with both log lists empty and the two mandatory
    fields read. *)
Theorem C3_without_ctlogs_extension {Time : Type}
  (utc : list byte -> option Time) (b : nat) (e : SignedData) (c : TrustList)
  (exts : option (list Extension)) (t : Time) kinds :
  wf_envelope e ->
  eContent e = ctl_der c exts ->
  wf_trustlist utc c exts t kinds ->
  Forall (fun k => k = None) kinds ->
  small (envelope_der e) ->
  ParseAuthrootstl utc (mkString b (envelope_der e))
  = Ok (mkCTL (int_value (sequenceNumber c)) t [] []).
Proof.
  intros Henv Hcontent Hwf Hnone Hsmall.
  destruct (decode_written utc b e [] [] c exts t kinds Henv Hcontent Hwf Hsmall)
    as (ctl & Hrun & Hseq & Hdate & Hlogs).
  unfold envelope_der. rewrite Hrun. f_equal.
  rewrite last_logs_none in Hlogs by assumption.
  destruct ctl as [n d v l]. cbn in *.
  inversion Hlogs as [[Hv Hl]]. apply map_eq_nil in Hl. subst. reflexivity.
Qed.

(** C4. A buffer holding a CTL that parseCTL accepts and then at least one
    more byte is refused for its trailing bytes. *)
Theorem C4_trailing_bytes_are_refused {Time : Type}
  (utc : list byte -> option Time) (b : nat) (element extra : list byte)
  (ctl : CTL Time) :
  parseCTL utc (mkString b element) = Ok ctl ->
  extra <> [] ->
  parseCTL utc (mkString b (element ++ extra))
  = Err "trailing bytes after SEQUENCE"%string.
Proof.
  intros Hrun Hextra. unfold parseCTL in *.
  unfold ReadASN1, ReadAnyASN1 in *.
  destruct (readASN1 true (mkString b element)) as [[[out t] s']|] eqn:Hread;
    [|discriminate].
  rewrite (readASN1_app true b element extra out s' t Hread).
  destruct (Byte.eqb t asn1.SEQUENCE); [|discriminate].
  destruct (Empty s') eqn:Hempty; [|discriminate].
  apply Empty_nil in Hempty. rewrite Hempty. cbn [app].
  replace (Empty (mkString (base s') extra)) with false; [reflexivity|].
  destruct extra; [congruence|reflexivity].
Qed.

(** C5. The keys of the CT-logs extension come back one entry per SEQUENCE
    element, in input order, each entry the element's octets with tag and
    length, repeated elements repeated; the versions come back by value. *)
Theorem C5_ctlogs_entries_in_order {Time : Type}
  (utc : list byte -> option Time) (b : nat) (e : SignedData) (c : TrustList)
  (es : list Extension) (t : Time) kinds1 kinds2
  (versions spkis : list (list byte)) :
  wf_envelope e ->
  eContent e = ctl_der c (Some es) ->
  wf_trustlist utc c (Some es) t (kinds1 ++ Some (versions, spkis) :: kinds2) ->
  Forall (fun k => k = None) kinds2 ->
  small (envelope_der e) ->
  exists ctl,
    ParseAuthrootstl utc (mkString b (envelope_der e)) = Ok ctl
    /\ map bytes (CTLogs ctl) = map (tlv asn1.SEQUENCE) spkis
    /\ length (CTLogs ctl) = length spkis
    /\ CTLogsVersion ctl = map int_value versions
    /\ SequenceNumber ctl = int_value (sequenceNumber c)
    /\ EffectiveDate ctl = t.
Proof.
  intros Henv Hcontent Hwf Hnone Hsmall.
  destruct (decode_written utc b e [] [] c (Some es) t _ Henv Hcontent Hwf Hsmall)
    as (ctl & Hrun & Hseq & Hdate & Hlogs).
  rewrite last_logs_last in Hlogs by assumption.
  inversion Hlogs as [[Hv Hl]].
  exists ctl. repeat split; try assumption.
  rewrite <- (length_map bytes), Hl, length_map. reflexivity.
Qed.

(** C6, as the code has it.  Every key blob of a returned CTL is a window of
    the input buffer itself: it lies within the buffer, shows the element's
    octets while the buffer is untouched, and shows something else as soon as
    a byte under it is overwritten. *)
Theorem C6_ctlogs_are_windows_of_the_input {Time : Type}
  (utc : list byte -> option Time) (input : list byte) (ctl : CTL Time) :
  ParseAuthrootstl utc (mkString 0 input) = Ok ctl ->
  Forall (fun blob =>
            window_of input blob
            /\ forall (i : nat) (v : byte),
                 (base blob <= i < base blob + length (bytes blob))%nat ->
                 nth i input x00 <> v ->
                 load (store input i v) blob <> bytes blob)
         (CTLogs ctl).
Proof.
  intros Hrun. apply ParseAuthrootstl_inside in Hrun.
  eapply Forall_impl; [|exact Hrun].
  intros blob Hin. apply inside_window in Hin. split; [exact Hin|].
  intros i v Hi Hv. apply window_sees_store; assumption.
Qed.

(** C7. The outer content type is skipped, never compared: two inputs that
    differ in the content octets of that OBJECT IDENTIFIER alone have the same
    outcome, the same error or the same inner OID and content octets. *)
Theorem C7_outer_content_type_is_not_compared (b : nat)
  (oid1 oid2 rest outer : list byte) :
  small (tlv asn1.SEQUENCE (tlv asn1.OBJECT_IDENTIFIER oid1 ++ rest) ++ outer) ->
  small (tlv asn1.SEQUENCE (tlv asn1.OBJECT_IDENTIFIER oid2 ++ rest) ++ outer) ->
  outcome (parsePKCS7
             (mkString b
                (tlv asn1.SEQUENCE (tlv asn1.OBJECT_IDENTIFIER oid1 ++ rest)
                 ++ outer)))
  = outcome (parsePKCS7
               (mkString b
                  (tlv asn1.SEQUENCE (tlv asn1.OBJECT_IDENTIFIER oid2 ++ rest)
                   ++ outer))).
Proof.
  intros H1 H2. rewrite !parsePKCS7_outer.
  rewrite !ReadASN1_tlv by (auto with der || sizes).
  rewrite !SkipASN1_tlv by (auto with der || sizes).
  match goal with
  | |- outcome (parsePKCS7_signedData (mkString ?b1 rest))
       = outcome (parsePKCS7_signedData (mkString ?b2 rest)) =>
      replace (mkString b1 rest) with (shift b1 (mkString 0 rest))
        by (unfold shift; cbn [base bytes]; rewrite Nat.add_0_r; reflexivity);
      replace (mkString b2 rest) with (shift b2 (mkString 0 rest))
        by (unfold shift; cbn [base bytes]; rewrite Nat.add_0_r; reflexivity)
  end.
  rewrite !parsePKCS7_signedData_shift. reflexivity.
Qed.

(** C8. A version INTEGER whose value is outside int32, in the CT-logs
    extension of an otherwise well-formed input, fails the decode; nothing is
    truncated or wrapped. *)
Theorem C8_version_outside_int32_is_refused {Time : Type}
  (utc : list byte -> option Time) (b : nat) (e : SignedData) (c : TrustList)
  (t : Time) (es : list Extension) kinds (bad : Extension)
  (id : ObjectIdentifier) (before : list (list byte))
  (v after keys more : list byte) :
  wf_envelope e ->
  eContent e
  = ctl_with c
      (tlv asn1.ContextSpecificConstructed0
         (tlv asn1.SEQUENCE
            (concat (map extension_der es) ++ extension_der bad ++ more))) ->
  minimal_integer (sequenceNumber c) ->
  utc (effectiveDate c) = Some t ->
  Forall2 wf_extension es kinds ->
  oid_of_content (extnID bad) = Some id ->
  Equal id oidCTLogs = true ->
  extnValue bad
  = tlv asn1.SEQUENCE
      (tlv asn1.SEQUENCE
         (elements asn1.INTEGER before ++ tlv asn1.INTEGER v ++ after)
       ++ keys) ->
  ~ fits_int32 (int_value v) ->
  small (envelope_der e) ->
  ParseAuthrootstl utc (mkString b (envelope_der e))
  = Err "error parsing CTL: error parsing CT logs extension: version SEQUENCE contains malformed INTEGER"%string.
Proof.
  intros Henv Hcontent Hmin Hutc Hwf Hoid Heq Hval Hbig Hsmall.
  destruct (ParseAuthrootstl_written utc b e [] [] Henv Hsmall) as [b1 Hparse].
  unfold envelope_der. rewrite Hparse.
  pose proof (small_eContent _ _ _ Hsmall) as Hsc. rewrite Hcontent in *.
  destruct (parseCTL_fields utc b1 c _ Hsc) as [b2 Hfields].
  rewrite Hfields, (checkASN1Integer_minimal _ Hmin), Hutc.
  unfold parseCTL_extensions.
  match goal with
  | |- context [ReadOptionalASN1 _ (mkString ?b0 (tlv ?tg ?x))] =>
      pose proof (ReadOptionalASN1_present b0 tg x []) as Hopt;
      rewrite app_nil_r in Hopt; rewrite Hopt
  end.
  2: auto with der. 2: unfold ctl_with in Hsc; sizes.
  rewrite ReadASN1_tlv_only by (auto with der || (unfold ctl_with in Hsc; sizes)).
  cbn [bytes].
  match goal with
  | |- context [extensions_loop ?f (mkString ?b0 _) ?l] =>
      destruct (extensions_loop_written es kinds f b0
                  (extension_der bad ++ more) l Hwf)
        as (fuel' & b3 & logs' & Hfuel & Hloop & _)
  end.
  { unfold ctl_with in Hsc. sizes. }
  { lia. }
  rewrite Hloop.
  pose proof (length_extension_der bad) as Hlen.
  destruct fuel' as [|fuel']; [rewrite length_app in Hfuel; lia|].
  destruct (extensions_loop_step fuel' b3 bad more logs' id Hoid) as [bv Hstep].
  { unfold ctl_with in Hsc. sizes. }
  rewrite Hstep, Heq, Hval, parseCTLogs_overflow; [reflexivity|assumption|].
  rewrite <- Hval. unfold ctl_with, extension_der in Hsc. sizes.
Qed.

(** C9. The envelope decoder checks for no trailing data: whatever bytes
    follow the outermost SEQUENCE, and whatever follows the content element
    inside its wrapper, a well-formed input still decodes, to the very fields
    it decodes to without them. *)
Theorem C9_bytes_around_the_envelope_are_ignored {Time : Type}
  (utc : list byte -> option Time) (b : nat) (e : SignedData)
  (inner outer : list byte) (c : TrustList) (exts : option (list Extension))
  (t : Time) kinds :
  wf_envelope e ->
  eContent e = ctl_der c exts ->
  wf_trustlist utc c exts t kinds ->
  small (envelope_with e inner outer) ->
  exists ctl plain,
    ParseAuthrootstl utc (mkString b (envelope_with e inner outer)) = Ok ctl
    /\ ParseAuthrootstl utc (mkString b (envelope_der e)) = Ok plain
    /\ SequenceNumber ctl = SequenceNumber plain
    /\ EffectiveDate ctl = EffectiveDate plain
    /\ CTLogsVersion ctl = CTLogsVersion plain
    /\ map bytes (CTLogs ctl) = map bytes (CTLogs plain).
Proof.
  intros Henv Hcontent Hwf Hsmall.
  destruct (decode_written utc b e inner outer c exts t kinds
              Henv Hcontent Hwf Hsmall)
    as (ctl & Hrun & Hseq & Hdate & Hlogs).
  destruct (decode_written utc b e [] [] c exts t kinds Henv Hcontent Hwf
              (small_envelope_der e inner outer Hsmall))
    as (plain & Hrun0 & Hseq0 & Hdate0 & Hlogs0).
  exists ctl, plain. rewrite <- Hlogs0 in Hlogs. inversion Hlogs.
  repeat split; try assumption; congruence.
Qed.

(** C10. With two or more CT-logs extensions the decode succeeds and returns
    the lists of the last one; what the earlier ones gave is overwritten. *)
Theorem C10_last_ctlogs_extension_wins {Time : Type}
  (utc : list byte -> option Time) (b : nat) (e : SignedData) (c : TrustList)
  (es : list Extension) (t : Time) kinds1 kinds2 kinds3
  (earlier : list (list byte) * list (list byte))
  (versions spkis : list (list byte)) :
  wf_envelope e ->
  eContent e = ctl_der c (Some es) ->
  wf_trustlist utc c (Some es) t
    (kinds1 ++ Some earlier :: kinds2 ++ Some (versions, spkis) :: kinds3) ->
  Forall (fun k => k = None) kinds3 ->
  small (envelope_der e) ->
  exists ctl,
    ParseAuthrootstl utc (mkString b (envelope_der e)) = Ok ctl
    /\ CTLogsVersion ctl = map int_value versions
    /\ map bytes (CTLogs ctl) = map (tlv asn1.SEQUENCE) spkis.
Proof.
  intros Henv Hcontent Hwf Hnone Hsmall.
  destruct (decode_written utc b e [] [] c (Some es) t _ Henv Hcontent Hwf Hsmall)
    as (ctl & Hrun & _ & _ & Hlogs).
  change (kinds1 ++ Some earlier :: kinds2 ++ Some (versions, spkis) :: kinds3)
    with (kinds1 ++ (Some earlier :: kinds2) ++ Some (versions, spkis) :: kinds3)
    in Hlogs.
  rewrite app_assoc, last_logs_last in Hlogs by assumption.
  inversion Hlogs as [[Hv Hl]].
  exists ctl. repeat split; assumption.
Qed.

(** ** The properties on the sample inputs *)

Import samples.

Lemma wf_envelope_of (content : list byte) :
  wf_envelope (envelope_of (tlv asn1.SEQUENCE content)).
Proof.
  split.
  - exists [1; 3; 6; 1; 4; 1; 311; 10; 1]. reflexivity.
  - exists asn1.SEQUENCE, content. split; [apply low_SEQUENCE|reflexivity].
Defined.

Lemma wf_scenario_extension :
  wf_extension scenario_extension (Some ([[x01]], [spki10; spki20])).
Proof.
  apply (wf_ctlogs _ oidCTLogs); try reflexivity.
  constructor; [|constructor].
  split; [exact I|]. unfold fits_int32. cbn. lia.
Defined.

Lemma wf_earlier_extension :
  wf_extension earlier_extension (Some ([[x02]], [repeat xcc 4])).
Proof.
  apply (wf_ctlogs _ oidCTLogs); try reflexivity.
  constructor; [|constructor].
  split; [exact I|]. unfold fits_int32. cbn. lia.
Defined.

Lemma wf_other_extension : wf_extension other_extension None.
Proof. apply (wf_other _ [2; 5; 29; 15]); reflexivity. Defined.

Lemma C1_witness :
  valid_input utc_seconds_form (envelope_der scenario)
  /\ (60 < length (envelope_der scenario))%nat
  /\ ParseAuthrootstl utc_seconds_form
       (mkString 0 (firstn 60 (envelope_der scenario)))
     = Err "error parsing PKCS#7: malformed SEQUENCE"%string.
Proof.
  assert (Hvalid : valid_input utc_seconds_form (envelope_der scenario)).
  { split; [vm_compute; reflexivity|]. split.
    - exists asn1.SEQUENCE, (skipn 2 (envelope_der scenario)).
      vm_compute. reflexivity.
    - exists (mkCTL 1 utc_2025_value [1]
                [mkString 90 (tlv asn1.SEQUENCE spki10);
                 mkString 100 (tlv asn1.SEQUENCE spki20)]).
      vm_compute. reflexivity. }
  assert (Hk : (60 < length (envelope_der scenario))%nat)
    by (vm_compute; lia).
  split; [exact Hvalid|]. split; [exact Hk|].
  exact (C1_truncated_input_is_refused utc_seconds_form _ 60 Hvalid Hk).
Defined.

Lemma C2_witness :
  (forall ctl,
     ParseAuthrootstl utc_seconds_form (mkString 0 (envelope_with wide [] []))
     = Ok ctl ->
     SequenceNumber ctl = int_value (sequenceNumber wide_body))
  /\ (forall exts t kinds,
        extensions_block None = extensions_block exts ->
        wf_trustlist utc_seconds_form wide_body exts t kinds ->
        exists ctl,
          ParseAuthrootstl utc_seconds_form
            (mkString 0 (envelope_with wide [] []))
          = Ok ctl
          /\ SequenceNumber ctl = int_value (sequenceNumber wide_body)).
Proof.
  exact (C2_sequence_number_is_exact utc_seconds_form 0 wide [] [] wide_body
           (extensions_block None)
           (wf_envelope_of _) eq_refl ltac:(vm_compute; reflexivity)).
Defined.

(** The sequence number of [wide] has ten octets; it comes back as
    2^72 + 1. *)
Example wide_run :
  ParseAuthrootstl utc_seconds_form (mkString 0 (envelope_der wide))
  = Ok (mkCTL (2 ^ 72 + 1) utc_2025_value [] [])
  /\ int_value (sequenceNumber wide_body) = 2 ^ 72 + 1.
Proof. vm_compute. split; reflexivity. Qed.

Lemma C3_witness :
  ParseAuthrootstl utc_seconds_form (mkString 0 (envelope_der unrelated))
  = Ok (mkCTL (int_value [x01]) utc_2025_value [] []).
Proof.
  apply (C3_without_ctlogs_extension utc_seconds_form 0 unrelated
           scenario_body (Some [other_extension]) utc_2025_value [None]).
  - apply wf_envelope_of.
  - reflexivity.
  - split; [exact I|]. split; [reflexivity|].
    constructor; [apply wf_other_extension|constructor].
  - constructor; [reflexivity|constructor].
  - vm_compute. reflexivity.
Defined.

Lemma C4_witness :
  parseCTL utc_seconds_form
    (mkString 0 (ctl_der scenario_body (Some [scenario_extension]) ++ [x00]))
  = Err "trailing bytes after SEQUENCE"%string.
Proof.
  apply (C4_trailing_bytes_are_refused utc_seconds_form 0 _ [x00]
           (mkCTL 1 utc_2025_value [1]
              [mkString 53 (tlv asn1.SEQUENCE spki10);
               mkString 63 (tlv asn1.SEQUENCE spki20)])).
  - vm_compute. reflexivity.
  - discriminate.
Defined.

Lemma C5_witness :
  exists ctl,
    ParseAuthrootstl utc_seconds_form (mkString 0 (envelope_der scenario))
    = Ok ctl
    /\ map bytes (CTLogs ctl)
       = map (tlv asn1.SEQUENCE) [spki10; spki20]
    /\ length (CTLogs ctl) = length [spki10; spki20]
    /\ CTLogsVersion ctl = map int_value [[x01]]
    /\ SequenceNumber ctl = int_value (sequenceNumber scenario_body)
    /\ EffectiveDate ctl = utc_2025_value.
Proof.
  apply (C5_ctlogs_entries_in_order utc_seconds_form 0 scenario scenario_body
           [scenario_extension] utc_2025_value [] []).
  - apply wf_envelope_of.
  - reflexivity.
  - split; [exact I|]. split; [reflexivity|].
    constructor; [apply wf_scenario_extension|constructor].
  - constructor.
  - vm_compute. reflexivity.
Defined.

(** The scenario of C5 run: two keys of 10 and 20 octets at offsets 90 and
    100 of the input, version list [1], sequence number 1. *)
Example scenario_run :
  ParseAuthrootstl utc_seconds_form (mkString 0 (envelope_der scenario))
  = Ok (mkCTL 1 utc_2025_value [1]
          [mkString 90 (x30 :: x08 :: repeat xaa 8);
           mkString 100 (x30 :: x12 :: repeat xbb 18)]).
Proof. vm_compute. reflexivity. Qed.

(** C6 as stated fails: the first key of the scenario starts at offset 90 of
    the input, and overwriting that byte of the input changes the key the
    CTL holds. *)
Lemma C6_counterexample :
  ~ holds_no_reference utc_seconds_form (envelope_der scenario).
Proof.
  intros Hcopy.
  specialize (Hcopy (mkCTL 1 utc_2025_value [1]
                       [mkString 90 (tlv asn1.SEQUENCE spki10);
                        mkString 100 (tlv asn1.SEQUENCE spki20)])
                90%nat x00 ltac:(vm_compute; reflexivity)).
  vm_compute in Hcopy. discriminate Hcopy.
Qed.

Lemma C6_witness :
  Forall (fun blob =>
            window_of (envelope_der scenario) blob
            /\ forall (i : nat) (v : byte),
                 (base blob <= i < base blob + length (bytes blob))%nat ->
                 nth i (envelope_der scenario) x00 <> v ->
                 load (store (envelope_der scenario) i v) blob <> bytes blob)
         [mkString 90 (tlv asn1.SEQUENCE spki10);
          mkString 100 (tlv asn1.SEQUENCE spki20)].
Proof.
  exact (C6_ctlogs_are_windows_of_the_input utc_seconds_form
           (envelope_der scenario)
           (mkCTL 1 utc_2025_value [1]
              [mkString 90 (tlv asn1.SEQUENCE spki10);
               mkString 100 (tlv asn1.SEQUENCE spki20)])
           ltac:(vm_compute; reflexivity)).
Defined.

Lemma C7_witness :
  outcome (parsePKCS7 (mkString 0 (envelope_der scenario)))
  = outcome
      (parsePKCS7
         (mkString 0
            (envelope_der
               (mkSignedData [x2a; x03] (version scenario)
                  (digestAlgorithms scenario) (eContentType scenario)
                  (eContent scenario) (signerInfos scenario))))).
Proof.
  apply (C7_outer_content_type_is_not_compared 0 oid_signedData [x2a; x03]).
  - vm_compute. reflexivity.
  - vm_compute. reflexivity.
Defined.

Lemma C8_witness :
  ParseAuthrootstl utc_seconds_form (mkString 0 (envelope_der overflowing))
  = Err "error parsing CTL: error parsing CT logs extension: version SEQUENCE contains malformed INTEGER"%string.
Proof.
  apply (C8_version_outside_int32_is_refused utc_seconds_form 0 overflowing
           scenario_body utc_2025_value [other_extension] [None]
           overflowing_extension oidCTLogs [[x01]]
           [x00; x80; x00; x00; x00] [] (elements asn1.SEQUENCE [spki10]) []).
  - apply wf_envelope_of.
  - reflexivity.
  - exact I.
  - reflexivity.
  - constructor; [apply wf_other_extension|constructor].
  - reflexivity.
  - reflexivity.
  - reflexivity.
  - unfold fits_int32. cbn. lia.
  - vm_compute. reflexivity.
Defined.

Lemma C9_witness :
  exists ctl plain,
    ParseAuthrootstl utc_seconds_form
      (mkString 0 (envelope_with scenario [x05; x00] [x00; x00]))
    = Ok ctl
    /\ ParseAuthrootstl utc_seconds_form (mkString 0 (envelope_der scenario))
       = Ok plain
    /\ SequenceNumber ctl = SequenceNumber plain
    /\ EffectiveDate ctl = EffectiveDate plain
    /\ CTLogsVersion ctl = CTLogsVersion plain
    /\ map bytes (CTLogs ctl) = map bytes (CTLogs plain).
Proof.
  apply (C9_bytes_around_the_envelope_are_ignored utc_seconds_form 0 scenario
           [x05; x00] [x00; x00] scenario_body (Some [scenario_extension])
           utc_2025_value [Some ([[x01]], [spki10; spki20])]).
  - apply wf_envelope_of.
  - reflexivity.
  - split; [exact I|]. split; [reflexivity|].
    constructor; [apply wf_scenario_extension|constructor].
  - vm_compute. reflexivity.
Defined.

(** The same input with two bytes after the envelope, and then cut by one:
    both decode, to the keys of the scenario.  Truncation is refused only
    where it reaches into the envelope. *)
Example padded_input_cut_short :
  let padded := envelope_with scenario [] [x00; x00] in
  let decoded :=
    Ok (mkCTL 1 utc_2025_value [1]
          [mkString 90 (tlv asn1.SEQUENCE spki10);
           mkString 100 (tlv asn1.SEQUENCE spki20)]) in
  ParseAuthrootstl utc_seconds_form (mkString 0 padded) = decoded
  /\ ParseAuthrootstl utc_seconds_form
       (mkString 0 (firstn (length padded - 1) padded)) = decoded.
Proof. vm_compute. split; reflexivity. Qed.

Lemma C10_witness :
  exists ctl,
    ParseAuthrootstl utc_seconds_form (mkString 0 (envelope_der twice)) = Ok ctl
    /\ CTLogsVersion ctl = map int_value [[x01]]
    /\ map bytes (CTLogs ctl) = map (tlv asn1.SEQUENCE) [spki10; spki20].
Proof.
  apply (C10_last_ctlogs_extension_wins utc_seconds_form 0 twice scenario_body
           [earlier_extension; other_extension; scenario_extension]
           utc_2025_value [] [None] [] ([[x02]], [repeat xcc 4])).
  - apply wf_envelope_of.
  - reflexivity.
  - split; [exact I|]. split; [reflexivity|].
    constructor; [apply wf_earlier_extension|].
    constructor; [apply wf_other_extension|].
    constructor; [apply wf_scenario_extension|constructor].
  - constructor.
  - vm_compute. reflexivity.
Defined.

(** * Further properties of the decoders *)

(** ** What the envelope decoder refuses *)

(** X1. A buffer of fewer than two bytes, the empty one among them, or one
    that does not begin with the SEQUENCE tag is refused at the first read. *)
Theorem X1_not_a_sequence_is_refused {Time : Type}
  (utc : list byte -> option Time) (b : nat) (input : list byte) :
  (length input < 2)%nat \/ nth 0 input x00 <> asn1.SEQUENCE ->
  ParseAuthrootstl utc (mkString b input)
  = Err "error parsing PKCS#7: malformed SEQUENCE"%string.
Proof.
  intros Hbad. unfold ParseAuthrootstl, parsePKCS7, ReadASN1, ReadAnyASN1.
  destruct (readASN1 true (mkString b input)) as [[[out t] s']|] eqn:Hread;
    [|reflexivity].
  apply readASN1_inv in Hread.
  destruct Hread as (L & h & _ & Hb1 & Hb2 & Ht & _).
  cbn [bytes] in Hb2. unfold index in Ht. cbn [bytes] in Ht.
  destruct Hbad as [Hshort|Htag]; [lia|].
  rewrite byte_eqb_neq by congruence. reflexivity.
Qed.

Lemma X1_witness :
  ((length (@nil byte) < 2)%nat \/ nth 0 (@nil byte) x00 <> asn1.SEQUENCE)
  /\ ParseAuthrootstl utc_seconds_form (mkString 0 [])
     = Err "error parsing PKCS#7: malformed SEQUENCE"%string.
Proof.
  assert (H : (length (@nil byte) < 2)%nat
              \/ nth 0 (@nil byte) x00 <> asn1.SEQUENCE)
    by (left; cbn; lia).
  split; [exact H|].
  exact (X1_not_a_sequence_is_refused utc_seconds_form 0 [] H).
Defined.

(** The envelope up to the inner content type, which is to be decoded. *)
Lemma parsePKCS7_inner_oid (b : nat) (e : SignedData) (inner outer : list byte) :
  small (envelope_with e inner outer) ->
  oid_of_content (eContentType e) = None ->
  parsePKCS7 (mkString b (envelope_with e inner outer))
  = Err "malformed content OBJECT IDENTIFIER"%string.
Proof.
  intros Hsmall Hoid. unfold envelope_with in *. unfold parsePKCS7.
  rewrite ReadASN1_tlv by (auto with der || sizes).
  rewrite SkipASN1_tlv by (auto with der || sizes).
  rewrite ReadASN1_tlv_only by (auto with der || sizes).
  rewrite ReadASN1_tlv_only by (auto with der || sizes).
  rewrite SkipASN1_tlv by (auto with der || sizes).
  rewrite SkipASN1_tlv by (auto with der || sizes).
  rewrite ReadASN1_tlv by (auto with der || sizes).
  rewrite ReadASN1ObjectIdentifier_tlv by sizes. rewrite Hoid.
  reflexivity.
Qed.

(** X2. The inner content type is decoded, unlike the outer one: when its
    octets are no OBJECT IDENTIFIER (none at all, a component cut short or
    padded, one beyond 31 bits) the envelope is refused, whatever the outer
    content type holds. *)
Theorem X2_inner_content_type_must_decode {Time : Type}
  (utc : list byte -> option Time) (b : nat) (e : SignedData)
  (inner outer : list byte) :
  small (envelope_with e inner outer) ->
  oid_of_content (eContentType e) = None ->
  ParseAuthrootstl utc (mkString b (envelope_with e inner outer))
  = Err "error parsing PKCS#7: malformed content OBJECT IDENTIFIER"%string.
Proof.
  intros Hsmall Hoid. unfold ParseAuthrootstl.
  rewrite parsePKCS7_inner_oid by assumption. reflexivity.
Qed.

Lemma X2_witness :
  ParseAuthrootstl utc_seconds_form
    (mkString 0
       (envelope_with
          (mkSignedData [] [x01] [] [x2b; x80; x01] (eContent scenario) [])
          [] []))
  = Err "error parsing PKCS#7: malformed content OBJECT IDENTIFIER"%string.
Proof.
  apply X2_inner_content_type_must_decode.
  - vm_compute. reflexivity.
  - vm_compute. reflexivity.
Defined.

(** X3. parsePKCS7 hands back the arcs of the inner content type and the
    content element whole, header included, whatever the element's tag and
    whatever stands after it. *)
Theorem X3_envelope_yields_the_content_element (b : nat) (e : SignedData)
  (inner outer : list byte) (id : ObjectIdentifier) (tag : byte)
  (c : list byte) :
  oid_of_content (eContentType e) = Some id ->
  low_tag tag ->
  eContent e = tlv tag c ->
  small (envelope_with e inner outer) ->
  outcome (parsePKCS7 (mkString b (envelope_with e inner outer)))
  = Ok (id, tlv tag c).
Proof.
  intros Hoid Htag Hc Hsmall.
  destruct (parsePKCS7_written b e inner outer id Hoid
              (ex_intro _ tag (ex_intro _ c (conj Htag Hc))) Hsmall)
    as [b' Hrun].
  rewrite Hrun. cbn [outcome bytes]. rewrite Hc. reflexivity.
Qed.

Lemma X3_witness :
  outcome
    (parsePKCS7
       (mkString 0
          (envelope_with (envelope_of (tlv asn1.OCTET_STRING [x01; x02]))
             [x05; x00] [xff])))
  = Ok ([1; 3; 6; 1; 4; 1; 311; 10; 1], tlv asn1.OCTET_STRING [x01; x02]).
Proof.
  apply (X3_envelope_yields_the_content_element 0
           (envelope_of (tlv asn1.OCTET_STRING [x01; x02])) [x05; x00] [xff]).
  - reflexivity.
  - apply low_OCTET_STRING.
  - reflexivity.
  - vm_compute. reflexivity.
Defined.

(** X4. The content may be any element for the envelope decoder, but the
    pipeline goes on only with a SEQUENCE: any other tag is refused by the
    trust-list decoder. *)
Theorem X4_content_must_be_a_sequence {Time : Type}
  (utc : list byte -> option Time) (b : nat) (e : SignedData)
  (inner outer : list byte) (id : ObjectIdentifier) (tag : byte)
  (c : list byte) :
  oid_of_content (eContentType e) = Some id ->
  low_tag tag ->
  tag <> asn1.SEQUENCE ->
  eContent e = tlv tag c ->
  small (envelope_with e inner outer) ->
  ParseAuthrootstl utc (mkString b (envelope_with e inner outer))
  = Err "error parsing CTL: malformed SEQUENCE"%string.
Proof.
  intros Hoid Htag Hne Hc Hsmall.
  destruct (parsePKCS7_written b e inner outer id Hoid
              (ex_intro _ tag (ex_intro _ c (conj Htag Hc))) Hsmall)
    as [b' Hrun].
  unfold ParseAuthrootstl. rewrite Hrun. cbn [wrap_error].
  unfold parseCTL. rewrite Hc.
  pose proof (ReadASN1_other b' tag c [] Htag) as Hother.
  rewrite app_nil_r in Hother. rewrite Hother; [reflexivity| |assumption].
  apply small_eContent in Hsmall. rewrite Hc in Hsmall. exact Hsmall.
Qed.

Lemma X4_witness :
  ParseAuthrootstl utc_seconds_form
    (mkString 0
       (envelope_with (envelope_of (tlv asn1.OCTET_STRING [x01; x02])) [] []))
  = Err "error parsing CTL: malformed SEQUENCE"%string.
Proof.
  apply (X4_content_must_be_a_sequence utc_seconds_form 0
           (envelope_of (tlv asn1.OCTET_STRING [x01; x02])) [] []
           [1; 3; 6; 1; 4; 1; 311; 10; 1] asn1.OCTET_STRING [x01; x02]).
  - reflexivity.
  - apply low_OCTET_STRING.
  - discriminate.
  - reflexivity.
  - vm_compute. reflexivity.
Defined.

(** X5. The inner content type is decoded but compared with nothing: two
    well-formed inputs that differ in it alone decode to the same fields. *)
Theorem X5_inner_content_type_is_not_compared {Time : Type}
  (utc : list byte -> option Time) (b : nat) (e : SignedData)
  (oid' : list byte) (c : TrustList) (exts : option (list Extension))
  (t : Time) kinds :
  let e' := mkSignedData (contentType e) (version e) (digestAlgorithms e)
              oid' (eContent e) (signerInfos e) in
  wf_envelope e ->
  (exists id', oid_of_content oid' = Some id') ->
  eContent e = ctl_der c exts ->
  wf_trustlist utc c exts t kinds ->
  small (envelope_der e) ->
  small (envelope_der e') ->
  exists ctl ctl',
    ParseAuthrootstl utc (mkString b (envelope_der e)) = Ok ctl
    /\ ParseAuthrootstl utc (mkString b (envelope_der e')) = Ok ctl'
    /\ SequenceNumber ctl = SequenceNumber ctl'
    /\ EffectiveDate ctl = EffectiveDate ctl'
    /\ CTLogsVersion ctl = CTLogsVersion ctl'
    /\ map bytes (CTLogs ctl) = map bytes (CTLogs ctl').
Proof.
  intros e' Henv Hoid' Hcontent Hwf Hsmall Hsmall'.
  assert (Henv' : wf_envelope e')
    by (split; [exact Hoid'|destruct Henv as [_ H]; exact H]).
  destruct (decode_written utc b e [] [] c exts t kinds Henv Hcontent Hwf Hsmall)
    as (ctl & Hrun & Hseq & Hdate & Hlogs).
  destruct (decode_written utc b e' [] [] c exts t kinds Henv' Hcontent Hwf
              Hsmall')
    as (ctl' & Hrun' & Hseq' & Hdate' & Hlogs').
  exists ctl, ctl'. rewrite <- Hlogs' in Hlogs. inversion Hlogs.
  repeat split; try assumption; congruence.
Qed.

Lemma X5_witness :
  exists ctl ctl',
    ParseAuthrootstl utc_seconds_form (mkString 0 (envelope_der scenario))
    = Ok ctl
    /\ ParseAuthrootstl utc_seconds_form
         (mkString 0
            (envelope_der
               (mkSignedData (contentType scenario) (version scenario)
                  (digestAlgorithms scenario) oid_keyUsage
                  (eContent scenario) (signerInfos scenario))))
       = Ok ctl'
    /\ SequenceNumber ctl = SequenceNumber ctl'
    /\ EffectiveDate ctl = EffectiveDate ctl'
    /\ CTLogsVersion ctl = CTLogsVersion ctl'
    /\ map bytes (CTLogs ctl) = map bytes (CTLogs ctl').
Proof.
  apply (X5_inner_content_type_is_not_compared utc_seconds_form 0 scenario
           oid_keyUsage scenario_body (Some [scenario_extension])
           utc_2025_value [Some ([[x01]], [spki10; spki20])]).
  - apply wf_envelope_of.
  - exists [2; 5; 29; 15]. reflexivity.
  - reflexivity.
  - split; [exact I|]. split; [reflexivity|].
    constructor; [apply wf_scenario_extension|constructor].
  - vm_compute. reflexivity.
  - vm_compute. reflexivity.
Defined.

(** ** The mandatory fields of the trust list *)

(** X6. A sequence number that is not in its shortest form (no octets, or a
    first octet that only repeats the sign) is refused; the number is not
    read leniently. *)
Theorem X6_padded_sequence_number_is_refused {Time : Type}
  (utc : list byte -> option Time) (b : nat) (e : SignedData)
  (inner outer : list byte) (c : TrustList) (block : list byte) :
  wf_envelope e ->
  eContent e = ctl_with c block ->
  ~ minimal_integer (sequenceNumber c) ->
  small (envelope_with e inner outer) ->
  ParseAuthrootstl utc (mkString b (envelope_with e inner outer))
  = Err "error parsing CTL: malformed sequence number INTEGER"%string.
Proof.
  intros Henv Hcontent Hpad Hsmall.
  destruct (ParseAuthrootstl_written utc b e inner outer Henv Hsmall)
    as [b1 Hparse].
  rewrite Hparse, Hcontent.
  apply small_eContent in Hsmall. rewrite Hcontent in Hsmall.
  destruct (parseCTL_fields utc b1 c block Hsmall) as [b2 Hfields].
  rewrite Hfields.
  destruct (checkASN1Integer (sequenceNumber c)) eqn:Hcheck; [|reflexivity].
  apply minimal_checkASN1Integer in Hcheck. contradiction.
Qed.

Lemma X6_witness :
  ParseAuthrootstl utc_seconds_form
    (mkString 0
       (envelope_with
          (envelope_of (ctl_with (mkTrustList [] [x00; x01] utc_2025 [] []) []))
          [] []))
  = Err "error parsing CTL: malformed sequence number INTEGER"%string.
Proof.
  apply (X6_padded_sequence_number_is_refused utc_seconds_form 0 _ [] []
           (mkTrustList [] [x00; x01] utc_2025 [] []) []).
  - apply wf_envelope_of.
  - reflexivity.
  - cbn. intros [H _]. apply H. split; lia.
  - vm_compute. reflexivity.
Defined.

Lemma int_value_negative (b0 : byte) (bs : list byte) :
  128 <= u8 b0 -> int_value (b0 :: bs) < 0.
Proof.
  intros Hneg. rewrite int_value_cons.
  replace (128 <=? u8 b0) with true by (symmetry; apply Z.leb_le; exact Hneg).
  pose proof (unsigned_from_range (b0 :: bs)). lia.
Qed.

(** X7. Nothing asks the sequence number to be non-negative: an INTEGER with
    the sign bit set is accepted and the CTL carries the negative number. *)
Theorem X7_negative_sequence_number_is_accepted {Time : Type}
  (utc : list byte -> option Time) (b : nat) (e : SignedData) (c : TrustList)
  (exts : option (list Extension)) (t : Time) kinds (b0 : byte)
  (rest : list byte) :
  wf_envelope e ->
  eContent e = ctl_der c exts ->
  wf_trustlist utc c exts t kinds ->
  sequenceNumber c = b0 :: rest ->
  128 <= u8 b0 ->
  small (envelope_der e) ->
  exists ctl,
    ParseAuthrootstl utc (mkString b (envelope_der e)) = Ok ctl
    /\ SequenceNumber ctl = int_value (sequenceNumber c)
    /\ SequenceNumber ctl < 0.
Proof.
  intros Henv Hcontent Hwf Hseq Hneg Hsmall.
  destruct (decode_written utc b e [] [] c exts t kinds Henv Hcontent Hwf Hsmall)
    as (ctl & Hrun & Hnum & _).
  exists ctl. repeat split; try assumption.
  rewrite Hnum, Hseq. apply int_value_negative. exact Hneg.
Qed.

Lemma X7_witness :
  exists ctl,
    ParseAuthrootstl utc_seconds_form
      (mkString 0
         (envelope_der
            (envelope_of
               (ctl_der (mkTrustList [] [xff; x7f] utc_2025 [] []) None))))
    = Ok ctl
    /\ SequenceNumber ctl = int_value [xff; x7f]
    /\ SequenceNumber ctl < 0.
Proof.
  apply (X7_negative_sequence_number_is_accepted utc_seconds_form 0 _
           (mkTrustList [] [xff; x7f] utc_2025 [] []) None utc_2025_value []
           xff [x7f]).
  - apply wf_envelope_of.
  - reflexivity.
  - split; [cbn; split; intros [H1 H2]; lia|]. split; reflexivity.
  - reflexivity.
  - cbn. lia.
  - vm_compute. reflexivity.
Defined.

(** X8. An effective date the time parser does not take is refused; the
    sequence number read before it is not returned. *)
Theorem X8_refused_date_is_an_error {Time : Type}
  (utc : list byte -> option Time) (b : nat) (e : SignedData)
  (inner outer : list byte) (c : TrustList) (block : list byte) :
  wf_envelope e ->
  eContent e = ctl_with c block ->
  minimal_integer (sequenceNumber c) ->
  utc (effectiveDate c) = None ->
  small (envelope_with e inner outer) ->
  ParseAuthrootstl utc (mkString b (envelope_with e inner outer))
  = Err "error parsing CTL: malformed effective date UTCTIME"%string.
Proof.
  intros Henv Hcontent Hmin Hdate Hsmall.
  destruct (ParseAuthrootstl_written utc b e inner outer Henv Hsmall)
    as [b1 Hparse].
  rewrite Hparse, Hcontent.
  apply small_eContent in Hsmall. rewrite Hcontent in Hsmall.
  destruct (parseCTL_fields utc b1 c block Hsmall) as [b2 Hfields].
  rewrite Hfields, (checkASN1Integer_minimal _ Hmin), Hdate. reflexivity.
Qed.

Lemma X8_witness :
  ParseAuthrootstl utc_seconds_form
    (mkString 0
       (envelope_with
          (envelope_of
             (ctl_with (mkTrustList [] [x01] (removelast utc_2025) [] []) []))
          [] []))
  = Err "error parsing CTL: malformed effective date UTCTIME"%string.
Proof.
  apply (X8_refused_date_is_an_error utc_seconds_form 0 _ [] []
           (mkTrustList [] [x01] (removelast utc_2025) [] []) []).
  - apply wf_envelope_of.
  - reflexivity.
  - exact I.
  - reflexivity.
  - vm_compute. reflexivity.
Defined.

(** ** What the trust-list decoder does not look at *)

(** The extensions block with [inside] after the SEQUENCE of extensions in
    the [[0]] wrapper and [after] behind the wrapper. *)
Lemma parseCTL_extensions_padded {Time : Type} (b : nat) (n : Z) (t : Time)
  (es : list Extension) kinds (inside after : list byte) :
  Forall2 wf_extension es kinds ->
  small (tlv asn1.ContextSpecificConstructed0
           (tlv asn1.SEQUENCE (concat (map extension_der es)) ++ inside)
         ++ after) ->
  exists ctl,
    parseCTL_extensions n t
      (mkString b
         (tlv asn1.ContextSpecificConstructed0
            (tlv asn1.SEQUENCE (concat (map extension_der es)) ++ inside)
          ++ after))
    = Ok ctl
    /\ SequenceNumber ctl = n /\ EffectiveDate ctl = t
    /\ (CTLogsVersion ctl, map bytes (CTLogs ctl)) = last_logs kinds ([], []).
Proof.
  intros Hwf Hsmall. unfold parseCTL_extensions.
  rewrite ReadOptionalASN1_present by (auto with der || sizes).
  rewrite ReadASN1_tlv by (auto with der || sizes). cbn [bytes].
  match goal with
  | |- context [extensions_loop ?f (mkString ?b0 _) ?l] =>
      destruct (extensions_loop_written es kinds f b0 [] l Hwf)
        as (fuel' & b' & logs' & _ & Hloop & Hshown)
  end.
  { rewrite app_nil_r. sizes. }
  { rewrite app_nil_r. lia. }
  rewrite app_nil_r in Hloop. rewrite Hloop, extensions_loop_end.
  destruct logs' as [v l]. eexists. split; [reflexivity|].
  cbn [SequenceNumber EffectiveDate CTLogsVersion CTLogs].
  repeat split. exact Hshown.
Qed.

(** X9. After the extensions nothing is checked: bytes behind the SEQUENCE
    of extensions inside the [[0]] wrapper, and bytes behind the wrapper up to
    the end of the trust list, are passed over and the decode gives the fields
    of the well-formed part. *)
Theorem X9_bytes_after_the_extensions_are_ignored {Time : Type}
  (utc : list byte -> option Time) (b : nat) (e : SignedData) (c : TrustList)
  (es : list Extension) (t : Time) kinds (inside after : list byte) :
  wf_envelope e ->
  eContent e
  = ctl_with c
      (tlv asn1.ContextSpecificConstructed0
         (tlv asn1.SEQUENCE (concat (map extension_der es)) ++ inside)
       ++ after) ->
  wf_trustlist utc c (Some es) t kinds ->
  small (envelope_der e) ->
  exists ctl,
    ParseAuthrootstl utc (mkString b (envelope_der e)) = Ok ctl
    /\ SequenceNumber ctl = int_value (sequenceNumber c)
    /\ EffectiveDate ctl = t
    /\ (CTLogsVersion ctl, map bytes (CTLogs ctl)) = last_logs kinds ([], []).
Proof.
  intros Henv Hcontent (Hmin & Hdate & Hwf) Hsmall.
  destruct (ParseAuthrootstl_written utc b e [] [] Henv Hsmall) as [b1 Hparse].
  unfold envelope_der. rewrite Hparse, Hcontent.
  apply small_eContent in Hsmall. rewrite Hcontent in Hsmall.
  destruct (parseCTL_fields utc b1 c _ Hsmall) as [b2 Hfields].
  rewrite Hfields, (checkASN1Integer_minimal _ Hmin), Hdate.
  destruct (parseCTL_extensions_padded b2 (int_value (sequenceNumber c)) t
              es kinds inside after Hwf)
    as (ctl & Hrun & Hrest).
  { unfold ctl_with in Hsmall. sizes. }
  exists ctl. rewrite Hrun. split; [reflexivity|exact Hrest].
Qed.

Lemma X9_witness :
  exists ctl,
    ParseAuthrootstl utc_seconds_form
      (mkString 0
         (envelope_der
            (envelope_of
               (ctl_with scenario_body
                  (tlv asn1.ContextSpecificConstructed0
                     (tlv asn1.SEQUENCE
                        (concat (map extension_der [scenario_extension]))
                      ++ [xde; xad])
                   ++ [xbe; xef])))))
    = Ok ctl
    /\ SequenceNumber ctl = int_value (sequenceNumber scenario_body)
    /\ EffectiveDate ctl = utc_2025_value
    /\ (CTLogsVersion ctl, map bytes (CTLogs ctl))
       = last_logs [Some ([[x01]], [spki10; spki20])] ([], []).
Proof.
  apply (X9_bytes_after_the_extensions_are_ignored utc_seconds_form 0 _
           scenario_body [scenario_extension] utc_2025_value
           [Some ([[x01]], [spki10; spki20])] [xde; xad] [xbe; xef]).
  - apply wf_envelope_of.
  - reflexivity.
  - split; [exact I|]. split; [reflexivity|].
    constructor; [apply wf_scenario_extension|constructor].
  - vm_compute. reflexivity.
Defined.

(** X10. What follows the entries counts as the extensions only when it
    begins with the [[0]] tag; anything else there is taken as no extensions
    at all and left unread. *)
Theorem X10_other_data_after_the_entries_is_no_extension {Time : Type}
  (utc : list byte -> option Time) (b : nat) (e : SignedData) (c : TrustList)
  (t : Time) (first : byte) (more : list byte) :
  wf_envelope e ->
  eContent e = ctl_with c (first :: more) ->
  minimal_integer (sequenceNumber c) ->
  utc (effectiveDate c) = Some t ->
  first <> asn1.ContextSpecificConstructed0 ->
  small (envelope_der e) ->
  ParseAuthrootstl utc (mkString b (envelope_der e))
  = Ok (mkCTL (int_value (sequenceNumber c)) t [] []).
Proof.
  intros Henv Hcontent Hmin Hdate Hfirst Hsmall.
  destruct (ParseAuthrootstl_written utc b e [] [] Henv Hsmall) as [b1 Hparse].
  unfold envelope_der. rewrite Hparse, Hcontent.
  apply small_eContent in Hsmall. rewrite Hcontent in Hsmall.
  destruct (parseCTL_fields utc b1 c _ Hsmall) as [b2 Hfields].
  rewrite Hfields, (checkASN1Integer_minimal _ Hmin), Hdate.
  unfold parseCTL_extensions, ReadOptionalASN1, PeekASN1Tag, index.
  cbn [len bytes length nth].
  rewrite byte_eqb_neq by assumption. reflexivity.
Qed.

Lemma X10_witness :
  ParseAuthrootstl utc_seconds_form
    (mkString 0
       (envelope_der
          (envelope_of
             (ctl_with scenario_body
                (extension_der scenario_extension)))))
  = Ok (mkCTL (int_value [x01]) utc_2025_value [] []).
Proof.
  apply (X10_other_data_after_the_entries_is_no_extension utc_seconds_form 0 _
           scenario_body utc_2025_value asn1.SEQUENCE
           (tl (extension_der scenario_extension))).
  - apply wf_envelope_of.
  - reflexivity.
  - exact I.
  - reflexivity.
  - discriminate.
  - vm_compute. reflexivity.
Defined.

(** X11. One extension whose OID does not decode fails the whole decode, also
    after a CT-logs extension has been read: no CTL with the lists found so
    far is returned. *)
Theorem X11_malformed_extension_fails_the_decode {Time : Type}
  (utc : list byte -> option Time) (b : nat) (e : SignedData) (c : TrustList)
  (t : Time) (es : list Extension) kinds (oid fields more : list byte) :
  wf_envelope e ->
  eContent e
  = ctl_with c
      (tlv asn1.ContextSpecificConstructed0
         (tlv asn1.SEQUENCE
            (concat (map extension_der es)
             ++ tlv asn1.SEQUENCE (tlv asn1.OBJECT_IDENTIFIER oid ++ fields)
             ++ more))) ->
  minimal_integer (sequenceNumber c) ->
  utc (effectiveDate c) = Some t ->
  Forall2 wf_extension es kinds ->
  oid_of_content oid = None ->
  small (envelope_der e) ->
  ParseAuthrootstl utc (mkString b (envelope_der e))
  = Err "error parsing CTL: malformed extension OBJECT IDENTIFIER"%string.
Proof.
  intros Henv Hcontent Hmin Hdate Hwf Hoid Hsmall.
  destruct (ParseAuthrootstl_written utc b e [] [] Henv Hsmall) as [b1 Hparse].
  unfold envelope_der. rewrite Hparse.
  pose proof (small_eContent _ _ _ Hsmall) as Hsc. rewrite Hcontent in *.
  destruct (parseCTL_fields utc b1 c _ Hsc) as [b2 Hfields].
  rewrite Hfields, (checkASN1Integer_minimal _ Hmin), Hdate.
  unfold parseCTL_extensions.
  match goal with
  | |- context [ReadOptionalASN1 _ (mkString ?b0 (tlv ?tg ?x))] =>
      pose proof (ReadOptionalASN1_present b0 tg x []) as Hopt;
      rewrite app_nil_r in Hopt; rewrite Hopt
  end.
  2: auto with der. 2: unfold ctl_with in Hsc; sizes.
  rewrite ReadASN1_tlv_only by (auto with der || (unfold ctl_with in Hsc; sizes)).
  cbn [bytes].
  match goal with
  | |- context [extensions_loop ?f (mkString ?b0 _) ?l] =>
      destruct (extensions_loop_written es kinds f b0
                  (tlv asn1.SEQUENCE
                     (tlv asn1.OBJECT_IDENTIFIER oid ++ fields) ++ more)
                  l Hwf)
        as (fuel' & b3 & logs' & Hfuel & Hloop & _)
  end.
  { unfold ctl_with in Hsc. sizes. }
  { lia. }
  rewrite Hloop.
  destruct fuel' as [|fuel'].
  { exfalso.
    pose proof (length_tlv_ge asn1.SEQUENCE
                  (tlv asn1.OBJECT_IDENTIFIER oid ++ fields)).
    rewrite length_app in Hfuel. lia. }
  cbn [extensions_loop]. rewrite Empty_tlv_app. cbn [negb].
  rewrite ReadASN1_tlv by (auto with der || (unfold ctl_with in Hsc; sizes)).
  rewrite ReadASN1ObjectIdentifier_tlv by (unfold ctl_with in Hsc; sizes).
  rewrite Hoid. reflexivity.
Qed.

Lemma X11_witness :
  ParseAuthrootstl utc_seconds_form
    (mkString 0
       (envelope_der
          (envelope_of
             (ctl_with scenario_body
                (tlv asn1.ContextSpecificConstructed0
                   (tlv asn1.SEQUENCE
                      (concat (map extension_der [scenario_extension])
                       ++ tlv asn1.SEQUENCE
                            (tlv asn1.OBJECT_IDENTIFIER [x2b; x86]
                             ++ tlv asn1.OCTET_STRING [])
                       ++ [])))))))
  = Err "error parsing CTL: malformed extension OBJECT IDENTIFIER"%string.
Proof.
  apply (X11_malformed_extension_fails_the_decode utc_seconds_form 0 _
           scenario_body utc_2025_value [scenario_extension]
           [Some ([[x01]], [spki10; spki20])] [x2b; x86]
           (tlv asn1.OCTET_STRING []) []).
  - apply wf_envelope_of.
  - reflexivity.
  - exact I.
  - reflexivity.
  - constructor; [apply wf_scenario_extension|constructor].
  - reflexivity.
  - vm_compute. reflexivity.
Defined.

(** ** The CT-logs value *)

(** X12. The value of the CT-logs extension is one SEQUENCE and nothing
    more: a value parseCTLogs accepts, followed by any byte, is refused for
    its trailing bytes. *)
Theorem X12_ctlogs_value_with_trailing_bytes_is_refused (b : nat)
  (value extra : list byte) (logs : list Z * list String) :
  parseCTLogs (mkString b value) = Ok logs ->
  extra <> [] ->
  parseCTLogs (mkString b (value ++ extra))
  = Err "trailing bytes after SEQUENCE"%string.
Proof.
  intros Hrun Hextra. unfold parseCTLogs in *.
  unfold ReadASN1 at 1, ReadAnyASN1 at 1.
  unfold ReadASN1 at 1, ReadAnyASN1 at 1 in Hrun.
  destruct (readASN1 true (mkString b value)) as [[[out t] s']|] eqn:Hread;
    [|discriminate].
  rewrite (readASN1_app true b value extra out s' t Hread).
  destruct (Byte.eqb t asn1.SEQUENCE); [|discriminate].
  destruct (Empty s') eqn:Hempty; [|discriminate].
  apply Empty_nil in Hempty. rewrite Hempty. cbn [app].
  replace (Empty (mkString (base s') extra)) with false; [reflexivity|].
  destruct extra; [congruence|reflexivity].
Qed.

Lemma X12_witness :
  parseCTLogs (mkString 0 (ctlogs_value [[x01]] [spki10; spki20] ++ [x00]))
  = Err "trailing bytes after SEQUENCE"%string.
Proof.
  apply (X12_ctlogs_value_with_trailing_bytes_is_refused 0 _ [x00]
           ([1], [mkString 7 (tlv asn1.SEQUENCE spki10);
                  mkString 17 (tlv asn1.SEQUENCE spki20)])).
  - vm_compute. reflexivity.
  - discriminate.
Defined.

Lemma pubkeys_loop_other_tag (spkis : list (list byte)) :
  forall (fuel b : nat) (acc : list String) (tag : byte) (c after : list byte),
  low_tag tag -> tag <> asn1.SEQUENCE ->
  small (elements asn1.SEQUENCE spkis ++ tlv tag c ++ after) ->
  (length (elements asn1.SEQUENCE spkis ++ tlv tag c ++ after) <= fuel)%nat ->
  pubkeys_loop fuel
    (mkString b (elements asn1.SEQUENCE spkis ++ tlv tag c ++ after)) acc
  = Err "malformed SPKI SEQUENCE"%string.
Proof.
  induction spkis as [|k ks IH]; intros fuel b acc tag c after Htag Hne Hsmall Hfuel.
  - cbn [elements map concat app] in *.
    destruct fuel as [|fuel]; [exfalso; sizes|].
    cbn [pubkeys_loop]. rewrite Empty_tlv_app. cbn [negb].
    unfold ReadASN1Element, ReadAnyASN1Element.
    rewrite readASN1_tlv by (assumption || sizes).
    rewrite byte_eqb_neq by assumption. reflexivity.
  - change (elements asn1.SEQUENCE (k :: ks))
      with (tlv asn1.SEQUENCE k ++ elements asn1.SEQUENCE ks) in *.
    rewrite <- app_assoc in *.
    destruct fuel as [|fuel]; [exfalso; sizes|].
    cbn [pubkeys_loop]. rewrite Empty_tlv_app. cbn [negb].
    rewrite ReadASN1Element_tlv by (auto with der || sizes).
    apply IH; [assumption|assumption|sizes|sizes].
Qed.

(** X13. Behind the versions only SEQUENCE elements may stand: one element
    of another tag among the keys fails parseCTLogs, the keys before it are
    not returned. *)
Theorem X13_key_of_another_tag_is_refused (b : nat)
  (versions spkis : list (list byte)) (tag : byte) (c after : list byte) :
  wf_versions versions ->
  low_tag tag ->
  tag <> asn1.SEQUENCE ->
  small (tlv asn1.SEQUENCE
           (tlv asn1.SEQUENCE (elements asn1.INTEGER versions)
            ++ elements asn1.SEQUENCE spkis ++ tlv tag c ++ after)) ->
  parseCTLogs
    (mkString b
       (tlv asn1.SEQUENCE
          (tlv asn1.SEQUENCE (elements asn1.INTEGER versions)
           ++ elements asn1.SEQUENCE spkis ++ tlv tag c ++ after)))
  = Err "malformed SPKI SEQUENCE"%string.
Proof.
  intros Hwf Htag Hne Hsmall. unfold parseCTLogs.
  rewrite ReadASN1_tlv_only by (auto with der || sizes).
  cbn [Empty len bytes length Z.of_nat Z.eqb negb].
  rewrite ReadASN1_tlv by (auto with der || sizes). cbn [bytes].
  rewrite versions_loop_written by (assumption || sizes || lia).
  rewrite pubkeys_loop_other_tag; [reflexivity|assumption|assumption| |lia].
  unfold small in *.
  pose proof (length_tlv_ge asn1.SEQUENCE
                (tlv asn1.SEQUENCE (elements asn1.INTEGER versions)
                 ++ elements asn1.SEQUENCE spkis ++ tlv tag c ++ after)).
  rewrite (length_app (tlv asn1.SEQUENCE _)) in *. lia.
Qed.

Lemma X13_witness :
  parseCTLogs
    (mkString 0
       (tlv asn1.SEQUENCE
          (tlv asn1.SEQUENCE (elements asn1.INTEGER [[x01]])
           ++ elements asn1.SEQUENCE [spki10]
           ++ tlv asn1.SET spki20 ++ [])))
  = Err "malformed SPKI SEQUENCE"%string.
Proof.
  apply (X13_key_of_another_tag_is_refused 0 [[x01]] [spki10] asn1.SET
           spki20 []).
  - constructor; [|constructor].
    split; [exact I|]. unfold fits_int32. cbn. lia.
  - apply low_SET.
  - discriminate.
  - vm_compute. reflexivity.
Defined.

(** ** What every returned list holds *)

Section ReturnedLists.

(** Whatever holds of every int32 read and of every SEQUENCE element read
    holds of the lists a decode returns: they are filled by these reads
    alone. *)
Variable PV : Z -> Prop.
Variable PK : String -> Prop.
Hypothesis HV : forall s i s', ReadASN1Integer_int32 s = Some (i, s') -> PV i.
Hypothesis HK :
  forall s k s', ReadASN1Element asn1.SEQUENCE s = Some (k, s') -> PK k.

Lemma versions_loop_all (fuel : nat) :
  forall (s : String) (acc version : list Z),
  versions_loop fuel s acc = Ok version -> Forall PV acc -> Forall PV version.
Proof.
  induction fuel as [|fuel IH]; intros s acc version; cbn [versions_loop].
  - intros Heq; inversion Heq; subst. tauto.
  - destruct (negb (Empty s)).
    + destruct (ReadASN1Integer_int32 s) as [[i s']|] eqn:E; [|discriminate].
      intros Hloop Hacc. eapply IH; [eassumption|].
      apply Forall_app. split; [assumption|].
      constructor; [eapply HV; eassumption|constructor].
    + intros Heq; inversion Heq; subst. tauto.
Qed.

Lemma pubkeys_loop_all (fuel : nat) :
  forall (s : String) (acc pubkeys : list String),
  pubkeys_loop fuel s acc = Ok pubkeys -> Forall PK acc -> Forall PK pubkeys.
Proof.
  induction fuel as [|fuel IH]; intros s acc pubkeys; cbn [pubkeys_loop].
  - intros Heq; inversion Heq; subst. tauto.
  - destruct (negb (Empty s)).
    + destruct (ReadASN1Element _ s) as [[k s']|] eqn:E; [|discriminate].
      intros Hloop Hacc. eapply IH; [eassumption|].
      apply Forall_app. split; [assumption|].
      constructor; [eapply HK; eassumption|constructor].
    + intros Heq; inversion Heq; subst. tauto.
Qed.

Lemma parseCTLogs_all (s : String) (version : list Z) (pubkeys : list String) :
  parseCTLogs s = Ok (version, pubkeys) ->
  Forall PV version /\ Forall PK pubkeys.
Proof.
  unfold parseCTLogs.
  destruct (ReadASN1 _ s) as [[sequence der]|]; [|discriminate].
  destruct (negb (Empty der)); [discriminate|].
  destruct (ReadASN1 _ sequence) as [[vs sequence']|]; [|discriminate].
  destruct (versions_loop _ _ _) as [v|] eqn:E1; [|discriminate].
  destruct (pubkeys_loop _ _ _) as [l|] eqn:E2; [|discriminate].
  intros Heq; inversion Heq; subst. split.
  - eapply versions_loop_all; [eassumption|constructor].
  - eapply pubkeys_loop_all; [eassumption|constructor].
Qed.

Lemma extensions_loop_all (fuel : nat) :
  forall (s : String) (logs logs' : list Z * list String),
  extensions_loop fuel s logs = Ok logs' ->
  Forall PV (fst logs) /\ Forall PK (snd logs) ->
  Forall PV (fst logs') /\ Forall PK (snd logs').
Proof.
  induction fuel as [|fuel IH]; intros s logs logs'; cbn [extensions_loop].
  - intros Heq; inversion Heq; subst. tauto.
  - destruct (negb (Empty s)).
    + destruct (ReadASN1 _ s) as [[e s']|]; [|discriminate].
      destruct (ReadASN1ObjectIdentifier e) as [[id e1]|]; [|discriminate].
      destruct (SkipOptionalASN1 _ e1) as [e2|]; [|discriminate].
      destruct (ReadASN1 _ e2) as [[v e3]|]; [|discriminate].
      intros Hloop Hacc.
      destruct (Equal id oidCTLogs).
      * unfold wrap_error in Hloop.
        destruct (parseCTLogs v) as [[ver keys]|] eqn:E5; [|discriminate].
        eapply IH; [eassumption|]. cbn [fst snd].
        exact (parseCTLogs_all _ _ _ E5).
      * eapply IH; eassumption.
    + intros Heq; inversion Heq; subst. tauto.
Qed.

Lemma parseCTL_all {Time : Type} (utc : list byte -> option Time)
  (s : String) (ctl : CTL Time) :
  parseCTL utc s = Ok ctl ->
  Forall PV (CTLogsVersion ctl) /\ Forall PK (CTLogs ctl).
Proof.
  unfold parseCTL. intros H.
  destruct (ReadASN1 _ s) as [[s1 der]|]; [|discriminate].
  destruct (negb (Empty der)); [discriminate|].
  destruct (SkipASN1 _ s1) as [s2|]; [|discriminate].
  destruct (ReadASN1Integer_big s2) as [[n s3]|]; [|discriminate].
  destruct (ReadASN1UTCTime Time utc s3) as [[t s4]|]; [|discriminate].
  destruct (SkipASN1 _ s4) as [s5|]; [|discriminate].
  destruct (SkipASN1 _ s5) as [s6|]; [|discriminate].
  destruct (ReadOptionalASN1 _ s6) as [[[ext present] s7]|]; [|discriminate].
  destruct present.
  - destruct (ReadASN1 _ ext) as [[ext' junk]|]; [|discriminate].
    destruct (extensions_loop _ _ _) as [[ver keys]|] eqn:E9; [|discriminate].
    inversion H; subst. cbn [CTLogs CTLogsVersion].
    apply extensions_loop_all in E9; [exact E9|].
    split; constructor.
  - inversion H; subst. split; constructor.
Qed.

Lemma ParseAuthrootstl_all {Time : Type} (utc : list byte -> option Time)
  (s : String) (ctl : CTL Time) :
  ParseAuthrootstl utc s = Ok ctl ->
  Forall PV (CTLogsVersion ctl) /\ Forall PK (CTLogs ctl).
Proof.
  unfold ParseAuthrootstl, wrap_error. intros H.
  destruct (parsePKCS7 s) as [[id content]|]; [|discriminate].
  destruct (parseCTL utc content) as [c|] eqn:E; [|discriminate].
  inversion H; subst. eapply parseCTL_all. eassumption.
Qed.

End ReturnedLists.

(** What the reader accepts is what the writer writes. *)

Lemma byte_of_Z_mod (z : Z) : byte_of_Z (z mod 256) = byte_of_Z z.
Proof. unfold byte_of_Z. rewrite Z.mod_mod by lia. reflexivity. Qed.

Lemma be_digits_unsigned (bs : list byte) :
  be_digits (length bs) (unsigned_from 0 bs) = bs.
Proof.
  induction bs as [|b bs IH] using rev_ind; [reflexivity|].
  rewrite length_app, Nat.add_1_r, unsigned_from_app.
  cbn [length be_digits unsigned_from fold_left].
  pose proof (u8_range b) as Hb.
  replace ((unsigned_from 0 bs * 256 + u8 b) / 256) with (unsigned_from 0 bs)
    by (rewrite Z.div_add_l, Z.div_small by lia; lia).
  rewrite IH. f_equal. f_equal. apply u8_inj.
  rewrite u8_byte_of_Z, Z.add_comm, Z.mod_add by lia.
  apply Z.mod_small. lia.
Qed.

Lemma length_octets_of_long (k : nat) (n : Z) :
  (1 <= k <= 4)%nat -> 128 <= n ->
  256 ^ (Z.of_nat k - 1) <= n < 256 ^ Z.of_nat k ->
  length_octets n = byte_of_Z (128 + Z.of_nat k) :: be_digits k n.
Proof.
  intros Hk H128 Hn. unfold length_octets.
  assert (Hcase : (k = 1 \/ k = 2 \/ k = 3 \/ k = 4)%nat) by lia.
  destruct Hcase as [->|[->|[->| ->]]];
    cbn [Z.of_nat Pos.of_succ_nat Pos.succ] in Hn;
    repeat match goal with
           | |- context [?a <? ?b] => destruct (Z.ltb_spec a b); try lia
           end; reflexivity.
Qed.

Lemma readASN1_header_canonical (b : nat) (l : list byte) (L h : Z) :
  (2 <= length l)%nat ->
  readASN1_header (mkString b l) = Some (L, h) ->
  exists tail,
    l = nth 0 l x00 :: length_octets (L - h) ++ tail
    /\ h = Z.of_nat (header_len (L - h)).
Proof.
  intros H2 Hh.
  pose proof (readASN1_header_inv _ _ _ Hh) as (Hh1 & Hh2 & Hh3).
  destruct l as [|b0 [|b1 l2]]; cbn [length] in H2; try lia.
  revert Hh Hh3. unfold readASN1_header, index, len. cbn [bytes base nth].
  rewrite high_bit_clear, low7.
  pose proof (u8_range b1) as Hb1.
  destruct (Z.ltb_spec (u8 b1) 128) as [Hshort|Hlong].
  - intros Heq _.
    assert (HLh : L = wrap_u32 (u8 b1 + 2) /\ h = 2) by (split; congruence).
    destruct HLh as [-> ->]. rewrite wrap_u32_small by lia.
    replace (u8 b1 + 2 - 2) with (u8 b1) by lia.
    exists l2. unfold header_len, length_octets.
    replace (u8 b1 <? 128) with true by (symmetry; apply Z.ltb_lt; lia).
    rewrite byte_of_Z_u8. split; reflexivity.
  - assert (Hk : u8 b1 = 128 + u8 b1 mod 128)
      by (rewrite <- (Z.mod_unique (u8 b1) 128 1 (u8 b1 - 128)); lia).
    assert (0 <= u8 b1 mod 128 < 128) by (apply Z.mod_pos_bound; lia).
    set (lenLen := u8 b1 mod 128) in *. clearbody lenLen.
    cbn [length skipn].
    destruct (Z.eqb_spec lenLen 0), (Z.ltb_spec 4 lenLen),
      (Z.ltb_spec (Z.of_nat (S (S (length l2)))) (2 + lenLen)); cbn [orb];
      try discriminate.
    assert (Hkn : lenLen = Z.of_nat (Z.to_nat lenLen)) by lia.
    set (k := Z.to_nat lenLen) in *.
    assert (Hklen : length (firstn k l2) = k) by (rewrite length_firstn; lia).
    unfold readUnsigned.
    rewrite Hkn at 1. rewrite <- Hklen at 1.
    pose proof (read_app (b + 2) (firstn k l2) []) as Hread.
    rewrite app_nil_r in Hread. rewrite Hread. cbn [bytes].
    pose proof (unsigned_from_range (firstn k l2)) as Hur.
    rewrite Hklen in Hur.
    assert (256 ^ Z.of_nat k <= 256 ^ 4) by (apply Z.pow_le_mono_r; lia).
    rewrite readUnsigned_fold by lia.
    set (len32 := unsigned_from 0 (firstn k l2)) in *.
    destruct (Z.ltb_spec len32 128); [discriminate|].
    destruct (Z.eqb_spec (Z.shiftr len32 ((lenLen - 1) * 8)) 0) as [|Htop];
      [discriminate|].
    rewrite (wrap_u32_small (2 + lenLen)) by lia.
    destruct (Z.ltb_spec (wrap_u32 (2 + lenLen + len32)) len32); [discriminate|].
    intros Heq _.
    assert (HLh : L = wrap_u32 (2 + lenLen + len32) /\ h = 2 + lenLen)
      by (split; congruence).
    destruct HLh as [-> ->]. clear Heq.
    assert (Hsum : 2 + lenLen + len32 < 2 ^ 32).
    { destruct (Z.lt_ge_cases (2 + lenLen + len32) (2 ^ 32)); [assumption|].
      exfalso. unfold wrap_u32 in *.
      assert ((2 + lenLen + len32) mod 2 ^ 32 = 2 + lenLen + len32 - 2 ^ 32)
        by (symmetry; apply Z.mod_unique with 1; lia).
      lia. }
    rewrite wrap_u32_small by lia.
    replace (2 + lenLen + len32 - (2 + lenLen)) with len32 by lia.
    assert (Hlow : 256 ^ (Z.of_nat k - 1) <= len32).
    { rewrite Z.shiftr_div_pow2 in Htop by lia.
      replace (2 ^ ((lenLen - 1) * 8)) with (256 ^ (Z.of_nat k - 1)) in Htop
        by (rewrite Hkn, Z.mul_comm, Z.pow_mul_r by lia; reflexivity).
      assert (0 < 256 ^ (Z.of_nat k - 1)) by (apply Z.pow_pos_nonneg; lia).
      destruct (Z.lt_ge_cases len32 (256 ^ (Z.of_nat k - 1))); [|lia].
      rewrite Z.div_small in Htop by lia. congruence. }
    rewrite (length_octets_of_long k len32) by lia.
    exists (skipn k l2). split.
    + f_equal. cbn [app]. f_equal.
      * apply u8_inj. rewrite u8_byte_of_Z_small by lia. lia.
      * unfold len32. rewrite <- Hklen at 1. rewrite be_digits_unsigned.
        symmetry. apply firstn_skipn.
    + unfold header_len. rewrite (length_octets_of_long k len32) by lia.
      cbn [length]. rewrite length_be_digits. lia.
Qed.

(** An element the reader returns whole is its tag, the shortest length
    octets and the content: the writer's output. *)
Lemma readASN1_canonical (s out s' : String) (t : Tag) :
  readASN1 false s = Some (out, t, s') ->
  exists c, bytes out = tlv t c /\ small (bytes out).
Proof.
  intros Hread. apply readASN1_inv in Hread.
  destruct Hread as (L & h & Hh & Hb1 & Hb2 & Ht & _ & _ & ->).
  cbn [bytes].
  pose proof (readASN1_header_inv _ _ _ Hh) as (_ & HL & _).
  destruct s as [b l]. cbn [bytes base] in *.
  destruct (readASN1_header_canonical b l _ _ ltac:(lia) Hh) as (tail & Hl & Hhl).
  unfold index in Ht. cbn [bytes] in Ht. rewrite <- Ht in Hl.
  set (n := Z.of_nat L - Z.of_nat h) in *.
  assert (Hlen : length l = (header_len n + length tail)%nat).
  { rewrite Hl at 1. unfold header_len. cbn [length]. rewrite length_app. lia. }
  exists (firstn (L - h) tail). split.
  - unfold tlv. rewrite length_firstn, Nat.min_l by lia.
    replace (Z.of_nat (L - h)) with n by lia.
    rewrite Hl at 1.
    replace L with (S (length (length_octets n) + (L - h)))
      at 1 by (unfold header_len in Hhl; lia).
    cbn [firstn]. f_equal.
    rewrite firstn_app, firstn_all2 by lia.
    f_equal. f_equal. lia.
  - unfold small. rewrite length_firstn. lia.
Qed.

(** X14. Every key blob a decode returns, on any input, is one whole DER
    SEQUENCE: the tag, the length in its shortest form and the content, and
    nothing else; read again as an element it is returned as it is. *)
Theorem X14_every_key_is_one_der_sequence {Time : Type}
  (utc : list byte -> option Time) (b : nat) (input : list byte)
  (ctl : CTL Time) :
  ParseAuthrootstl utc (mkString b input) = Ok ctl ->
  Forall (fun blob =>
            (exists c, bytes blob = tlv asn1.SEQUENCE c)
            /\ ReadAnyASN1Element (mkString 0 (bytes blob))
               = Some (mkString 0 (bytes blob), asn1.SEQUENCE,
                       mkString (length (bytes blob)) []))
         (CTLogs ctl).
Proof.
  intros Hrun.
  apply (ParseAuthrootstl_all (fun _ => True)
           (fun blob =>
              (exists c, bytes blob = tlv asn1.SEQUENCE c)
              /\ ReadAnyASN1Element (mkString 0 (bytes blob))
                 = Some (mkString 0 (bytes blob), asn1.SEQUENCE,
                         mkString (length (bytes blob)) []))) in Hrun.
  - tauto.
  - intros; exact I.
  - intros s k s'. unfold ReadASN1Element, ReadAnyASN1Element.
    destruct (readASN1 false s) as [[[out t] r]|] eqn:Hread; [|discriminate].
    destruct (Byte.eqb t asn1.SEQUENCE) eqn:Ht; [|discriminate].
    apply Byte.byte_dec_bl in Ht. subst t.
    intros Heq; inversion Heq; subst.
    destruct (readASN1_canonical _ _ _ _ Hread) as (c & Hc & Hsmall).
    split; [exists c; exact Hc|].
    rewrite Hc in *.
    pose proof (readASN1_tlv false 0 asn1.SEQUENCE c [] low_SEQUENCE Hsmall)
      as Hagain.
    rewrite app_nil_r in Hagain. exact Hagain.
Qed.

Lemma X14_witness :
  Forall (fun blob =>
            (exists c, bytes blob = tlv asn1.SEQUENCE c)
            /\ ReadAnyASN1Element (mkString 0 (bytes blob))
               = Some (mkString 0 (bytes blob), asn1.SEQUENCE,
                       mkString (length (bytes blob)) []))
         [mkString 90 (tlv asn1.SEQUENCE spki10);
          mkString 100 (tlv asn1.SEQUENCE spki20)].
Proof.
  exact (X14_every_key_is_one_der_sequence utc_seconds_form 0
           (envelope_der scenario)
           (mkCTL 1 utc_2025_value [1]
              [mkString 90 (tlv asn1.SEQUENCE spki10);
               mkString 100 (tlv asn1.SEQUENCE spki20)])
           ltac:(vm_compute; reflexivity)).
Defined.

(** X15. Every version a decode returns, on any input, is the value of an
    INTEGER within the range of int32. *)
Theorem X15_every_version_is_within_int32 {Time : Type}
  (utc : list byte -> option Time) (b : nat) (input : list byte)
  (ctl : CTL Time) :
  ParseAuthrootstl utc (mkString b input) = Ok ctl ->
  Forall fits_int32 (CTLogsVersion ctl).
Proof.
  intros Hrun.
  apply (ParseAuthrootstl_all fits_int32 (fun _ => True)) in Hrun.
  - tauto.
  - intros s i s'. unfold ReadASN1Integer_int32.
    destruct (readASN1Int64 s) as [[j r]|]; [|discriminate].
    destruct (OverflowInt32 j) eqn:Hover; [discriminate|].
    intros Heq; inversion Heq; subst.
    rewrite OverflowInt32_spec in Hover.
    apply negb_false_iff, andb_true_iff in Hover.
    destruct Hover as [Hlo Hhi].
    apply Z.leb_le in Hlo. apply Z.ltb_lt in Hhi.
    unfold fits_int32. lia.
  - intros; exact I.
Qed.

Lemma X15_witness : Forall fits_int32 [1].
Proof.
  exact (X15_every_version_is_within_int32 utc_seconds_form 0
           (envelope_der scenario)
           (mkCTL 1 utc_2025_value [1]
              [mkString 90 (tlv asn1.SEQUENCE spki10);
               mkString 100 (tlv asn1.SEQUENCE spki20)])
           ltac:(vm_compute; reflexivity)).
Defined.

(** ** Writing and reading back *)

Import writers.

Lemma int_value_snoc (bs : list byte) (b : byte) :
  bs <> [] -> int_value (bs ++ [b]) = int_value bs * 256 + u8 b.
Proof.
  destruct bs as [|b0 bs]; [congruence|]. intros _.
  change ((b0 :: bs) ++ [b]) with (b0 :: (bs ++ [b])).
  rewrite !int_value_cons.
  change (b0 :: (bs ++ [b])) with ((b0 :: bs) ++ [b]).
  rewrite unsigned_from_app. cbn [unsigned_from fold_left].
  fold (unsigned_from 0 (b0 :: bs)).
  rewrite length_app, Nat2Z.inj_add, Z.pow_add_r by lia.
  change (256 ^ Z.of_nat (length [b])) with 256.
  destruct (128 <=? u8 b0); lia.
Qed.

Lemma int_value_single (v : Z) :
  - 128 <= v < 128 -> int_value [byte_of_Z v] = v.
Proof.
  intros Hv. unfold int_value. cbn [unsigned_from fold_left length].
  rewrite u8_byte_of_Z. change (256 ^ Z.of_nat 1) with 256.
  destruct (Z.lt_ge_cases v 0).
  - rewrite <- (Z.mod_unique v 256 (-1) (v + 256)) by lia.
    replace (128 <=? v + 256) with true by (symmetry; apply Z.leb_le; lia).
    lia.
  - rewrite Z.mod_small by lia.
    replace (128 <=? v) with false by (symmetry; apply Z.leb_gt; lia).
    lia.
Qed.

Lemma minimal_integer_snoc (bs : list byte) (b : byte) :
  (2 <= length bs)%nat -> minimal_integer bs -> minimal_integer (bs ++ [b]).
Proof.
  destruct bs as [|b0 [|b1 bs]]; cbn [length]; try lia. intros _ H. exact H.
Qed.

Lemma int_octets_upto_spec (fuel : nat) : forall v,
  - 128 * 256 ^ Z.of_nat fuel <= v < 128 * 256 ^ Z.of_nat fuel ->
  int_value (int_octets_upto fuel v) = v
  /\ minimal_integer (int_octets_upto fuel v)
  /\ int_octets_upto fuel v <> [].
Proof.
  induction fuel as [|fuel IH]; intros v Hv.
  - cbn [int_octets_upto]. change (256 ^ Z.of_nat 0) with 1 in Hv.
    split; [apply int_value_single; lia|]. split; [exact I|discriminate].
  - cbn [int_octets_upto].
    destruct (Z.leb_spec (- 128) v) as [Hlo|Hlo];
      [destruct (Z.ltb_spec v 128) as [Hhi|Hhi]|]; cbn [andb].
    1:{ split; [apply int_value_single; lia|]. split; [exact I|discriminate]. }
    all: rewrite Nat2Z.inj_succ, Z.pow_succ_r in Hv by lia;
      assert (Hq : - 128 * 256 ^ Z.of_nat fuel <= v / 256
                   < 128 * 256 ^ Z.of_nat fuel)
        by (split; [apply Z.div_le_lower_bound | apply Z.div_lt_upper_bound];
            lia);
      destruct (IH (v / 256) Hq) as (Hval & Hmin & Hne);
      pose proof (Z.div_mod v 256 ltac:(lia)) as Hdm;
      pose proof (Z.mod_pos_bound v 256 ltac:(lia)) as Hmod;
      (split; [rewrite int_value_snoc, Hval, u8_byte_of_Z by assumption; lia|]);
      (split; [|destruct (int_octets_upto fuel (v / 256)); discriminate]);
      destruct (int_octets_upto fuel (v / 256)) as [|a [|a1 rest]] eqn:Hoct;
      [congruence
      | 
      | apply minimal_integer_snoc; [cbn [length]; lia|exact Hmin] ..].
    all: cbn [app minimal_integer]; rewrite u8_byte_of_Z;
      unfold int_value in Hval; cbn [unsigned_from fold_left length] in Hval;
      change (256 ^ Z.of_nat 1) with 256 in Hval;
      pose proof (u8_range a);
      destruct (Z.leb_spec 128 (u8 a)); split; intros [Ha Hb]; lia.
Qed.

(** The writer of INTEGERs: the value read back is the value written, and
    the octets are in the shortest form. *)
Lemma int_octets_spec (v : Z) :
  int_value (int_octets v) = v /\ minimal_integer (int_octets v).
Proof.
  unfold int_octets.
  set (F := Z.log2_up (Z.abs v + 1)).
  assert (HF : 0 <= F) by apply Z.log2_up_nonneg.
  assert (Hpow : Z.abs v + 1 <= 2 ^ F).
  { destruct (Z.eq_dec (Z.abs v + 1) 1) as [->|Hne]; [unfold F; simpl; lia|].
    apply Z.log2_up_spec. lia. }
  assert (Hle : 2 ^ F <= 256 ^ F) by (apply Z.pow_le_mono_l; lia).
  destruct (int_octets_upto_spec (Z.to_nat F) v) as (Hval & Hmin & _).
  - rewrite Z2Nat.id by lia. lia.
  - split; assumption.
Qed.

Lemma wf_versions_written (versions : list Z) :
  Forall fits_int32 versions -> wf_versions (map int_octets versions).
Proof.
  induction 1 as [|v vs Hv _ IH]; cbn [map]; constructor; [|exact IH].
  destruct (int_octets_spec v) as [Hval Hmin].
  split; [exact Hmin|]. rewrite Hval. exact Hv.
Qed.

Lemma map_int_value_written (versions : list Z) :
  map int_value (map int_octets versions) = versions.
Proof.
  induction versions as [|v vs IH]; cbn [map]; [reflexivity|].
  rewrite IH. f_equal. apply int_octets_spec.
Qed.

(** X16. Round trip.  A trust list written from a sequence number of any
    size, a date the time parser takes, versions within int32 and keys, and
    wrapped in an envelope, decodes to that very number, date, version list
    and key list: same values, same order, same count. *)
Theorem X16_written_trust_list_reads_back {Time : Type}
  (utc : list byte -> option Time) (b : nat) (e : SignedData) (n : Z)
  (date : list byte) (t : Time) (versions : list Z)
  (keys : list (list byte)) :
  wf_envelope e ->
  eContent e = written_ctl n date versions keys ->
  utc date = Some t ->
  Forall fits_int32 versions ->
  small (envelope_der e) ->
  exists ctl,
    ParseAuthrootstl utc (mkString b (envelope_der e)) = Ok ctl
    /\ SequenceNumber ctl = n
    /\ EffectiveDate ctl = t
    /\ CTLogsVersion ctl = versions
    /\ map bytes (CTLogs ctl) = map (tlv asn1.SEQUENCE) keys.
Proof.
  intros Henv Hcontent Hdate Hfit Hsmall. unfold written_ctl in Hcontent.
  destruct (int_octets_spec n) as [Hval Hmin].
  destruct (decode_written utc b e [] []
              (mkTrustList [] (int_octets n) date [] [])
              (Some [mkExtension samples.oid_CTLogs None
                       (ctlogs_value (map int_octets versions) keys)])
              t [Some (map int_octets versions, keys)] Henv Hcontent)
    as (ctl & Hrun & Hseq & Hdt & Hlogs).
  - split; [exact Hmin|]. split; [exact Hdate|].
    constructor; [|constructor].
    apply (wf_ctlogs _ oidCTLogs); try reflexivity.
    apply wf_versions_written. exact Hfit.
  - exact Hsmall.
  - cbn [last_logs] in Hlogs. inversion Hlogs as [[Hv Hk]].
    exists ctl. cbn [sequenceNumber] in Hseq.
    rewrite map_int_value_written in Hv.
    repeat split; try assumption. congruence.
Qed.

Lemma X16_witness :
  exists ctl,
    ParseAuthrootstl utc_seconds_form
      (mkString 0
         (envelope_der
            (envelope_of
               (written_ctl (- (2 ^ 80)) utc_2025
                  [0; -1; 2 ^ 31 - 1; - 2 ^ 31] [spki10; spki10; []]))))
    = Ok ctl
    /\ SequenceNumber ctl = - (2 ^ 80)
    /\ EffectiveDate ctl = utc_2025_value
    /\ CTLogsVersion ctl = [0; -1; 2 ^ 31 - 1; - 2 ^ 31]
    /\ map bytes (CTLogs ctl) = map (tlv asn1.SEQUENCE) [spki10; spki10; []].
Proof.
  apply (X16_written_trust_list_reads_back utc_seconds_form 0 _ (- (2 ^ 80))
           utc_2025 utc_2025_value [0; -1; 2 ^ 31 - 1; - 2 ^ 31]
           [spki10; spki10; []]).
  - unfold written_ctl, ctl_der, ctl_with. apply wf_envelope_of.
  - reflexivity.
  - reflexivity.
  - repeat constructor; cbn; lia.
  - vm_compute. reflexivity.
Defined.

(** ** What an accepted input looks like *)

(** A successful read took one element in canonical form off the front of
    the cursor. *)
Lemma readASN1_shape (skipHeader : bool) (s out s' : String) (t : Tag) :
  readASN1 skipHeader s = Some (out, t, s') ->
  exists c,
    bytes s = tlv t c ++ bytes s' /\ low_tag t /\ small (tlv t c)
    /\ bytes out = if skipHeader then c else tlv t c.
Proof.
  intros Hread. pose proof Hread as Hinv. apply readASN1_inv in Hinv.
  destruct Hinv as (L & h & Hh & Hb1 & Hb2 & Ht & Hlow & Hs' & _).
  pose proof (readASN1_intro false s L h Hh ltac:(lia) Hb2) as Hfalse.
  rewrite <- Ht in Hfalse. specialize (Hfalse Hlow). cbn match in Hfalse.
  destruct (readASN1_canonical _ _ _ _ Hfalse) as (c & Hc & Hsm).
  cbn [bytes] in Hc, Hsm. exists c.
  assert (Hs : bytes s = tlv t c ++ bytes s').
  { rewrite Hs'. cbn [bytes]. rewrite <- Hc, firstn_skipn. reflexivity. }
  rewrite Hc in Hsm.
  split; [exact Hs|]. split; [exact Hlow|]. split; [exact Hsm|].
  destruct s as [b l]. cbn [bytes] in Hs. subst l.
  rewrite readASN1_tlv in Hread by assumption.
  destruct skipHeader; injection Hread as <- _; reflexivity.
Qed.

Lemma ReadASN1_shape (tag : Tag) (s out s' : String) :
  ReadASN1 tag s = Some (out, s') ->
  bytes s = tlv tag (bytes out) ++ bytes s' /\ small (tlv tag (bytes out)).
Proof.
  unfold ReadASN1, ReadAnyASN1. intros H.
  destruct (readASN1 true s) as [[[o t] r]|] eqn:E; [|discriminate].
  destruct (Byte.eqb t tag) eqn:Et; [|discriminate].
  apply Byte.byte_dec_bl in Et. subst t. injection H as -> ->.
  destruct (readASN1_shape _ _ _ _ _ E) as (c & Hs & _ & Hsm & ->).
  split; assumption.
Qed.

Lemma ReadASN1Element_shape (tag : Tag) (s out s' : String) :
  ReadASN1Element tag s = Some (out, s') ->
  exists c, bytes s = tlv tag c ++ bytes s' /\ bytes out = tlv tag c.
Proof.
  unfold ReadASN1Element, ReadAnyASN1Element. intros H.
  destruct (readASN1 false s) as [[[o t] r]|] eqn:E; [|discriminate].
  destruct (Byte.eqb t tag) eqn:Et; [|discriminate].
  apply Byte.byte_dec_bl in Et. subst t. injection H as -> ->.
  destruct (readASN1_shape _ _ _ _ _ E) as (c & Hs & _ & _ & Ho).
  exists c. split; assumption.
Qed.

Lemma SkipASN1_shape (tag : Tag) (s s' : String) :
  SkipASN1 tag s = Some s' -> exists c, bytes s = tlv tag c ++ bytes s'.
Proof.
  unfold SkipASN1. intros H.
  destruct (ReadASN1 tag s) as [[o r]|] eqn:E; [|discriminate].
  injection H as ->. apply ReadASN1_shape in E.
  exists (bytes o). apply E.
Qed.

(** An INTEGER read into an int32 was written in the shortest form and its
    value is within the range. *)
Lemma ReadASN1Integer_int32_shape (s s' : String) (i : Z) :
  ReadASN1Integer_int32 s = Some (i, s') ->
  exists c,
    bytes s = tlv asn1.INTEGER c ++ bytes s'
    /\ minimal_integer c /\ int_value c = i /\ fits_int32 i.
Proof.
  intros H. pose proof H as H0. unfold ReadASN1Integer_int32, readASN1Int64 in H.
  destruct (ReadASN1 asn1.INTEGER s) as [[o r]|] eqn:E; [|discriminate].
  clear H. apply ReadASN1_shape in E. destruct E as [Hs Hsm].
  destruct s as [b l]. cbn [bytes] in Hs. subst l.
  rewrite ReadASN1Integer_int32_tlv in H0 by assumption.
  destruct (checkASN1Integer (bytes o)) eqn:Hmin; [|discriminate].
  cbn [andb] in H0.
  destruct (Z.leb_spec (- 2 ^ 31) (int_value (bytes o)));
    [destruct (Z.ltb_spec (int_value (bytes o)) (2 ^ 31))|];
    cbn [andb] in H0; try discriminate.
  injection H0 as <- <-. cbn [bytes]. exists (bytes o).
  split; [reflexivity|]. split; [apply minimal_checkASN1Integer; exact Hmin|].
  split; [reflexivity|]. split; assumption.
Qed.

(** An INTEGER read into a big.Int was written in the shortest form. *)
Lemma readASN1BigInt_shape (s s' : String) (n : Z) :
  readASN1BigInt s = Some (n, s') ->
  exists c,
    bytes s = tlv asn1.INTEGER c ++ bytes s'
    /\ minimal_integer c /\ int_value c = n.
Proof.
  intros H. pose proof H as H0. unfold readASN1BigInt in H.
  destruct (ReadASN1 asn1.INTEGER s) as [[o r]|] eqn:E; [|discriminate].
  clear H. apply ReadASN1_shape in E. destruct E as [Hs Hsm].
  destruct s as [b l]. cbn [bytes] in Hs. subst l.
  rewrite readASN1BigInt_tlv in H0 by assumption.
  destruct (checkASN1Integer (bytes o)) eqn:Hmin; [|discriminate].
  injection H0 as <- <-. cbn [bytes]. exists (bytes o).
  split; [reflexivity|]. split; [apply minimal_checkASN1Integer; exact Hmin|].
  reflexivity.
Qed.

(** *** The shortest form of a number is unique *)

Lemma byte_of_Z_low (q : Z) (b : byte) : byte_of_Z (q * 256 + u8 b) = b.
Proof.
  rewrite <- byte_of_Z_mod.
  pose proof (u8_range b).
  rewrite <- (Z.mod_unique (q * 256 + u8 b) 256 q (u8 b)) by lia.
  apply byte_of_Z_u8.
Qed.

Lemma int_octets_upto_more (fuel : nat) : forall v,
  - 128 * 256 ^ Z.of_nat fuel <= v < 128 * 256 ^ Z.of_nat fuel ->
  int_octets_upto (S fuel) v = int_octets_upto fuel v.
Proof.
  induction fuel as [|fuel IH]; intros v Hv.
  - change (256 ^ Z.of_nat 0) with 1 in Hv. cbn [int_octets_upto].
    replace (- 128 <=? v) with true by (symmetry; apply Z.leb_le; lia).
    replace (v <? 128) with true by (symmetry; apply Z.ltb_lt; lia).
    reflexivity.
  - change (int_octets_upto (S (S fuel)) v)
      with (if (- 128 <=? v) && (v <? 128) then [byte_of_Z v]
            else int_octets_upto (S fuel) (v / 256) ++ [byte_of_Z v]).
    change (int_octets_upto (S fuel) v)
      with (if (- 128 <=? v) && (v <? 128) then [byte_of_Z v]
            else int_octets_upto fuel (v / 256) ++ [byte_of_Z v]).
    destruct ((- 128 <=? v) && (v <? 128)); [reflexivity|].
    rewrite IH; [reflexivity|].
    rewrite Nat2Z.inj_succ, Z.pow_succ_r in Hv by lia.
    split; [apply Z.div_le_lower_bound | apply Z.div_lt_upper_bound]; lia.
Qed.

Lemma int_octets_upto_enough (k fuel : nat) (v : Z) :
  - 128 * 256 ^ Z.of_nat fuel <= v < 128 * 256 ^ Z.of_nat fuel ->
  int_octets_upto (k + fuel) v = int_octets_upto fuel v.
Proof.
  intros Hv. induction k as [|k IH]; [reflexivity|].
  cbn [Nat.add]. rewrite int_octets_upto_more; [exact IH|].
  assert (256 ^ Z.of_nat fuel <= 256 ^ Z.of_nat (k + fuel))
    by (apply Z.pow_le_mono_r; lia).
  lia.
Qed.

Lemma int_octets_upto_value (c : list byte) :
  minimal_integer c -> int_octets_upto (length c - 1) (int_value c) = c.
Proof.
  induction c as [|b bs IH] using rev_ind; [intros []|]. intros Hmin.
  rewrite length_app. cbn [length].
  replace (length bs + 1 - 1)%nat with (length bs) by lia.
  destruct bs as [|a bs'] eqn:Hbs.
  - cbn [app length int_octets_upto]. f_equal.
    unfold int_value. cbn [unsigned_from fold_left length].
    change (256 ^ Z.of_nat 1) with 256.
    destruct (128 <=? u8 b).
    + replace (0 * 256 + u8 b - 256) with (-1 * 256 + u8 b) by lia.
      apply byte_of_Z_low.
    + apply byte_of_Z_low.
  - rewrite <- Hbs in *.
    assert (Hne : bs <> []) by (subst bs; discriminate).
    assert (Hlen : (1 <= length bs)%nat) by (subst bs; cbn [length]; lia).
    assert (Hmin' : minimal_integer bs).
    { subst bs. destruct bs' as [|a1 bs2]; [exact I|exact Hmin]. }
    assert (Hbig : ~ (- 128 <= int_value (bs ++ [b]) < 128)).
    { subst bs. cbn [app] in *.
      destruct (bs' ++ [b]) as [|a1 rest] eqn:Hsplit;
        [destruct bs'; discriminate|].
      apply checkASN1Integer_minimal in Hmin.
      pose proof (minimal_magnitude _ _ _ Hmin) as Hmag. cbn zeta in Hmag.
      assert (0 < 256 ^ Z.of_nat (length rest))
        by (apply Z.pow_pos_nonneg; lia).
      lia. }
    rewrite int_value_snoc in * by exact Hne.
    pose proof (u8_range b) as Hb.
    replace (length bs) with (S (length bs - 1)) at 1 by lia.
    cbn [int_octets_upto].
    replace ((- 128 <=? int_value bs * 256 + u8 b)
             && (int_value bs * 256 + u8 b <? 128)) with false.
    2:{ symmetry. apply andb_false_iff.
        destruct (Z.leb_spec (- 128) (int_value bs * 256 + u8 b));
          [right; apply Z.ltb_ge; lia | left; reflexivity]. }
    rewrite byte_of_Z_low.
    rewrite <- (Z.div_unique (int_value bs * 256 + u8 b) 256 (int_value bs) (u8 b))
      by lia.
    rewrite (IH Hmin'). reflexivity.
Qed.

(** The writer yields the one shortest form: octets the reader takes as an
    INTEGER are the octets the writer gives for their value. *)
Lemma int_octets_unique (c : list byte) :
  minimal_integer c -> int_octets (int_value c) = c.
Proof.
  intros Hmin. unfold int_octets.
  set (v := int_value c).
  set (F := Z.log2_up (Z.abs v + 1)).
  assert (HF : 0 <= F) by apply Z.log2_up_nonneg.
  assert (Hpow : Z.abs v + 1 <= 2 ^ F).
  { destruct (Z.eq_dec (Z.abs v + 1) 1) as [->|Hne]; [unfold F; simpl; lia|].
    apply Z.log2_up_spec. lia. }
  assert (Hle : 2 ^ F <= 256 ^ F) by (apply Z.pow_le_mono_l; lia).
  assert (Hc : (1 <= length c)%nat) by (destruct c; [destruct Hmin|cbn; lia]).
  pose proof (int_value_range c) as Hrange. fold v in Hrange.
  replace (Z.of_nat (length c)) with (Z.succ (Z.of_nat (length c - 1)))
    in Hrange by lia.
  rewrite Z.pow_succ_r in Hrange by lia.
  destruct (Nat.le_ge_cases (Z.to_nat F) (length c - 1)) as [Hcase|Hcase].
  - rewrite <- (int_octets_upto_value c Hmin). fold v.
    replace (length c - 1)%nat
      with ((length c - 1 - Z.to_nat F) + Z.to_nat F)%nat by lia.
    symmetry. apply int_octets_upto_enough.
    rewrite Z2Nat.id by lia. lia.
  - rewrite <- (int_octets_upto_value c Hmin). fold v.
    replace (Z.to_nat F)
      with ((Z.to_nat F - (length c - 1)) + (length c - 1))%nat by lia.
    apply int_octets_upto_enough. lia.
Qed.

(** *** The loops, read backwards *)

Lemma versions_loop_shape (fuel : nat) :
  forall (s : String) (acc version : list Z),
  (length (bytes s) <= fuel)%nat ->
  versions_loop fuel s acc = Ok version ->
  exists more,
    version = acc ++ more
    /\ bytes s = elements asn1.INTEGER (map int_octets more)
    /\ Forall fits_int32 more.
Proof.
  induction fuel as [|fuel IH]; intros s acc version Hfuel Hrun.
  - injection Hrun as <-. exists []. rewrite app_nil_r.
    destruct (bytes s); [|cbn [length] in Hfuel; lia].
    repeat split. constructor.
  - cbn [versions_loop] in Hrun.
    destruct (Empty s) eqn:Hempty; cbn [negb] in Hrun.
    + injection Hrun as <-. exists []. rewrite app_nil_r.
      apply Empty_nil in Hempty. rewrite Hempty.
      repeat split. constructor.
    + destruct (ReadASN1Integer_int32 s) as [[i s1]|] eqn:Hread;
        [|discriminate].
      cbn in Hrun.
      pose proof (ReadASN1Integer_int32_progress _ _ _ Hread) as Hprog.
      destruct (ReadASN1Integer_int32_shape _ _ _ Hread)
        as (c & Hs & Hmin & Hval & Hfit).
      destruct (IH s1 (acc ++ [i]) version ltac:(lia) Hrun)
        as (more & Hversion & Hbytes & Hall).
      exists (i :: more). rewrite <- app_assoc in Hversion.
      split; [exact Hversion|]. split; [|constructor; assumption].
      cbn [map]. change (elements asn1.INTEGER (int_octets i :: ?l))
        with (tlv asn1.INTEGER (int_octets i) ++ elements asn1.INTEGER l).
      rewrite <- Hbytes, <- Hval, (int_octets_unique c Hmin). exact Hs.
Qed.

Lemma pubkeys_loop_shape (fuel : nat) :
  forall (s : String) (acc pubkeys : list String),
  (length (bytes s) <= fuel)%nat ->
  pubkeys_loop fuel s acc = Ok pubkeys ->
  exists (more : list String) (keys : list (list byte)),
    pubkeys = acc ++ more
    /\ bytes s = elements asn1.SEQUENCE keys
    /\ map bytes more = map (tlv asn1.SEQUENCE) keys.
Proof.
  induction fuel as [|fuel IH]; intros s acc pubkeys Hfuel Hrun.
  - injection Hrun as <-. exists [], []. rewrite app_nil_r.
    destruct (bytes s); [|cbn [length] in Hfuel; lia].
    repeat split.
  - cbn [pubkeys_loop] in Hrun.
    destruct (Empty s) eqn:Hempty; cbn [negb] in Hrun.
    + injection Hrun as <-. exists [], []. rewrite app_nil_r.
      apply Empty_nil in Hempty. rewrite Hempty.
      repeat split.
    + destruct (ReadASN1Element asn1.SEQUENCE s) as [[spki s1]|] eqn:Hread;
        [|discriminate].
      cbn in Hrun.
      pose proof (ReadASN1Element_progress _ _ _ _ Hread) as Hprog.
      destruct (ReadASN1Element_shape _ _ _ _ Hread) as (c & Hs & Hout).
      destruct (IH s1 (acc ++ [spki]) pubkeys ltac:(lia) Hrun)
        as (more & keys & Hkeys & Hbytes & Hmap).
      exists (spki :: more), (c :: keys). rewrite <- app_assoc in Hkeys.
      split; [exact Hkeys|]. split.
      * change (elements asn1.SEQUENCE (c :: keys))
          with (tlv asn1.SEQUENCE c ++ elements asn1.SEQUENCE keys).
        rewrite <- Hbytes. exact Hs.
      * cbn [map]. rewrite Hout, Hmap. reflexivity.
Qed.

(** X17. The CT-logs value has one accepted spelling.  When parseCTLogs
    returns a version list and keys, its input is exactly the DER value a
    writer gives for them: the outer SEQUENCE, the SEQUENCE of the versions
    each in its shortest form, then the keys back to back, nothing else. *)
Theorem X17_accepted_ctlogs_value_is_canonical (b : nat) (input : list byte)
  (version : list Z) (pubkeys : list String) :
  parseCTLogs (mkString b input) = Ok (version, pubkeys) ->
  exists keys,
    input = ctlogs_value (map int_octets version) keys
    /\ map bytes pubkeys = map (tlv asn1.SEQUENCE) keys
    /\ Forall fits_int32 version.
Proof.
  unfold parseCTLogs. intros Hrun.
  destruct (ReadASN1 asn1.SEQUENCE (mkString b input)) as [[sequence der]|]
    eqn:E1; [|discriminate].
  cbn in Hrun.
  destruct (Empty der) eqn:Hempty; cbn [negb] in Hrun; [|discriminate].
  destruct (ReadASN1 asn1.SEQUENCE sequence) as [[versionSequence rest]|]
    eqn:E2; [|discriminate].
  cbn in Hrun.
  destruct (versions_loop _ versionSequence []) as [vs|] eqn:E3;
    [|discriminate].
  destruct (pubkeys_loop _ rest []) as [ks|] eqn:E4; [|discriminate].
  injection Hrun as <- <-.
  apply ReadASN1_shape in E1, E2. destruct E1 as [H1 _], E2 as [H2 _].
  apply Empty_nil in Hempty. rewrite Hempty, app_nil_r in H1.
  cbn [bytes] in H1.
  destruct (versions_loop_shape _ _ _ _ (Nat.le_refl _) E3)
    as (more & Hmore & Hv & Hfit).
  destruct (pubkeys_loop_shape _ _ _ _ (Nat.le_refl _) E4)
    as (mk & keys & Hmk & Hk & Hmap).
  cbn [app] in Hmore, Hmk. subst more mk.
  exists keys. split; [|split; assumption].
  unfold ctlogs_value. rewrite H1, H2, Hv, Hk. reflexivity.
Qed.

Lemma X17_witness :
  exists keys,
    ctlogs_value [[x01]] [spki10; spki20]
    = ctlogs_value (map int_octets [1]) keys
    /\ map bytes (windows 7 (map (tlv asn1.SEQUENCE) [spki10; spki20]))
       = map (tlv asn1.SEQUENCE) keys
    /\ Forall fits_int32 [1].
Proof.
  apply (X17_accepted_ctlogs_value_is_canonical 0
           (ctlogs_value [[x01]] [spki10; spki20]) [1]
           (windows 7 (map (tlv asn1.SEQUENCE) [spki10; spki20]))).
  vm_compute. reflexivity.
Defined.

Lemma ReadASN1ObjectIdentifier_shape (s s' : String) (id : ObjectIdentifier) :
  ReadASN1ObjectIdentifier s = Some (id, s') ->
  exists c,
    bytes s = tlv asn1.OBJECT_IDENTIFIER c ++ bytes s'
    /\ oid_of_content c = Some id.
Proof.
  unfold ReadASN1ObjectIdentifier. intros H.
  destruct (ReadASN1 asn1.OBJECT_IDENTIFIER s) as [[o r]|] eqn:E;
    [|discriminate].
  destruct (oid_of_content (bytes o)) as [components|] eqn:Eo; [|discriminate].
  injection H as <- <-. apply ReadASN1_shape in E.
  exists (bytes o). split; [apply E | exact Eo].
Qed.

Lemma ReadASN1UTCTime_shape {Time : Type} (utc : list byte -> option Time)
  (s s' : String) (t : Time) :
  ReadASN1UTCTime Time utc s = Some (t, s') ->
  exists c, bytes s = tlv asn1.UTCTime c ++ bytes s' /\ utc c = Some t.
Proof.
  unfold ReadASN1UTCTime. intros H.
  destruct (ReadASN1 asn1.UTCTime s) as [[o r]|] eqn:E; [|discriminate].
  destruct (utc (bytes o)) as [t'|] eqn:Et; [|discriminate].
  injection H as <- <-. apply ReadASN1_shape in E.
  exists (bytes o). split; [apply E | exact Et].
Qed.

(** X18. The layout parseCTL accepts.  A decoded trust list is one SEQUENCE
    with nothing after it, holding a SEQUENCE, the sequence number as an
    INTEGER in its shortest form, a UTCTime the time parser takes, and two
    more SEQUENCEs; what follows them is either not read at all, both lists
    staying empty, or starts with a [[0]] element that starts with a
    SEQUENCE. *)
Theorem X18_accepted_trust_list_layout {Time : Type}
  (utc : list byte -> option Time) (b : nat) (input : list byte)
  (ctl : CTL Time) :
  parseCTL utc (mkString b input) = Ok ctl ->
  exists sg date alg en rest,
    input = ctl_with (mkTrustList sg (int_octets (SequenceNumber ctl)) date
                        alg en) rest
    /\ utc date = Some (EffectiveDate ctl)
    /\ ((CTLogsVersion ctl = [] /\ CTLogs ctl = []
         /\ PeekASN1Tag asn1.ContextSpecificConstructed0 (mkString 0 rest)
            = false)
        \/ exists exts after_list after_block,
             rest = tlv asn1.ContextSpecificConstructed0
                      (tlv asn1.SEQUENCE exts ++ after_list)
                    ++ after_block).
Proof.
  unfold parseCTL. intros Hrun.
  destruct (ReadASN1 asn1.SEQUENCE (mkString b input)) as [[s0 der]|] eqn:E0;
    [|discriminate].
  cbn in Hrun.
  destruct (Empty der) eqn:Hempty; cbn [negb] in Hrun; [|discriminate].
  destruct (SkipASN1 asn1.SEQUENCE s0) as [s1|] eqn:E1; [|discriminate].
  cbn in Hrun.
  destruct (ReadASN1Integer_big s1) as [[n s2]|] eqn:E2; [|discriminate].
  cbn in Hrun.
  destruct (ReadASN1UTCTime Time utc s2) as [[t s3]|] eqn:E3; [|discriminate].
  cbn in Hrun.
  destruct (SkipASN1 asn1.SEQUENCE s3) as [s4|] eqn:E4; [|discriminate].
  cbn in Hrun.
  destruct (SkipASN1 asn1.SEQUENCE s4) as [s5|] eqn:E5; [|discriminate].
  cbn in Hrun.
  apply ReadASN1_shape in E0. destruct E0 as [H0 _].
  apply Empty_nil in Hempty. rewrite Hempty, app_nil_r in H0.
  cbn [bytes] in H0.
  apply SkipASN1_shape in E1, E4, E5.
  destruct E1 as (sg & H1), E4 as (alg & H4), E5 as (en & H5).
  apply readASN1BigInt_shape in E2. destruct E2 as (c & H2 & Hmin & Hval).
  apply ReadASN1UTCTime_shape in E3. destruct E3 as (date & H3 & Hdate).
  assert (Hinput : input
                   = ctl_with (mkTrustList sg (int_octets n) date alg en)
                       (bytes s5)).
  { unfold ctl_with. cbn [signers sequenceNumber effectiveDate
                          subjectAlgorithm entries].
    rewrite H0, H1, H2, H3, H4, H5, <- Hval, (int_octets_unique c Hmin).
    reflexivity. }
  assert (Hpeek : forall tag s,
             PeekASN1Tag tag (mkString 0 (bytes s)) = PeekASN1Tag tag s)
    by reflexivity.
  unfold ReadOptionalASN1 in Hrun.
  destruct (PeekASN1Tag asn1.ContextSpecificConstructed0 s5) eqn:Hp.
  - destruct (ReadASN1 asn1.ContextSpecificConstructed0 s5)
      as [[block s6]|] eqn:E6; [|discriminate].
    cbn in Hrun.
    destruct (ReadASN1 asn1.SEQUENCE block) as [[exts s7]|] eqn:E7;
      [|discriminate].
    cbn in Hrun.
    destruct (extensions_loop _ exts ([], [])) as [[version logs]|] eqn:E8;
      [|discriminate].
    injection Hrun as <-.
    cbn [SequenceNumber EffectiveDate CTLogsVersion CTLogs].
    exists sg, date, alg, en, (bytes s5).
    split; [exact Hinput|]. split; [exact Hdate|]. right.
    apply ReadASN1_shape in E6, E7. destruct E6 as [H6 _], E7 as [H7 _].
    exists (bytes exts), (bytes s7), (bytes s6).
    rewrite H6, H7. reflexivity.
  - cbn in Hrun. injection Hrun as <-.
    cbn [SequenceNumber EffectiveDate CTLogsVersion CTLogs].
    exists sg, date, alg, en, (bytes s5).
    split; [exact Hinput|]. split; [exact Hdate|]. left.
    rewrite Hpeek. repeat split. exact Hp.
Qed.

Lemma X18_witness :
  exists sg date alg en rest,
    eContent scenario
    = ctl_with (mkTrustList sg (int_octets 1) date alg en) rest
    /\ utc_seconds_form date = Some utc_2025_value
    /\ (([1] = [] /\ windows 53 (map (tlv asn1.SEQUENCE) [spki10; spki20]) = []
         /\ PeekASN1Tag asn1.ContextSpecificConstructed0 (mkString 0 rest)
            = false)
        \/ exists exts after_list after_block,
             rest = tlv asn1.ContextSpecificConstructed0
                      (tlv asn1.SEQUENCE exts ++ after_list)
                    ++ after_block).
Proof.
  apply (X18_accepted_trust_list_layout utc_seconds_form 0 (eContent scenario)
           (mkCTL 1 utc_2025_value [1]
              (windows 53 (map (tlv asn1.SEQUENCE) [spki10; spki20])))).
  vm_compute. reflexivity.
Defined.

(** X19. The layout parsePKCS7 accepts, and the six places where it leaves
    bytes unread.  An opened envelope is a SEQUENCE of an OBJECT IDENTIFIER
    and a [[0]] element; in that a SEQUENCE of an INTEGER, a SET and a
    SEQUENCE; in that an OBJECT IDENTIFIER that decodes to the returned
    identifier and a [[0]] element, which starts with the returned content
    element.  After each of the six nested elements any bytes may follow. *)
Theorem X19_accepted_envelope_layout (b : nat) (input : list byte)
  (oid : ObjectIdentifier) (content : String) :
  parsePKCS7 (mkString b input) = Ok (oid, content) ->
  exists (e : SignedData) (j1 j2 j3 j4 j5 j6 : list byte),
    input
    = tlv asn1.SEQUENCE
        (tlv asn1.OBJECT_IDENTIFIER (contentType e)
         ++ tlv asn1.ContextSpecificConstructed0
              (tlv asn1.SEQUENCE
                 (tlv asn1.INTEGER (version e)
                  ++ tlv asn1.SET (digestAlgorithms e)
                  ++ tlv asn1.SEQUENCE
                       (tlv asn1.OBJECT_IDENTIFIER (eContentType e)
                        ++ tlv asn1.ContextSpecificConstructed0
                             (eContent e ++ j1)
                        ++ j2)
                  ++ j3)
               ++ j4)
         ++ j5)
      ++ j6
    /\ signerInfos e = j3
    /\ oid_of_content (eContentType e) = Some oid
    /\ bytes content = eContent e
    /\ exists tag c, low_tag tag /\ eContent e = tlv tag c.
Proof.
  unfold parsePKCS7. intros Hrun.
  destruct (ReadASN1 asn1.SEQUENCE (mkString b input)) as [[s0 r6]|] eqn:E0;
    [|discriminate].
  cbn in Hrun.
  destruct (SkipASN1 asn1.OBJECT_IDENTIFIER s0) as [s1|] eqn:E1;
    [|discriminate].
  cbn in Hrun.
  destruct (ReadASN1 asn1.ContextSpecificConstructed0 s1) as [[s2 r5]|] eqn:E2;
    [|discriminate].
  cbn in Hrun.
  destruct (ReadASN1 asn1.SEQUENCE s2) as [[s3 r4]|] eqn:E3; [|discriminate].
  cbn in Hrun.
  destruct (SkipASN1 asn1.INTEGER s3) as [s4|] eqn:E4; [|discriminate].
  cbn in Hrun.
  destruct (SkipASN1 asn1.SET s4) as [s5|] eqn:E5; [|discriminate].
  cbn in Hrun.
  destruct (ReadASN1 asn1.SEQUENCE s5) as [[s6 r3]|] eqn:E6; [|discriminate].
  cbn in Hrun.
  destruct (ReadASN1ObjectIdentifier s6) as [[id s7]|] eqn:E7; [|discriminate].
  cbn in Hrun.
  destruct (ReadASN1 asn1.ContextSpecificConstructed0 s7) as [[s8 r2]|] eqn:E8;
    [|discriminate].
  cbn in Hrun.
  destruct (ReadAnyASN1Element s8) as [[[el tag] r1]|] eqn:E9; [|discriminate].
  cbn in Hrun. injection Hrun as <- <-.
  apply ReadASN1_shape in E0, E2, E3, E6, E8.
  destruct E0 as [H0 _], E2 as [H2 _], E3 as [H3 _], E6 as [H6 _],
    E8 as [H8 _].
  apply SkipASN1_shape in E1, E4, E5.
  destruct E1 as (ct & H1), E4 as (ver & H4), E5 as (digs & H5).
  apply ReadASN1ObjectIdentifier_shape in E7. destruct E7 as (ect & H7 & Hid).
  unfold ReadAnyASN1Element in E9. apply readASN1_shape in E9.
  destruct E9 as (c & H9 & Hlow & _ & Hel).
  cbn [bytes] in H0.
  exists (mkSignedData ct ver digs ect (tlv tag c) (bytes r3)),
    (bytes r1), (bytes r2), (bytes r3), (bytes r4), (bytes r5), (bytes r6).
  cbn [contentType version digestAlgorithms eContentType eContent signerInfos].
  split.
  { rewrite H0, H1, H2, H3, H4, H5, H6, H7, H8, H9. reflexivity. }
  split; [reflexivity|]. split; [exact Hid|]. split; [exact Hel|].
  exists tag, c. split; [exact Hlow | reflexivity].
Qed.

Lemma X19_witness :
  exists (e : SignedData) (j1 j2 j3 j4 j5 j6 : list byte),
    envelope_with scenario [x05; x00] [xff]
    = tlv asn1.SEQUENCE
        (tlv asn1.OBJECT_IDENTIFIER (contentType e)
         ++ tlv asn1.ContextSpecificConstructed0
              (tlv asn1.SEQUENCE
                 (tlv asn1.INTEGER (version e)
                  ++ tlv asn1.SET (digestAlgorithms e)
                  ++ tlv asn1.SEQUENCE
                       (tlv asn1.OBJECT_IDENTIFIER (eContentType e)
                        ++ tlv asn1.ContextSpecificConstructed0
                             (eContent e ++ j1)
                        ++ j2)
                  ++ j3)
               ++ j4)
         ++ j5)
      ++ j6
    /\ signerInfos e = j3
    /\ oid_of_content (eContentType e) = Some [1; 3; 6; 1; 4; 1; 311; 10; 1]
    /\ eContent scenario = eContent e
    /\ exists tag c, low_tag tag /\ eContent e = tlv tag c.
Proof.
  apply (X19_accepted_envelope_layout 0
           (envelope_with scenario [x05; x00] [xff])
           [1; 3; 6; 1; 4; 1; 311; 10; 1]
           (mkString 37 (eContent scenario))).
  vm_compute. reflexivity.
Defined.

(** *** Where the windows lie *)

(** A read leaves the end of the cursor where it was; the element's window
    starts at the cursor when the header is kept and ends where the rest
    starts. *)
Lemma readASN1_place (skipHeader : bool) (s out s' : String) (t : Tag) :
  readASN1 skipHeader s = Some (out, t, s') ->
  (base s' + length (bytes s') = base s + length (bytes s))%nat
  /\ (base out + length (bytes out) = base s')%nat
  /\ (skipHeader = false -> base out = base s).
Proof.
  intros Hread. apply readASN1_inv in Hread.
  destruct Hread as (L & h & _ & Hb1 & Hb2 & _ & _ & -> & ->).
  cbn [base bytes]. rewrite length_skipn.
  split; [lia|]. split; [|intros ->; reflexivity].
  destruct skipHeader; cbn [base bytes];
    rewrite ?length_skipn, length_firstn; lia.
Qed.

Lemma ReadASN1_place (tag : Tag) (s out s' : String) :
  ReadASN1 tag s = Some (out, s') ->
  (base s' + length (bytes s') = base s + length (bytes s))%nat
  /\ (base out + length (bytes out) = base s')%nat.
Proof.
  unfold ReadASN1, ReadAnyASN1. intros H.
  destruct (readASN1 true s) as [[[o t] r]|] eqn:E; [|discriminate].
  destruct (Byte.eqb t tag); [|discriminate]. injection H as -> ->.
  apply readASN1_place in E. tauto.
Qed.

Lemma pubkeys_loop_place (fuel : nat) :
  forall (s : String) (acc pubkeys : list String),
  (length (bytes s) <= fuel)%nat ->
  pubkeys_loop fuel s acc = Ok pubkeys ->
  exists more,
    pubkeys = acc ++ windows (base s) more /\ bytes s = concat more.
Proof.
  induction fuel as [|fuel IH]; intros s acc pubkeys Hfuel Hrun.
  - injection Hrun as <-. exists []. cbn [windows concat].
    rewrite app_nil_r.
    destruct (bytes s); [|cbn [length] in Hfuel; lia]. split; reflexivity.
  - cbn [pubkeys_loop] in Hrun.
    destruct (Empty s) eqn:Hempty; cbn [negb] in Hrun.
    + injection Hrun as <-. exists []. cbn [windows concat].
      rewrite app_nil_r. apply Empty_nil in Hempty. split; [reflexivity|].
      exact Hempty.
    + destruct (ReadASN1Element asn1.SEQUENCE s) as [[spki s1]|] eqn:Hread;
        [|discriminate].
      cbn in Hrun.
      pose proof (ReadASN1Element_progress _ _ _ _ Hread) as Hprog.
      destruct (ReadASN1Element_shape _ _ _ _ Hread) as (c & Hs & Hout).
      assert (Hplace : base spki = base s
                       /\ (base spki + length (bytes spki) = base s1)%nat).
      { unfold ReadASN1Element, ReadAnyASN1Element in Hread.
        destruct (readASN1 false s) as [[[o t] r]|] eqn:E; [|discriminate].
        destruct (Byte.eqb t asn1.SEQUENCE); [|discriminate].
        injection Hread as -> ->. apply readASN1_place in E.
        destruct E as (_ & He & Hb). split; [apply Hb; reflexivity|exact He]. }
      destruct Hplace as [Hb Hend].
      destruct (IH s1 (acc ++ [spki]) pubkeys ltac:(lia) Hrun)
        as (more & Hkeys & Hbytes).
      exists (bytes spki :: more). rewrite <- app_assoc in Hkeys.
      cbn [windows concat]. rewrite <- Hb, Hend.
      split; [destruct spki; exact Hkeys|].
      rewrite <- Hbytes, Hout. exact Hs.
Qed.

(** X20. The returned keys are adjacent windows that run to the end of the
    input: the input is some prefix followed by the keys' bytes back to
    back, the first key starts right after the prefix, and each next key
    starts where the one before ends. *)
Theorem X20_keys_tile_the_end_of_the_input (b : nat) (input : list byte)
  (version : list Z) (pubkeys : list String) :
  parseCTLogs (mkString b input) = Ok (version, pubkeys) ->
  exists prefix,
    input = prefix ++ concat (map bytes pubkeys)
    /\ pubkeys = windows (b + length prefix) (map bytes pubkeys).
Proof.
  unfold parseCTLogs. intros Hrun.
  destruct (ReadASN1 asn1.SEQUENCE (mkString b input)) as [[sequence der]|]
    eqn:E1; [|discriminate].
  cbn in Hrun.
  destruct (Empty der) eqn:Hempty; cbn [negb] in Hrun; [|discriminate].
  destruct (ReadASN1 asn1.SEQUENCE sequence) as [[versionSequence rest]|]
    eqn:E2; [|discriminate].
  cbn in Hrun.
  destruct (versions_loop _ versionSequence []) as [vs|] eqn:E3;
    [|discriminate].
  destruct (pubkeys_loop _ rest []) as [ks|] eqn:E4; [|discriminate].
  injection Hrun as <- <-.
  pose proof (ReadASN1_place _ _ _ _ E1) as [P1 P1'].
  pose proof (ReadASN1_place _ _ _ _ E2) as [P2 _].
  apply ReadASN1_shape in E1, E2. destruct E1 as [H1 _], E2 as [H2 _].
  apply Empty_nil in Hempty. rewrite Hempty in H1, P1. rewrite app_nil_r in H1.
  cbn [bytes base length] in H1, P1.
  destruct (pubkeys_loop_place _ _ _ _ (Nat.le_refl _) E4) as (more & Hks & Hk).
  cbn [app] in Hks.
  assert (Hmap : map bytes ks = more) by (rewrite Hks; apply bytes_windows).
  exists (asn1.SEQUENCE
          :: length_octets (Z.of_nat (length (bytes sequence)))
          ++ tlv asn1.SEQUENCE (bytes versionSequence)).
  assert (Hin : input
                = (asn1.SEQUENCE
                   :: length_octets (Z.of_nat (length (bytes sequence)))
                   ++ tlv asn1.SEQUENCE (bytes versionSequence))
                  ++ concat (map bytes ks)).
  { rewrite Hmap, <- Hk, H1. unfold tlv at 1. rewrite H2 at 2.
    cbn [app]. rewrite <- app_assoc. reflexivity. }
  split; [exact Hin|].
  rewrite Hmap. rewrite Hks at 1. f_equal.
  apply (f_equal (@length byte)) in Hin.
  rewrite length_app, Hmap, <- Hk in Hin.
  change Tag with byte in *. lia.
Qed.

Lemma X20_witness :
  exists prefix,
    ctlogs_value [[x01]] [spki10; spki20]
    = prefix
      ++ concat (map bytes (windows 7 (map (tlv asn1.SEQUENCE) [spki10; spki20])))
    /\ windows 7 (map (tlv asn1.SEQUENCE) [spki10; spki20])
       = windows (0 + length prefix)
           (map bytes (windows 7 (map (tlv asn1.SEQUENCE) [spki10; spki20]))).
Proof.
  apply (X20_keys_tile_the_end_of_the_input 0
           (ctlogs_value [[x01]] [spki10; spki20]) [1]
           (windows 7 (map (tlv asn1.SEQUENCE) [spki10; spki20]))).
  vm_compute. reflexivity.
Defined.
